(** * release-please: manifest orchestration and node-workspace propagation

    A shallow embedding of the two core source files of the repository:

    - the node-workspace plugin ([NodeWorkspaceDependencyUpdates]), which
      cascades patch bumps through the local dependency graph, and
    - the manifest orchestrator ([Manifest]), with its validation, release
      candidate resolution and release-creation loop.

    JavaScript containers are modelled as insertion-ordered association lists,
    [undefined] as [None], thrown exceptions as an explicit error result, and
    remote mutations as events appended to a trace. *)

From Stdlib Require Import List String Ascii Bool Arith PeanoNat Lia Permutation.
Import ListNotations.
Set Warnings "-register-all".
Local Open Scope string_scope.
Local Open Scope list_scope.

(* ================================================================== *)
(** * JavaScript containers *)
(* ================================================================== *)

(** [Set<string>]: membership and insertion (insertion order is kept). *)
Definition mem (x : string) (l : list string) : bool :=
  existsb (String.eqb x) l.

Definition set_add (x : string) (l : list string) : list string :=
  if mem x l then l else l ++ [x].

(** [Map<string, V>] and plain objects used as records: an association list in
    insertion order.  [set] on an existing key keeps the key's position. *)
Module JsMap.
Section Defs.
Context {V : Type}.

Definition t := list (string * V).

Fixpoint get (m : t) (k : string) : option V :=
  match m with
  | [] => None
  | (k', v) :: m' => if String.eqb k k' then Some v else get m' k
  end.

Definition has (m : t) (k : string) : bool :=
  match get m k with Some _ => true | None => false end.

Fixpoint set (m : t) (k : string) (v : V) : t :=
  match m with
  | [] => [(k, v)]
  | (k', v') :: m' =>
      if String.eqb k k' then (k, v) :: m' else (k', v') :: set m' k v
  end.

Definition delete (m : t) (k : string) : t :=
  filter (fun e => negb (String.eqb k (fst e))) m.

(** [new Map(entries)]: entries are set one after the other. *)
Definition of_entries (es : list (string * V)) : t :=
  fold_left (fun m e => set m (fst e) (snd e)) es [].

Definition keys (m : t) : list string := map fst m.

End Defs.
Arguments t : clear implicits.
End JsMap.

(** The option (error) monad: [None] is a thrown exception. *)
Definition obind {A B} (x : option A) (f : A -> option B) : option B :=
  match x with Some a => f a | None => None end.

Fixpoint omapM {A B} (f : A -> option B) (l : list A) : option (list B) :=
  match l with
  | [] => Some []
  | x :: l' =>
      obind (f x) (fun y => obind (omapM f l') (fun ys => Some (y :: ys)))
  end.

(** JavaScript truthiness of a [string | undefined]. *)
Definition truthy (s : option string) : bool :=
  match s with
  | Some s' => negb (String.eqb s' "")
  | None => false
  end.

(* ================================================================== *)
(** * The lerna data model used by the plugin *)
(* ================================================================== *)

(** The plugin drives four third-party modules: [@lerna/package],
    [@lerna/package-graph], [@lerna/collect-updates] and
    [@lerna/run-topologically].  Their data and the graph walk are modelled
    here after the library (version 4); string formatting that the library
    delegates further ([semver.inc], hosted git URLs) and the scheduling order
    of the topological runner are parameters of the development. *)
Module Lerna.

(** [npm-package-arg] result types. *)
Inductive ResolvedType :=
  | TGit | TTag | TVersion | TRange | TFile | TDirectory | TRemote | TAlias.

Definition is_directory (t : ResolvedType) : bool :=
  match t with TDirectory => true | _ => false end.

(** The fields of an [npa.Result] that the code reads. *)
Record Resolved := {
  r_name : string;
  r_type : ResolvedType;
  r_registry : bool;
  r_gitCommittish : option string;
  r_gitRange : option string
}.

Definition Deps := JsMap.t string.

(** [PackageJson]: name, version and the dependency collections. *)
Record PackageJson := {
  pj_name : string;
  pj_version : option string;
  pj_dependencies : option Deps;
  pj_optionalDependencies : option Deps;
  pj_devDependencies : option Deps
}.

(** [new Package(pkgJson, location)]. *)
Record Package := {
  pkg_json : PackageJson;
  pkg_location : string
}.

Definition pkg_name (p : Package) : string := pj_name (pkg_json p).
Definition pkg_version (p : Package) : option string := pj_version (pkg_json p).

(** [pkg.set('version', v)]. *)
Definition set_version (p : Package) (v : option string) : Package :=
  {| pkg_json :=
       {| pj_name := pj_name (pkg_json p);
          pj_version := v;
          pj_dependencies := pj_dependencies (pkg_json p);
          pj_optionalDependencies := pj_optionalDependencies (pkg_json p);
          pj_devDependencies := pj_devDependencies (pkg_json p) |};
     pkg_location := pkg_location p |}.

(** [!depCollection || !depCollection[depName]]. *)
Definition lacks (c : option Deps) (depName : string) : bool :=
  match c with
  | None => true
  | Some d => negb (truthy (JsMap.get d depName))
  end.

Inductive Collection := CDependencies | COptional | CDev.

(** The collection [updateLocalDependency] writes to: runtime dependencies
    first, then optional, falling back to dev dependencies. *)
Definition depCollection (p : Package) (depName : string) : Collection :=
  if lacks (pj_dependencies (pkg_json p)) depName then
    if lacks (pj_optionalDependencies (pkg_json p)) depName then CDev
    else COptional
  else CDependencies.

Definition collection_of (p : Package) (c : Collection) : option Deps :=
  match c with
  | CDependencies => pj_dependencies (pkg_json p)
  | COptional => pj_optionalDependencies (pkg_json p)
  | CDev => pj_devDependencies (pkg_json p)
  end.

Definition with_collection (p : Package) (c : Collection) (d : Deps) : Package :=
  let j := pkg_json p in
  {| pkg_json :=
       {| pj_name := pj_name j;
          pj_version := pj_version j;
          pj_dependencies :=
            match c with CDependencies => Some d | _ => pj_dependencies j end;
          pj_optionalDependencies :=
            match c with COptional => Some d | _ => pj_optionalDependencies j end;
          pj_devDependencies :=
            match c with CDev => Some d | _ => pj_devDependencies j end |};
     pkg_location := pkg_location p |}.

(** [depCollection[depName] = spec]; a [TypeError] when the collection is
    [undefined]. *)
Definition write_spec (p : Package) (depName spec : string) : option Package :=
  let c := depCollection p depName in
  match collection_of p c with
  | None => None
  | Some d => Some (with_collection p c (JsMap.set d depName spec))
  end.

(** The specifier a package currently records for [depName], looked up in
    the same order as [depCollection]. *)
Definition dep_spec (p : Package) (depName : string) : option string :=
  match collection_of p (depCollection p depName) with
  | None => None
  | Some d => JsMap.get d depName
  end.

Definition is_digit (c : ascii) : bool :=
  let n := nat_of_ascii c in ((48 <=? n) && (n <=? 57))%nat.

(** [/^\D*/.exec(s)[0]]: the leading run of non-digits. *)
Fixpoint tagPrefix (s : string) : string :=
  match s with
  | EmptyString => EmptyString
  | String c s' => if is_digit c then EmptyString else String c (tagPrefix s')
  end.

Section UpdateLocalDependency.

(** [hosted.toString({noGitPlus: false, noCommittish: false})] after
    [hosted.committish] was set to the given string. *)
Variable hosted_toString : Resolved -> string -> string.

(** [Package.updateLocalDependency(resolved, depVersion, savePrefix)]. *)
Definition updateLocalDependency
  (p : Package) (resolved : Resolved) (depVersion savePrefix : string)
  : option Package :=
  let depName := r_name resolved in
  if r_registry resolved || is_directory (r_type resolved) then
    write_spec p depName (savePrefix ++ depVersion)
  else
    match r_gitCommittish resolved with
    | Some c =>
        if truthy (Some c) then
          write_spec p depName
            (hosted_toString resolved (tagPrefix c ++ depVersion))
        else
          if truthy (r_gitRange resolved) then
            write_spec p depName
              (hosted_toString resolved ("semver:" ++ savePrefix ++ depVersion))
          else Some p
    | None =>
        if truthy (r_gitRange resolved) then
          write_spec p depName
            (hosted_toString resolved ("semver:" ++ savePrefix ++ depVersion))
        else Some p
    end.

End UpdateLocalDependency.

(** A [PackageGraphNode]: the package and its local dependency edges
    ([Map<depName, npa.Result>]), as the [PackageGraph] constructor records
    them.  [name], [version] and [location] read the package. *)
Record PackageGraphNode := {
  node_pkg : Package;
  localDependencies : JsMap.t Resolved
}.

Definition node_name (n : PackageGraphNode) : string := pkg_name (node_pkg n).
Definition node_version (n : PackageGraphNode) : option string :=
  pkg_version (node_pkg n).
Definition node_location (n : PackageGraphNode) : string :=
  pkg_location (node_pkg n).

(** [PackageGraph extends Map<name, PackageGraphNode>], in insertion order. *)
Definition PackageGraph := list PackageGraphNode.

Definition graph_get (G : PackageGraph) (name : string)
  : option PackageGraphNode :=
  find (fun n => String.eqb name (node_name n)) G.

(** [node.localDependents]: the constructor registers [currentNode] as a
    dependent of [depNode] for each local edge, walking the graph in order. *)
Definition localDependents (G : PackageGraph) (n : PackageGraphNode)
  : list PackageGraphNode :=
  filter (fun m => JsMap.has (localDependencies m) (node_name n)) G.

(** ** [collectDependents]: breadth-first walk over [localDependents] *)

Record BfsState := {
  queue : list PackageGraphNode;
  seen : list string;
  collected : list string
}.

(** The [visit] callback of [node.localDependents.forEach]; node identity is
    the node's name (the key of the graph). *)
Definition visit (currentNode : PackageGraphNode)
  (siblingDependents : list PackageGraphNode)
  (st : BfsState) (dependentNode : PackageGraphNode) : BfsState :=
  if mem (node_name dependentNode) (seen st) then st
  else
    let seen' := set_add (node_name dependentNode) (seen st) in
    if String.eqb (node_name dependentNode) (node_name currentNode)
       || mem (node_name currentNode) (map node_name siblingDependents)
    then {| queue := queue st; seen := seen'; collected := collected st |}
    else {| queue := queue st ++ [dependentNode];
            seen := seen';
            collected := set_add (node_name dependentNode) (collected st) |}.

(** [while (queue.length) { node = queue.shift(); ... }] *)
Fixpoint bfs (G : PackageGraph) (fuel : nat) (currentNode : PackageGraphNode)
  (st : BfsState) : BfsState :=
  match queue st with
  | [] => st
  | node :: rest =>
      match fuel with
      | 0 => st
      | S fuel' =>
          let dependents := localDependents G node in
          bfs G fuel' currentNode
            (fold_left (visit currentNode dependents) dependents
               {| queue := rest; seen := seen st; collected := collected st |})
      end
  end.

Definition collectDependents (G : PackageGraph)
  (nodes : list PackageGraphNode) : list string :=
  fold_left
    (fun coll currentNode =>
       match localDependents G currentNode with
       | [] => coll
       | _ =>
           collected
             (bfs G (S (List.length G)) currentNode
                {| queue := [currentNode]; seen := []; collected := coll |})
       end)
    nodes [].

(** [collectPackages(packages, {isCandidate})]: candidates and their
    dependents, in the order of the graph. *)
Definition collectPackages (G : PackageGraph)
  (isCandidate : PackageGraphNode -> bool) : list PackageGraphNode :=
  let candidates := filter isCandidate G in
  let dependents := collectDependents G candidates in
  filter (fun node => isCandidate node || mem (node_name node) dependents) G.

End Lerna.

(* ================================================================== *)
(** * The node-workspace plugin *)
(* ================================================================== *)

Module NodeWorkspace.
Import Lerna.

(** The plugin's view of [ManifestPackageWithPRData]. *)
Record FileData := {
  content : option string;
  mode : string
}.

Definition Changes := JsMap.t FileData.

Record PRData := {
  prVersion : option string;
  changes : Changes
}.

Record ManifestPackage := {
  path : string;
  releaseType : string;
  packageName : option string
}.

Record ManifestPackageWithPRData := {
  config : ManifestPackage;
  prData : PRData
}.

Definition VersionsMap := JsMap.t (option string).
Definition PathPkgJson := JsMap.t PackageJson.

(** What [Map.get] hands to the code for a map of [string | undefined]. *)
Definition lookup (m : JsMap.t (option string)) (k : string) : option string :=
  match JsMap.get m k with
  | Some v => v
  | None => None
  end.

(** [filePath.replace(/\/package.json$/, '')]: the pattern has a fixed width
    of 13 characters and is anchored at the end; its [.] matches any
    character but a line terminator. *)
Definition dot_matches (c : option ascii) : bool :=
  match c with
  | Some a => negb (Ascii.eqb a "010"%char || Ascii.eqb a "013"%char)
  | None => false
  end.

Definition strip_package_json (filePath : string) : string :=
  let n := String.length filePath in
  if (n <? 13)%nat then filePath
  else
    let suffix := substring (n - 13) 13 filePath in
    if String.eqb (substring 0 8 suffix) "/package"
       && dot_matches (String.get 8 suffix)
       && String.eqb (substring 9 4 suffix) "json"
    then substring 0 (n - 13) filePath
    else filePath.

Section Plugin.

(** [semver.inc(version, 'patch')]; [None] is [null]. *)
Variable semver_inc_patch : option string -> option string.
Variable hosted_toString : Resolved -> string -> string.
(** The order in which [runTopologically] hands the packages to the runner. *)
Variable runOrder : list Package -> list Package.
(** [packageJsonStringify] from [../util/package-json-stringify]. *)
Variable packageJsonStringify : PackageJson -> string.

(** ** [runLernaVersion] *)

Record Versions := {
  updatesVersions : JsMap.t (option string);
  invalidVersions : list string
}.

(** One iteration of [for (const node of updatesWithDependents)]. *)
Definition computeVersion (rpUpdatedPkgs : PathPkgJson)
  (acc : Versions) (node : PackageGraphNode) : Versions :=
  if JsMap.has rpUpdatedPkgs (node_location node) then
    {| updatesVersions :=
         JsMap.set (updatesVersions acc) (node_name node) (node_version node);
       invalidVersions := invalidVersions acc |}
  else
    match semver_inc_patch (node_version node) with
    | None =>
        {| updatesVersions := updatesVersions acc;
           invalidVersions := set_add (node_name node) (invalidVersions acc) |}
    | Some patch =>
        {| updatesVersions :=
             JsMap.set (updatesVersions acc) (node_name node) (Some patch);
           invalidVersions := invalidVersions acc |}
    end.

(** One iteration of [for (const [depName, resolved] of
    graphPkg.localDependencies)]. *)
Definition updateDependency (uv : JsMap.t (option string))
  (acc : option Package) (edge : string * Resolved) : option Package :=
  obind acc (fun pkg =>
    let '(depName, resolved) := edge in
    match lookup uv depName with
    | Some depVersion =>
        if truthy (Some depVersion) && negb (is_directory (r_type resolved))
        then updateLocalDependency hosted_toString pkg resolved depVersion "^"
        else Some pkg
    | None => Some pkg
    end).

Definition runner (packageGraph : PackageGraph)
  (uv : JsMap.t (option string)) (pkg : Package) : option Package :=
  let pkg := set_version pkg (lookup uv (pkg_name pkg)) in
  obind (graph_get packageGraph (pkg_name pkg)) (fun graphPkg =>
    fold_left (updateDependency uv) (localDependencies graphPkg) (Some pkg)).

(** [runTopologically(packages, runner, {concurrency: 1, ...})]: the runner
    is applied to one package after the other; the result lists the returned
    packages in run order. *)
Definition runTopologically (packages : list Package)
  (run : Package -> option Package) : option (list Package) :=
  omapM run (runOrder packages).

Definition isCandidate (rpUpdatedPkgs : PathPkgJson)
  (node : PackageGraphNode) : bool :=
  JsMap.has rpUpdatedPkgs (node_location node).

Definition computeVersions (rpUpdatedPkgs : PathPkgJson)
  (updatesWithDependents : list PackageGraphNode) : Versions :=
  fold_left (computeVersion rpUpdatedPkgs) updatesWithDependents
    {| updatesVersions := []; invalidVersions := [] |}.

(** [runLernaVersion], from the package graph built over all workspace
    packages on. *)
Definition runLernaVersion (rpUpdatedPkgs : PathPkgJson)
  (packageGraph : PackageGraph) : option (JsMap.t Package) :=
  let updatesWithDependents :=
    collectPackages packageGraph (isCandidate rpUpdatedPkgs) in
  let vs := computeVersions rpUpdatedPkgs updatesWithDependents in
  obind
    (runTopologically
       (map node_pkg
          (filter (fun node => negb (mem (node_name node) (invalidVersions vs)))
             updatesWithDependents))
       (runner packageGraph (updatesVersions vs)))
    (fun allUpdated =>
       Some (JsMap.of_entries (map (fun p => (pkg_location p, p)) allUpdated))).

(** ** [updatePkgsWithPRData] *)

Record MergeState := {
  pkgsWithPRData : list ManifestPackageWithPRData;
  newManifestVersions : VersionsMap;
  allUpdated : JsMap.t Package;
  parsedPackages : list ManifestPackage
}.

Definition with_changes (pkg : ManifestPackageWithPRData) (c : Changes)
  : ManifestPackageWithPRData :=
  {| config := config pkg;
     prData := {| prVersion := prVersion (prData pkg); changes := c |} |}.

(** The body of the first loop, for the package at hand; the processed
    packages are collected in order. *)
Definition mergeExisting (st : MergeState) (pkg : ManifestPackageWithPRData)
  : MergeState :=
  let skip :=
    {| pkgsWithPRData := pkgsWithPRData st ++ [pkg];
       newManifestVersions := newManifestVersions st;
       allUpdated := allUpdated st;
       parsedPackages := parsedPackages st |} in
  if negb (String.eqb (releaseType (config pkg)) "node") then skip
  else
    let pkgPath := path (config pkg) in
    let filePath := (pkgPath ++ "/package.json")%string in
    match JsMap.get (allUpdated st) filePath with
    | None => skip
    | Some updated =>
        let content := packageJsonStringify (pkg_json updated) in
        let fileData :=
          match JsMap.get (changes (prData pkg)) filePath with
          | Some existing => existing
          | None => {| content := Some content; mode := "100644" |}
          end in
        {| pkgsWithPRData :=
             pkgsWithPRData st
             ++ [with_changes pkg
                   (JsMap.set (changes (prData pkg)) filePath fileData)];
           newManifestVersions :=
             JsMap.set (newManifestVersions st) pkgPath (pkg_version updated);
           allUpdated := JsMap.delete (allUpdated st) filePath;
           parsedPackages := parsedPackages st |}
    end.

Definition is_package_json_of (filePath : string) (p : ManifestPackage) : bool :=
  String.eqb (path p ++ "/package.json")%string filePath.

(** [pkg.packageName = update.name] on the element [find] returned. *)
Fixpoint set_packageName (filePath name : string) (l : list ManifestPackage)
  : list ManifestPackage :=
  match l with
  | [] => []
  | p :: l' =>
      if is_package_json_of filePath p then
        {| path := path p; releaseType := releaseType p;
           packageName := Some name |} :: l'
      else p :: set_packageName filePath name l'
  end.

(** The body of the second loop. *)
Definition appendNew (st : MergeState) (entry : string * Package) : MergeState :=
  let '(filePath, update) := entry in
  match find (is_package_json_of filePath) (parsedPackages st) with
  | None => st
  | Some pkg =>
      let pkg' :=
        {| path := path pkg; releaseType := releaseType pkg;
           packageName := Some (pkg_name update) |} in
      let content := packageJsonStringify (pkg_json update) in
      {| pkgsWithPRData :=
           pkgsWithPRData st
           ++ [{| config := pkg';
                  prData :=
                    {| prVersion := pkg_version update;
                       changes :=
                         [(filePath,
                           {| content := Some content; mode := "100644" |})] |} |}];
         newManifestVersions :=
           JsMap.set (newManifestVersions st) (strip_package_json filePath)
             (pkg_version update);
         allUpdated := allUpdated st;
         parsedPackages :=
           set_packageName filePath (pkg_name update) (parsedPackages st) |}
  end.

Definition updatePkgsWithPRData
  (pkgs : list ManifestPackageWithPRData) (versions : VersionsMap)
  (updated : JsMap.t Package) (configured : list ManifestPackage)
  : MergeState :=
  let st1 :=
    fold_left mergeExisting pkgs
      {| pkgsWithPRData := []; newManifestVersions := versions;
         allUpdated := updated; parsedPackages := configured |} in
  fold_left appendNew (allUpdated st1) st1.

End Plugin.
End NodeWorkspace.

(* ================================================================== *)
(** * A model of [semver.inc(version, 'patch')] *)
(* ================================================================== *)

(** The theorems below hold for any implementation of [semver.inc]; this
    model of the strict grammar ([v]MAJOR.MINOR.PATCH[-prerelease][+build])
    instantiates them on concrete workspaces. *)
Module Semver.

Fixpoint split_on (c : ascii) (s : string) : list string :=
  match s with
  | EmptyString => [EmptyString]
  | String a s' =>
      let r := split_on c s' in
      if Ascii.eqb a c then EmptyString :: r
      else
        match r with
        | [] => [String a EmptyString]
        | h :: t => String a h :: t
        end
  end.

Fixpoint split_first (c : ascii) (s : string) : string * option string :=
  match s with
  | EmptyString => (EmptyString, None)
  | String a s' =>
      if Ascii.eqb a c then (EmptyString, Some s')
      else let '(h, t) := split_first c s' in (String a h, t)
  end.

Fixpoint all_chars (f : ascii -> bool) (s : string) : bool :=
  match s with
  | EmptyString => true
  | String a s' => f a && all_chars f s'
  end.

Definition is_ident_char (c : ascii) : bool :=
  let n := nat_of_ascii c in
  (Lerna.is_digit c
   || ((65 <=? n) && (n <=? 90)) || ((97 <=? n) && (n <=? 122))
   || (n =? 45))%nat.

(** [0|[1-9]\d*] *)
Definition numeric_id (s : string) : bool :=
  match s with
  | EmptyString => false
  | String c s' =>
      Lerna.is_digit c && all_chars Lerna.is_digit s'
      && (negb (Ascii.eqb c "0"%char) || String.eqb s' "")
  end.

Fixpoint digits_value (acc : nat) (s : string) : nat :=
  match s with
  | EmptyString => acc
  | String c s' => digits_value (10 * acc + (nat_of_ascii c - 48)) s'
  end.

Definition prerelease_id (s : string) : bool :=
  negb (String.eqb s "") && all_chars is_ident_char s
  && (negb (all_chars Lerna.is_digit s) || numeric_id s).

Definition build_id (s : string) : bool :=
  negb (String.eqb s "") && all_chars is_ident_char s.

Record SemVer := {
  major : nat;
  minor : nat;
  patch : nat;
  prerelease : list string
}.

Definition strip_v (s : string) : string :=
  match s with
  | String c s' => if Ascii.eqb c "v"%char then s' else s
  | EmptyString => s
  end.

Definition parse (v : string) : option SemVer :=
  let '(main, build) := split_first "+"%char (strip_v v) in
  let '(core, pre) := split_first "-"%char main in
  let build_ok :=
    match build with
    | None => true
    | Some b => forallb build_id (split_on "."%char b)
    end in
  let pre_ids :=
    match pre with
    | None => Some []
    | Some p =>
        let ids := split_on "."%char p in
        if forallb prerelease_id ids then Some ids else None
    end in
  match split_on "."%char core, pre_ids with
  | [a; b; c], Some ids =>
      if build_ok && numeric_id a && numeric_id b && numeric_id c then
        Some {| major := digits_value 0 a; minor := digits_value 0 b;
                patch := digits_value 0 c; prerelease := ids |}
      else None
  | _, _ => None
  end.

Fixpoint show_digits (fuel n : nat) (acc : string) : string :=
  match fuel with
  | 0 => acc
  | S fuel' =>
      let acc' := String (ascii_of_nat (48 + n mod 10)) acc in
      if (n / 10 =? 0)%nat then acc' else show_digits fuel' (n / 10) acc'
  end.

Definition show (n : nat) : string := show_digits (S n) n "".

(** [inc('patch')]: a prerelease of the patch is promoted, otherwise the
    patch number is incremented. *)
Definition inc_patch (v : option string) : option string :=
  match v with
  | None => None
  | Some s =>
      match parse s with
      | None => None
      | Some sv =>
          let p := match prerelease sv with [] => S (patch sv) | _ => patch sv end in
          Some (show (major sv) ++ "." ++ show (minor sv) ++ "." ++ show p)%string
      end
  end.

End Semver.

(* ================================================================== *)
(** * Example workspaces *)
(* ================================================================== *)

Module Examples.
Import Lerna NodeWorkspace.

Definition range_to (name : string) : Resolved :=
  {| r_name := name; r_type := TRange; r_registry := true;
     r_gitCommittish := None; r_gitRange := None |}.

Definition directory_to (name : string) : Resolved :=
  {| r_name := name; r_type := TDirectory; r_registry := false;
     r_gitCommittish := None; r_gitRange := None |}.

Definition mkPackage (name version location : string) (deps : Deps) : Package :=
  {| pkg_json :=
       {| pj_name := name; pj_version := Some version;
          pj_dependencies := Some deps;
          pj_optionalDependencies := None; pj_devDependencies := None |};
     pkg_location := location |}.

Definition no_hosted (r : Resolved) (committish : string) : string := committish.
Definition in_order (l : list Package) : list Package := l.
Definition stringify (j : PackageJson) : string :=
  (pj_name j ++ "@" ++ match pj_version j with Some v => v | None => "" end
   ++ " {"
   ++ String.concat ", "
        (map (fun e => (fst e ++ ": " ++ snd e)%string)
           (match pj_dependencies j with Some d => d | None => [] end))
   ++ "}")%string.

(** The chain of the plugin's test: pkgA was bumped to 1.1.2 by its releaser,
    pkgB depends on pkgA, pkgC on pkgB. *)
Definition pkgA : Package :=
  mkPackage "@here/pkgA" "1.1.2" "packages/pkgA/package.json"
    [("@there/foo", "^4.1.7")].
Definition pkgB : Package :=
  mkPackage "@here/pkgB" "2.2.2" "packages/pkgB/package.json"
    [("@here/pkgA", "^1.1.1"); ("someExternal", "^9.2.3")].
Definition pkgC : Package :=
  mkPackage "@here/pkgC" "3.3.3" "packages/pkgC/package.json"
    [("@here/pkgB", "^2.2.2"); ("anotherExternal", "^4.3.1")].

Definition chain : PackageGraph :=
  [ {| node_pkg := pkgA; localDependencies := [] |};
    {| node_pkg := pkgB;
       localDependencies := [("@here/pkgA", range_to "@here/pkgA")] |};
    {| node_pkg := pkgC;
       localDependencies := [("@here/pkgB", range_to "@here/pkgB")] |} ].

Definition chainUpdated : PathPkgJson :=
  [("packages/pkgA/package.json", pkg_json pkgA)].

Definition run_chain : option (JsMap.t Package) :=
  runLernaVersion Semver.inc_patch no_hosted in_order chainUpdated chain.

End Examples.

(* ================================================================== *)
(** * The manifest orchestrator *)
(* ================================================================== *)

Module Manifest.

(** ** Values and collaborators *)

(** The result of [JSON.parse]; an object lists its own entries in the order
    of [Object.entries]. *)
Inductive json :=
  | JNull
  | JBool (b : bool)
  | JNum (n : nat)
  | JStr (s : string)
  | JArr (items : list json)
  | JObj (entries : list (string * json)).

(** A JavaScript value read from a document: [None] is [undefined]. *)
Definition value := option json.

Definition truthy_value (v : value) : bool :=
  match v with
  | None | Some JNull => false
  | Some (JBool b) => b
  | Some (JNum n) => negb (n =? 0)%nat
  | Some (JStr s) => negb (String.eqb s "")
  | Some (JArr _) | Some (JObj _) => true
  end.

(** [a ?? b] *)
Definition nullish (a b : value) : value :=
  match a with
  | None | Some JNull => b
  | _ => a
  end.

Definition is_string (v : json) : bool :=
  match v with JStr _ => true | _ => false end.

Record ErrorEntry := {
  code : string;
  field : string
}.

(** A thrown error, with the properties the code reads. *)
Record Exn := {
  status : option nat;
  errors : option (list ErrorEntry);
  message : string;
  isSyntaxError : bool
}.

Definition TypeError (msg : string) : Exn :=
  {| status := None; errors := None; message := msg; isSyntaxError := false |}.

Definition SyntaxError (msg : string) : Exn :=
  {| status := None; errors := None; message := msg; isSyntaxError := true |}.

Inductive Result (A : Type) :=
  | Ok (a : A)
  | Throw (e : Exn).
Arguments Ok {A} a.
Arguments Throw {A} e.

Inductive CheckpointType := Success | Failure.

Record Commit := {
  c_sha : string;
  c_message : string;
  c_files : list string
}.

Record MergedPR := {
  pr_sha : string;
  pr_number : nat;
  pr_labels : list string;
  pr_files : list string
}.

(** The [Package] interface of the manifest (a parsed configuration entry). *)
Record Package := {
  path : string;
  releaseType : value;
  packageName : value;
  bumpMinorPreMajor : value;
  changelogSections : value;
  changelogPath : value;
  releaseAs : value;
  releaseDraft : bool
}.

(** [{monorepoTags: true, draft: releaseDraft, ...rest}] *)
Record ReleaserOptions := {
  monorepoTags : bool;
  draft : bool;
  rest : Package
}.

Record PackageReleaseData := {
  prd_package : Package;
  commits : list Commit;
  lastVersion : value;
  releaserOptions : ReleaserOptions
}.

Definition VersionsMap := JsMap.t json.

Inductive Update :=
  | ReleaserUpdate (id : string)
  | ReleasePleaseManifest (upath : string) (versions : VersionsMap)
      (contents : string).

Record OpenPROptions := {
  o_version : string;
  o_changelogEntry : string;
  o_updates : list Update
}.

Record PackageWithPRData := {
  pwd_name : string;
  openPROptions : OpenPROptions
}.

Record LatestTag := {
  t_name : string;
  t_sha : string;
  t_version : value
}.

Record Release := {
  html_url : string
}.

Record GitHubReleaseResponse := {
  rr_release : Release;
  rr_version : value;
  rr_sha : string;
  rr_number : nat
}.

Record Config := {
  parsedPackages : list Package;
  config_json : json
}.

(** The collaborators of one run: the remote host, the releaser factory and
    the helpers of the repository that live outside the two core files. *)
Record Env := {
  configFileName : string;
  manifestFileName : string;
  DEFAULT_LABELS : list string;
  GITHUB_RELEASE_LABEL : string;
  (* reads of the remote host *)
  getFileContents : string -> Result string;
  getFileContentsWithSimpleAPI : string -> string -> Result string;
  getDefaultBranch : string;
  lastMergedPRByHeadBranch : string -> option MergedPR;
  commitsSinceSha : value -> list Commit;
  (* what the awaited calls that change the host answer; [Throw] is a
     rejected call *)
  openPR_answer : string -> string -> list Update -> Result (option nat);
  addLabels_answer : list string -> nat -> Result unit;
  removeLabels_answer : list string -> nat -> Result unit;
  commentOnIssue_answer : string -> nat -> Result unit;
  createRelease_answer :
    PackageReleaseData -> value -> MergedPR -> Result (option Release);
  (* helpers *)
  JSON_parse : string -> option json;
  JSON_stringify_base64 : value -> string;
  branchNameOf : string -> string;
  split : list string -> list Commit -> JsMap.t (list Commit);
  to_string : value -> string;
  (* the releasers, outside the core files, in a run in which they answer *)
  releaserClassName : value -> string;
  getPackageName : PackageReleaseData -> string;
  releasePR_packageName : PackageReleaseData -> string;
  defaultInitialVersion : PackageReleaseData -> string;
  getOpenPROptions :
    PackageReleaseData -> option LatestTag -> option OpenPROptions;
  releaseResponse :
    Release -> value -> string -> nat -> option GitHubReleaseResponse
}.

(** ** Effects *)

(** What a run does to the outside: checkpoints (log lines) and the calls
    that change the remote host. *)
Inductive Event :=
  | Checkpoint (msg : string) (type : CheckpointType)
  | OpenPR (branch title body : string) (updates : list Update)
      (labels : list string)
  | AddLabels (labels : list string) (number : nat)
  | RemoveLabels (labels : list string) (number : nat)
  | CommentOnIssue (comment : string) (number : nat)
  | CreateRelease (pkgPath : string) (version : value) (number : nat).

Definition is_mutation (e : Event) : bool :=
  match e with
  | Checkpoint _ _ => false
  | _ => true
  end.

(** The fields of a [Manifest] instance that change during a run, and the
    trace of its effects. *)
Record State := {
  configFile : option Config;
  headManifest : value;
  trace : list Event
}.

Definition initial : State :=
  {| configFile := None; headManifest := None; trace := [] |}.

(** A state monad with exceptions. *)
Definition M (A : Type) := State -> Result A * State.

Definition ret {A} (a : A) : M A := fun s => (Ok a, s).

Definition throw {A} (e : Exn) : M A := fun s => (Throw e, s).

Definition bind {A B} (m : M A) (f : A -> M B) : M B :=
  fun s =>
    match m s with
    | (Ok a, s') => f a s'
    | (Throw e, s') => (Throw e, s')
    end.

Definition try_catch {A} (m : M A) (handler : Exn -> M A) : M A :=
  fun s =>
    match m s with
    | (Ok a, s') => (Ok a, s')
    | (Throw e, s') => handler e s'
    end.

Definition lift {A} (r : Result A) : M A := fun s => (r, s).

Definition emit (e : Event) : M unit :=
  fun s =>
    (Ok tt,
     {| configFile := configFile s; headManifest := headManifest s;
        trace := trace s ++ [e] |}).

Definition checkpoint (msg : string) (type : CheckpointType) : M unit :=
  emit (Checkpoint msg type).

(** An awaited call that changes the remote host: the call is made, and a
    rejection is thrown where the call is awaited. *)
Definition call {A} (e : Event) (answer : Result A) : M A :=
  bind (emit e) (fun _ => lift answer).

Definition get_state : M State := fun s => (Ok s, s).

Definition set_configFile (c : Config) : M unit :=
  fun s =>
    (Ok tt,
     {| configFile := Some c; headManifest := headManifest s;
        trace := trace s |}).

Definition set_headManifest (v : value) : M unit :=
  fun s =>
    (Ok tt,
     {| configFile := configFile s; headManifest := v; trace := trace s |}).

Declare Scope manifest_scope.
Delimit Scope manifest_scope with manifest.
Notation "x <- m ;; k" := (bind m (fun x => k))
  (at level 61, m at next level, right associativity) : manifest_scope.
Notation "m ;;; k" := (bind m (fun _ => k))
  (at level 61, right associativity) : manifest_scope.
Local Open Scope manifest_scope.

Fixpoint foldM {A B} (f : B -> A -> M B) (l : list A) (b : B) : M B :=
  match l with
  | [] => ret b
  | x :: l' => b' <- f b x ;; foldM f l' b'
  end.

(** ** Property reads on parsed JSON *)

(** [v[key]]: a [TypeError] on [null] and [undefined]; the keys read by the
    code are own properties of objects only. *)
Definition prop (v : value) (key : string) : Result value :=
  match v with
  | None => Throw (TypeError "Cannot read property of undefined")
  | Some JNull => Throw (TypeError "Cannot read property of null")
  | Some (JObj entries) => Ok (JsMap.get entries key)
  | Some _ => Ok None
  end.

Fixpoint indexed (i : nat) (l : list json) : list (string * json) :=
  match l with
  | [] => []
  | x :: l' => (Semver.show i, x) :: indexed (S i) l'
  end.

Fixpoint chars (s : string) : list json :=
  match s with
  | EmptyString => []
  | String c s' => JStr (String c EmptyString) :: chars s'
  end.

(** The enumerable own entries of a value, as [for ... in], [Object.keys]
    and the spread see them. *)
Definition own_entries (v : json) : list (string * json) :=
  match v with
  | JObj entries => entries
  | JArr items => indexed 0 items
  | JStr s => indexed 0 (chars s)
  | _ => []
  end.

(** [Object.entries(v)]: a [TypeError] on [null]. *)
Definition Object_entries (v : json) : Result (list (string * json)) :=
  match v with
  | JNull => Throw (TypeError "Cannot convert undefined or null to object")
  | _ => Ok (own_entries v)
  end.

(** [obj.constructor.name === 'Object'] for an object with the given own
    entries: an own [constructor] entry shadows the inherited one. *)
Definition constructor_is_Object (own : list (string * json)) : Result bool :=
  match JsMap.get own "constructor" with
  | None => Ok true
  | Some c =>
      match prop (Some c) "name" with
      | Throw e => Throw e
      | Ok (Some (JStr n)) => Ok (String.eqb n "Object")
      | Ok _ => Ok false
      end
  end.

Definition value_constructor_is_Object (v : value) : Result bool :=
  match v with
  | None => Throw (TypeError "Cannot read property 'constructor' of undefined")
  | Some JNull => Throw (TypeError "Cannot read property 'constructor' of null")
  | Some (JObj entries) => constructor_is_Object entries
  | Some _ => Ok false
  end.

Section Run.

Variable env : Env.

(** ** Reading the configuration and the manifest *)

(** [getFileJson(fileName, sha?)]: a failed fetch at a given [sha] is
    swallowed ([undefined]); at the tip it is thrown again.  [JSON.parse] is
    outside the [try]. *)
Definition getFileJson (fileName : string) (sha : option string) : M value :=
  content <-
    try_catch
      (c <- lift (if truthy sha
                  then getFileContentsWithSimpleAPI env fileName
                         (match sha with Some s => s | None => "" end)
                  else getFileContents env fileName) ;;
       ret (Some c))
      (fun e =>
         checkpoint
           ("Failed to get " ++ fileName ++ " at "
            ++ match sha with Some s => s | None => "HEAD" end ++ ": "
            ++ match status e with
               | Some n => Semver.show n
               | None => "undefined"
               end)
           Failure ;;;
         match sha with
         | None => throw e
         | Some _ => ret None
         end) ;;
  match content with
  | None => ret None
  | Some c =>
      match JSON_parse env c with
      | Some j => ret (Some j)
      | None => throw (SyntaxError "Unexpected token in JSON")
      end
  end.

(** [getManifestJson(sha?)]: the manifest at the tip is cached. *)
Definition getManifestJson (sha : option string) : M value :=
  match sha with
  | None =>
      s <- get_state ;;
      (if negb (truthy_value (headManifest s)) then
         m <- getFileJson (manifestFileName env) None ;;
         set_headManifest m
       else ret tt) ;;;
      s' <- get_state ;;
      ret (headManifest s')
  | Some sha' => getFileJson (manifestFileName env) (Some sha')
  end.

(** The first argument of [getManifestVersions]. *)
Inductive ShaArg :=
  | ShaUndefined
  | ShaFalse (newPaths : list string)
  | ShaString (sha : string).

Definition bootstrapMsg : string :=
  "Bootstrapping from " ++ manifestFileName env ++ " at tip of "
  ++ getDefaultBranch env.

(** [new Map(Object.entries(manifestJson))] *)
Definition parseVersions (manifestJson : value) : M VersionsMap :=
  match manifestJson with
  | None => throw (TypeError "Cannot convert undefined or null to object")
  | Some j =>
      entries <- lift (Object_entries j) ;;
      ret (JsMap.of_entries entries)
  end.

(** [getManifestVersions(sha?, newPaths?)]: the versions and the place they
    were read at ([atSha]). *)
Definition getManifestVersions (sha : ShaArg) : M (VersionsMap * string) :=
  (match sha with
   | ShaUndefined => checkpoint bootstrapMsg Failure
   | ShaFalse newPaths =>
       checkpoint
         (bootstrapMsg ++ " for missing paths ["
          ++ String.concat ", " newPaths ++ "]")
         Failure
   | ShaString _ => ret tt
   end) ;;;
  r <-
    match sha with
    | ShaString s =>
        if String.eqb s "" then
          m <- getManifestJson None ;; ret (m, "tip")
        else
          maybeManifestJson <- getManifestJson (Some s) ;;
          match maybeManifestJson with
          | None =>
              checkpoint bootstrapMsg Failure ;;;
              m <- getManifestJson None ;; ret (m, "tip")
          | Some j => ret (Some j, s)
          end
    | _ => m <- getManifestJson None ;; ret (m, "tip")
    end ;;
  parsed <- parseVersions (fst r) ;;
  ret (parsed, snd r).

(** [resolveReleaseAs(pkgRA, defaultRA)] *)
Definition resolveReleaseAs (pkgRA defaultRA : value) : value :=
  let releaseAs := if truthy_value defaultRA then defaultRA else None in
  let releaseAs := match pkgRA with Some _ => pkgRA | None => releaseAs end in
  if negb (truthy_value releaseAs) then None else releaseAs.

(** The body of [for (const pkgPath in config.packages)]. *)
Definition parsePackage (config : value) (packages : list Package)
  (entry : string * json) : Result (list Package) :=
  let '(pkgPath, pkgCfg) := entry in
  let get o k := prop o k in
  match get (Some pkgCfg) "release-type", get config "release-type",
        get (Some pkgCfg) "package-name",
        get (Some pkgCfg) "bump-minor-pre-major",
        get config "bump-minor-pre-major",
        get (Some pkgCfg) "changelog-sections",
        get config "changelog-sections",
        get (Some pkgCfg) "changelog-path",
        get (Some pkgCfg) "release-as", get config "release-as",
        get (Some pkgCfg) "release-draft", get config "release-draft"
  with
  | Ok prt, Ok crt, Ok pn, Ok pb, Ok cb, Ok ps, Ok cs, Ok pc, Ok pra, Ok cra,
    Ok pd, Ok cd =>
      Ok (packages
          ++ [{| path := pkgPath;
                 releaseType := nullish (nullish prt crt) (Some (JStr "node"));
                 packageName := pn;
                 bumpMinorPreMajor := nullish pb cb;
                 changelogSections := nullish ps cs;
                 changelogPath := pc;
                 releaseAs := resolveReleaseAs pra cra;
                 releaseDraft := truthy_value (nullish pd cd) |}])
  | _, _, _, _, _, _, _, _, _, _, _, _ =>
      Throw (TypeError "Cannot read property of null")
  end.

Fixpoint parsePackages (config : value) (entries : list (string * json))
  (packages : list Package) : Result (list Package) :=
  match entries with
  | [] => Ok packages
  | entry :: entries' =>
      match parsePackage config packages entry with
      | Ok packages' => parsePackages config entries' packages'
      | Throw e => Throw e
      end
  end.

(** [getConfigJson()]: parsed once, then cached.  The document's own entries
    are kept in [config_json]; [parsedPackages] is the computed list. *)
Definition getConfigJson : M Config :=
  s <- get_state ;;
  match configFile s with
  | Some c => ret c
  | None =>
      config <- getFileJson (configFileName env) None ;;
      pkgs <- lift (prop config "packages") ;;
      packages <-
        lift (parsePackages config
                (match pkgs with Some p => own_entries p | None => [] end) []) ;;
      let c :=
        {| parsedPackages := packages;
           config_json := match config with Some j => j | None => JNull end |} in
      set_configFile c ;;;
      ret c
  end.

(** ** [getPackagesToRelease] *)

Record Candidates := {
  packagesToRelease : JsMap.t PackageReleaseData;
  missingVersionPaths : list string
}.

Definition with_lastVersion (d : PackageReleaseData) (v : value)
  : PackageReleaseData :=
  {| prd_package := prd_package d; commits := commits d; lastVersion := v;
     releaserOptions := releaserOptions d |}.

(** The body of the main pass, [for (const pkg of packages)]. *)
Definition resolvePackage (commitsPerPath : JsMap.t (list Commit))
  (manifestVersions : VersionsMap) (atSha : string)
  (acc : Candidates) (pkg : Package) : M Candidates :=
  match JsMap.get commitsPerPath (path pkg) with
  | None | Some [] => ret acc
  | Some pkgCommits =>
      let lastVersion := JsMap.get manifestVersions (path pkg) in
      missing <-
        (if negb (truthy_value lastVersion) then
           checkpoint
             ("Failed to find version for " ++ path pkg ++ " in "
              ++ manifestFileName env ++ " at " ++ atSha ++ " of "
              ++ getDefaultBranch env)
             Failure ;;;
           ret (missingVersionPaths acc ++ [path pkg])
         else
           checkpoint
             ("Found version " ++ to_string env lastVersion ++ " for "
              ++ path pkg ++ " in " ++ manifestFileName env ++ " at " ++ atSha
              ++ " of " ++ getDefaultBranch env)
             Success ;;;
           ret (missingVersionPaths acc)) ;;
      ret {| packagesToRelease :=
               JsMap.set (packagesToRelease acc) (path pkg)
                 {| prd_package := pkg;
                    commits := pkgCommits;
                    lastVersion := lastVersion;
                    releaserOptions :=
                      {| monorepoTags := true; draft := releaseDraft pkg;
                         rest := pkg |} |};
             missingVersionPaths := missing |}
  end.

(** The body of the fallback pass over the missing paths. *)
Definition resolveMissing (headManifestVersions : VersionsMap)
  (acc : JsMap.t PackageReleaseData) (missingVersionPath : string)
  : M (JsMap.t PackageReleaseData) :=
  let headVersion := JsMap.get headManifestVersions missingVersionPath in
  (match headVersion with
   | None =>
       checkpoint
         ("Failed to find version for " ++ missingVersionPath ++ " in "
          ++ manifestFileName env ++ " at tip of " ++ getDefaultBranch env)
         Failure
   | Some _ => ret tt
   end) ;;;
  match JsMap.get acc missingVersionPath with
  | None => throw (TypeError "Cannot set property 'lastVersion' of undefined")
  | Some d =>
      ret (JsMap.set acc missingVersionPath (with_lastVersion d headVersion))
  end.

Definition sha_arg (sha : option string) : ShaArg :=
  match sha with
  | None => ShaUndefined
  | Some s => ShaString s
  end.

Definition getPackagesToRelease (allCommits : list Commit)
  (sha : option string) : M (list PackageReleaseData) :=
  cfg <- getConfigJson ;;
  let packages := parsedPackages cfg in
  mv <- getManifestVersions (sha_arg sha) ;;
  let commitsPerPath := split env (map path packages) allCommits in
  c <- foldM (resolvePackage commitsPerPath (fst mv) (snd mv)) packages
         {| packagesToRelease := []; missingVersionPaths := [] |} ;;
  released <-
    match missingVersionPaths c with
    | [] => ret (packagesToRelease c)
    | _ =>
        head <- getManifestVersions (ShaFalse (missingVersionPaths c)) ;;
        foldM (resolveMissing (fst head)) (missingVersionPaths c)
          (packagesToRelease c)
    end ;;
  ret (map snd released).

(** ** [validate] *)

Inductive FileMethod := GetConfigJson | GetManifestJson.

Inductive FileObject :=
  | ConfigObject (c : Config)
  | ManifestObject (v : value).

Definition method_name (m : FileMethod) : string :=
  match m with
  | GetConfigJson => "getConfigJson"
  | GetManifestJson => "getManifestJson"
  end.

(** [validateJsonFile]: [Some obj] is [{valid: true, obj}]. *)
Definition validateJsonFile (getFileMethod : FileMethod) (fileName : string)
  : M (option FileObject) :=
  try_catch
    (match getFileMethod with
     | GetConfigJson =>
         obj <- getConfigJson ;;
         isObject <- lift (constructor_is_Object (own_entries (config_json obj))) ;;
         ret (if isObject then Some (ConfigObject obj) else None)
     | GetManifestJson =>
         obj <- getManifestJson None ;;
         isObject <- lift (value_constructor_is_Object obj) ;;
         ret (if isObject then Some (ManifestObject obj) else None)
     end)
    (fun e =>
       checkpoint
         (if isSyntaxError e then "Invalid JSON in " ++ fileName
          else "Unable to " ++ method_name getFileMethod ++ "(" ++ fileName
               ++ "): " ++ message e)
         Failure ;;;
       ret None).

(** [Object.keys(obj.packages ?? {}).length] on the configuration object. *)
Definition packages_count (c : Config) : nat :=
  match JsMap.get (own_entries (config_json c)) "packages" with
  | None | Some JNull => 0
  | Some p => List.length (own_entries p)
  end.

(** [typeof version !== 'string'] for some value of the versions map. *)
Definition has_non_string (versions : VersionsMap) : bool :=
  existsb (fun e => negb (is_string (snd e))) versions.

Definition validate : M bool :=
  configValidation <- validateJsonFile GetConfigJson (configFileName env) ;;
  validConfig <-
    match configValidation with
    | Some (ConfigObject obj) =>
        let validConfig := negb (packages_count obj =? 0)%nat in
        (if negb validConfig then
           checkpoint ("No packages found: " ++ configFileName env) Failure
         else ret tt) ;;;
        ret validConfig
    | _ => ret false
    end ;;
  manifestValidation <- validateJsonFile GetManifestJson (manifestFileName env) ;;
  validManifest <-
    match manifestValidation with
    | Some (ManifestObject (Some obj)) =>
        entries <- lift (Object_entries obj) ;;
        if has_non_string (JsMap.of_entries entries) then
          checkpoint
            (manifestFileName env ++ " must only contain string values")
            Failure ;;;
          ret false
        else ret true
    | _ => ret false
    end ;;
  ret (validConfig && validManifest).

(** ** The pull-request flow *)

Record Releasers := {
  manifestUpdates : VersionsMap;
  openPRPackages : list PackageWithPRData
}.

(** The body of the loop of [runReleasers]. *)
Definition runReleaser (sha : option string) (acc : Releasers)
  (pkg : PackageReleaseData) : M Releasers :=
  let className := releaserClassName env (releaseType (rest (releaserOptions pkg))) in
  let pkgName := getPackageName env pkg in
  checkpoint ("Processing package: " ++ className ++ "(" ++ pkgName ++ ")")
    Success ;;;
  (match lastVersion pkg with
   | None =>
       checkpoint
         ("Falling back to default version for " ++ className ++ "(" ++ pkgName
          ++ "): " ++ defaultInitialVersion env pkg)
         Failure
   | Some _ => ret tt
   end) ;;;
  let latestTag :=
    if truthy_value (lastVersion pkg) then
      Some {| t_name := "v" ++ to_string env (lastVersion pkg);
              t_sha := match sha with Some s => s | None => "beginning of time" end;
              t_version := lastVersion pkg |}
    else None in
  match getOpenPROptions env pkg latestTag with
  | Some options =>
      ret {| manifestUpdates :=
               JsMap.set (manifestUpdates acc) (path (prd_package pkg))
                 (JStr (o_version options));
             openPRPackages :=
               openPRPackages acc
               ++ [{| pwd_name := releasePR_packageName env pkg;
                      openPROptions := options |}] |}
  | None => ret acc
  end.

Definition runReleasers (packages : list PackageReleaseData)
  (sha : option string) : M Releasers :=
  foldM (runReleaser sha) packages
    {| manifestUpdates := []; openPRPackages := [] |}.

Definition newline : string := String "010"%char EmptyString.

(** [text] between double quotes. *)
Definition quoted (text : string) : string :=
  (String "034"%char text ++ String "034"%char EmptyString)%string.

Definition buildManifestPR (updatesMap : VersionsMap)
  (prPackages : list PackageWithPRData) : M (string * list Update) :=
  let body :=
    fold_left
      (fun body p =>
         (body ++ newline ++ newline ++ "---" ++ newline ++ pwd_name p ++ ": "
          ++ o_version (openPROptions p) ++ newline
          ++ o_changelogEntry (openPROptions p))%string)
      prPackages ":robot: I have created a release \*beep\* \*boop\*" in
  let updates :=
    fold_left (fun updates p => updates ++ o_updates (openPROptions p))
      prPackages [] in
  manifest <- getManifestJson None ;;
  ret ((body ++ newline ++ newline
        ++ "This PR was generated with [Release Please]"
        ++ "(https://github.com/googleapis/release-please). See [documentation]"
        ++ "(https://github.com/googleapis/release-please#release-please).")%string,
       updates
       ++ [ReleasePleaseManifest (manifestFileName env) updatesMap
             (JSON_stringify_base64 env manifest)]).

Definition commitsSinceSha' (sha : option string) : M (list Commit) :=
  match sha with
  | Some s => ret (commitsSinceSha env (Some (JStr s)))
  | None =>
      cfg <- getConfigJson ;;
      ret (commitsSinceSha env
             (JsMap.get (own_entries (config_json cfg)) "bootstrap-sha"))
  end.

(** [pullRequest] from [this.gh.openPR] on: the pull request is opened and,
    when the host answers with a number that is truthy, labeled. *)
Definition openPullRequest (branchName body : string) (updates : list Update)
  : M (option nat) :=
  pr <- call (OpenPR branchName "chore: release" body updates
                (DEFAULT_LABELS env))
          (openPR_answer env branchName body updates) ;;
  match pr with
  | Some (S n) =>
      call (AddLabels (DEFAULT_LABELS env) (S n))
        (addLabels_answer env (DEFAULT_LABELS env) (S n)) ;;;
      ret pr
  | _ => ret pr
  end.

Definition pullRequest : M (option nat) :=
  valid <- validate ;;
  if negb valid then ret None
  else
    let branchName := branchNameOf env (getDefaultBranch env) in
    let lastMergedPR := lastMergedPRByHeadBranch env branchName in
    let sha := option_map pr_sha lastMergedPR in
    allCommits <- commitsSinceSha' sha ;;
    packages <- getPackagesToRelease allCommits sha ;;
    r <- runReleasers packages sha ;;
    match openPRPackages r with
    | [] =>
        checkpoint "No user facing changes to release" Success ;;;
        ret None
    | _ =>
        bu <- buildManifestPR (manifestUpdates r) (openPRPackages r) ;;
        openPullRequest branchName (fst bu) (snd bu)
    end.

(** ** The release-creation flow *)

Record Releases := {
  releases : JsMap.t (option GitHubReleaseResponse);
  allReleasesCreated : bool
}.

(** [err.status === 422 && err.errors?.length] *)
Definition is_validation_failure (err : Exn) : bool :=
  match status err, errors err with
  | Some n, Some (_ :: _) => (n =? 422)%nat
  | _, _ => false
  end.

(** [err.errors[0].code === 'already_exists' &&
    err.errors[0].field === 'tag_name'] *)
Definition first_is_duplicate_tag (err : Exn) : bool :=
  match errors err with
  | Some (e :: _) =>
      String.eqb (code e) "already_exists" && String.eqb (field e) "tag_name"
  | _ => false
  end.

(** [await this.gh.commentOnIssue(comment, number)] *)
Definition commentOnIssue (comment : string) (number : nat) : M unit :=
  call (CommentOnIssue comment number) (commentOnIssue_answer env comment number).

(** The body of [for (const pkg of packages)] in [githubRelease]. *)
Definition releasePackage (lastMergedPR : MergedPR) (acc : Releases)
  (pkg : PackageReleaseData) : M Releases :=
  let pkgPath := path (prd_package pkg) in
  let pkgName := getPackageName env pkg in
  let pkgLogDisp :=
    (releaserClassName env (releaseType (rest (releaserOptions pkg)))
     ++ "(" ++ pkgName ++ ")")%string in
  let skipped flag :=
    {| releases := JsMap.set (releases acc) pkgPath None;
       allReleasesCreated := flag |} in
  if negb (truthy_value (lastVersion pkg)) then
    checkpoint ("Unable to find last version for " ++ pkgLogDisp ++ ".")
      Failure ;;;
    ret (skipped (allReleasesCreated acc))
  else
    checkpoint
      ("Creating release for " ++ pkgLogDisp ++ "@"
       ++ to_string env (lastVersion pkg))
      Success ;;;
    emit (CreateRelease pkgPath (lastVersion pkg) (pr_number lastMergedPR)) ;;;
    match createRelease_answer env pkg (lastVersion pkg) lastMergedPR with
    | Throw err =>
        if is_validation_failure err then
          (if first_is_duplicate_tag err then
             checkpoint
               ("Release for " ++ pkgLogDisp ++ "@"
                ++ to_string env (lastVersion pkg) ++ " already exists")
               Success
           else ret tt) ;;;
          ret (skipped (allReleasesCreated acc))
        else
          commentOnIssue
            (":robot: Failed to create release for " ++ pkgName ++ " :cloud:")
            (pr_number lastMergedPR) ;;;
          checkpoint
            ("Failed to create release for " ++ pkgLogDisp ++ "@"
             ++ to_string env (lastVersion pkg) ++ ": " ++ message err)
            Failure ;;;
          ret (skipped false)
    | Ok (Some release) =>
        commentOnIssue
          (":robot: Release for " ++ pkgName ++ " is at " ++ html_url release
           ++ " :sunflower:")
          (pr_number lastMergedPR) ;;;
        ret {| releases :=
                 JsMap.set (releases acc) pkgPath
                   (releaseResponse env release (lastVersion pkg)
                      (pr_sha lastMergedPR) (pr_number lastMergedPR));
               allReleasesCreated := allReleasesCreated acc |}
    | Ok None => ret acc
    end.

Definition has_pending_label (labels : list string) : bool :=
  match DEFAULT_LABELS env with
  | [] => false
  | pending :: _ => mem pending labels
  end.

(** The two label calls that follow the loop when the flag is still set. *)
Definition relabelPR (lastMergedPR : MergedPR) : M unit :=
  call (AddLabels [GITHUB_RELEASE_LABEL env] (pr_number lastMergedPR))
    (addLabels_answer env [GITHUB_RELEASE_LABEL env] (pr_number lastMergedPR)) ;;;
  call (RemoveLabels (DEFAULT_LABELS env) (pr_number lastMergedPR))
    (removeLabels_answer env (DEFAULT_LABELS env) (pr_number lastMergedPR)).

(** [githubRelease] from the loop on: the record and the flag, the loop, the
    label calls and the result. *)
Definition createReleases (lastMergedPR : MergedPR)
  (packages : list PackageReleaseData)
  : M (option (JsMap.t (option GitHubReleaseResponse))) :=
  r <- foldM (releasePackage lastMergedPR) packages
         {| releases := [];
            allReleasesCreated := negb (List.length packages =? 0)%nat |} ;;
  (if allReleasesCreated r then relabelPR lastMergedPR else ret tt) ;;;
  ret (Some (releases r)).

Definition githubRelease : M (option (JsMap.t (option GitHubReleaseResponse))) :=
  valid <- validate ;;
  if negb valid then ret None
  else
    let branchName := branchNameOf env (getDefaultBranch env) in
    match lastMergedPRByHeadBranch env branchName with
    | None =>
        checkpoint "Unable to find last merged Manifest PR for tagging"
          Failure ;;;
        ret None
    | Some lastMergedPR =>
        if mem (GITHUB_RELEASE_LABEL env) (pr_labels lastMergedPR) then
          checkpoint "Releases already created for last merged release PR"
            Success ;;;
          ret None
        else if negb (has_pending_label (pr_labels lastMergedPR)) then
          checkpoint
            ("Warning: last merged PR(#" ++ Semver.show (pr_number lastMergedPR)
             ++ ") is missing label " ++ quoted (hd "undefined" (DEFAULT_LABELS env))
             ++ " but has not yet been labeled "
             ++ quoted (GITHUB_RELEASE_LABEL env)
             ++ ". If PR(#" ++ Semver.show (pr_number lastMergedPR)
             ++ ") is meant to be a release PR, please apply the label "
             ++ quoted (hd "undefined" (DEFAULT_LABELS env)) ++ ".")
            Failure ;;;
          ret None
        else
          packages <-
            getPackagesToRelease
              [{| c_sha := pr_sha lastMergedPR; c_message := "";
                  c_files := pr_files lastMergedPR |}]
              (Some (pr_sha lastMergedPR)) ;;
          createReleases lastMergedPR packages
    end.

End Run.
End Manifest.

(* ================================================================== *)
(** * The dependency graph *)
(* ================================================================== *)

Module Graph.
Import Lerna.

(** [b] has a local dependency edge to [a]. *)
Definition depends_on (G : PackageGraph) (b a : string) : Prop :=
  exists n, In n G /\ node_name n = b /\ JsMap.has (localDependencies n) a = true.

(** [b] depends on [a] through one or more local edges. *)
Inductive depends_trans (G : PackageGraph) : string -> string -> Prop :=
  | dt_step b a : depends_on G b a -> depends_trans G b a
  | dt_more b m a :
      depends_on G b m -> depends_trans G m a -> depends_trans G b a.

(** No package depends on itself, directly or through others. *)
Definition acyclic (G : PackageGraph) : Prop :=
  forall x, ~ depends_trans G x x.

(** A ranking that every local edge decreases witnesses acyclicity. *)
Definition ranked (G : PackageGraph) (rank : string -> nat) : bool :=
  forallb
    (fun n =>
       forallb (fun d => rank d <? rank (node_name n))%nat
         (JsMap.keys (localDependencies n)))
    G.

(** What the [PackageGraph] constructor guarantees: the graph is keyed by
    name, every local edge is keyed by the name its [npa.Result] carries and
    points to a node of the graph, and the specifier it was resolved from is
    recorded in one of the package's dependency collections. *)
Definition wf_node (G : PackageGraph) (n : PackageGraphNode) : bool :=
  forallb
    (fun e =>
       String.eqb (r_name (snd e)) (fst e)
       && mem (fst e) (map node_name G)
       && truthy (dep_spec (node_pkg n) (fst e)))
    (localDependencies n)
  && Nat.eqb (List.length (nodup string_dec (JsMap.keys (localDependencies n))))
       (List.length (localDependencies n)).

Definition wf_graph (G : PackageGraph) : bool :=
  forallb (wf_node G) G
  && Nat.eqb (List.length (nodup string_dec (map node_name G))) (List.length G).

(** The packages of a workspace live at distinct paths. *)
Definition distinct_locations (G : PackageGraph) : bool :=
  Nat.eqb (List.length (nodup string_dec (map node_location G))) (List.length G).

End Graph.

(* ================================================================== *)
(** * The walk of [collectDependents], one node at a time *)
(* ================================================================== *)

Module Walk.
Import Lerna Graph.

(** One turn of the inner [for] loop: the dependents of a dequeued node are
    visited in order. *)
Definition round (currentNode : PackageGraphNode) (siblings : list PackageGraphNode)
  (ds : list PackageGraphNode) (st : BfsState) : BfsState :=
  fold_left (visit currentNode siblings) ds st.

(** The body of the outer [forEach]: the walk that starts at [currentNode],
    skipped when the node has no dependent. *)
Definition step (G : PackageGraph) (coll : list string)
  (currentNode : PackageGraphNode) : list string :=
  match localDependents G currentNode with
  | [] => coll
  | _ =>
      collected
        (bfs G (S (List.length G)) currentNode
           {| queue := [currentNode]; seen := []; collected := coll |})
  end.

(** [x] is the node the walk started at, or depends on it. *)
Definition reaches (G : PackageGraph) (c : PackageGraphNode) (x : string) : Prop :=
  x = node_name c \/ depends_trans G x (node_name c).

(** Whatever is queued or collected depends on the node the walk started
    at. *)
Definition walk_sound (G : PackageGraph) (c : PackageGraphNode)
  (coll0 : list string) (st : BfsState) : Prop :=
  (forall n, In n (queue st) -> reaches G c (node_name n)) /\
  (forall x, In x (collected st) ->
     In x coll0 \/ depends_trans G x (node_name c)).

(** The state of a walk in an acyclic graph: what was seen is collected, and
    the dependents of a seen node are seen as soon as the node has left the
    queue. *)
Record walk_inv (G : PackageGraph) (c : PackageGraphNode) (st : BfsState)
  : Prop := {
  inv_nodup : NoDup (seen st);
  inv_seen : incl (seen st) (map node_name G);
  inv_queue : forall n, In n (queue st) -> reaches G c (node_name n);
  inv_collected : forall x, In x (seen st) -> In x (collected st);
  inv_closed :
    forall x, In x (seen st) ->
      (exists n, In n (queue st) /\ node_name n = x) \/
      (forall d, depends_on G d x -> In d (seen st));
  inv_start :
    (exists n, In n (queue st) /\ node_name n = node_name c) \/
    (forall d, depends_on G d (node_name c) -> In d (seen st))
}.

End Walk.

(* ================================================================== *)
(** * What the propagation pass computes *)
(* ================================================================== *)

Module Propagation.
Import Lerna NodeWorkspace.

(** The entry of [depName] in each of the three collections. *)
Definition specs (p : Package) (depName : string)
  : option (option string) * option (option string) * option (option string) :=
  (option_map (fun d => JsMap.get d depName) (pj_dependencies (pkg_json p)),
   option_map (fun d => JsMap.get d depName) (pj_optionalDependencies (pkg_json p)),
   option_map (fun d => JsMap.get d depName) (pj_devDependencies (pkg_json p))).

Section Versions.
Variable semver_inc_patch : option string -> option string.

(** The version the plugin computes for a node of the update set: the one
    its releaser assigned when it was directly updated, a patch increment
    otherwise; [None] when the increment is [null]. *)
Definition new_version (rpUpdatedPkgs : PathPkgJson) (n : PackageGraphNode)
  : option (option string) :=
  if isCandidate rpUpdatedPkgs n then Some (node_version n)
  else
    match semver_inc_patch (node_version n) with
    | Some patch => Some (Some patch)
    | None => None
    end.

End Versions.
End Propagation.

(* ================================================================== *)
(** * The effects of the manifest *)
(* ================================================================== *)

Module Effects.
Import Manifest.
Local Open Scope manifest_scope.

(** [silent P m]: running [m] adds no event that satisfies [P]. *)
Definition silent {A} (P : Event -> bool) (m : M A) : Prop :=
  forall s, filter P (trace (snd (m s))) = filter P (trace s).

(** [keeps_head m]: running [m] leaves the cached tip manifest alone. *)
Definition keeps_head {A} (m : M A) : Prop :=
  forall s, headManifest (snd (m s)) = headManifest s.

(** [total m]: [m] never throws. *)
Definition total {A} (m : M A) : Prop :=
  forall s, exists a, fst (m s) = Ok a.

Definition is_label (e : Event) : bool :=
  match e with
  | AddLabels _ _ | RemoveLabels _ _ => true
  | _ => false
  end.

Definition is_comment (e : Event) : bool :=
  match e with
  | CommentOnIssue _ _ => true
  | _ => false
  end.

(** Running [m] leaves a cached tip manifest [j] in place. *)
Definition cached (j : json) {A} (m : M A) : Prop :=
  forall s, headManifest s = Some j -> headManifest (snd (m s)) = Some j.

(** Every path recorded as missing has an entry, and entries are filed under
    the path of their package. *)
Definition candidates_ok (c : Candidates) : Prop :=
  (forall p, In p (missingVersionPaths c) ->
     exists d, JsMap.get (packagesToRelease c) p = Some d) /\
  (forall p d, JsMap.get (packagesToRelease c) p = Some d ->
     path (prd_package d) = p).

Definition resolved (mv : VersionsMap) (acc : Candidates) (pkg : Package)
  (pkgCommits : list Commit) : Candidates :=
  {| packagesToRelease :=
       JsMap.set (packagesToRelease acc) (path pkg)
         {| prd_package := pkg; commits := pkgCommits;
            lastVersion := JsMap.get mv (path pkg);
            releaserOptions :=
              {| monorepoTags := true; draft := releaseDraft pkg;
                 rest := pkg |} |};
     missingVersionPaths :=
       if truthy_value (JsMap.get mv (path pkg)) then missingVersionPaths acc
       else missingVersionPaths acc ++ [path pkg] |}.

(** In the words of the spec, "the target tag already exists (a specific
    conflict code + field)": a 422 with an error entry whose code is
    already_exists on the field tag_name. *)
Definition tag_exists (err : Exn) : bool :=
  match status err, errors err with
  | Some n, Some entries =>
      (n =? 422)%nat
      && existsb
           (fun e =>
              String.eqb (code e) "already_exists"
              && String.eqb (field e) "tag_name")
           entries
  | _, _ => false
  end.

Section Loop.
Variable env : Env.

(** In the words of the spec, the candidate "fell into the generic-failure
    branch": its release is attempted and fails, and the failure is "any
    other failure" than the tag that exists already. *)
Definition other_failure (pr : MergedPR) (pkg : PackageReleaseData) : bool :=
  truthy_value (lastVersion pkg)
  && match createRelease_answer env pkg (lastVersion pkg) pr with
     | Throw err => negb (tag_exists err)
     | Ok _ => false
     end.

(** In the words of the spec, the candidate "produced a release": the
    release was created, or its tag exists already, which is "treated as
    already succeeded". *)
Definition produced_release (pr : MergedPR) (pkg : PackageReleaseData) : bool :=
  truthy_value (lastVersion pkg)
  && match createRelease_answer env pkg (lastVersion pkg) pr with
     | Ok (Some _) => true
     | Ok None => false
     | Throw err => tag_exists err
     end.

(** In the words of the spec with the candidate list required not to be
    empty: there is a candidate, and none fell into the generic-failure
    branch. *)
Definition batch_complete (pr : MergedPR) (packages : list PackageReleaseData)
  : bool :=
  negb (List.length packages =? 0)%nat
  && forallb (fun pkg => negb (other_failure pr pkg)) packages.

(** The branch of the code that clears the flag, the [else] of the [catch]:
    the release of the candidate is attempted and [createRelease] throws an
    error that is not a 422 with a non-empty list of errors. *)
Definition generic_failure (pr : MergedPR) (pkg : PackageReleaseData) : bool :=
  truthy_value (lastVersion pkg)
  && match createRelease_answer env pkg (lastVersion pkg) pr with
     | Throw err => negb (is_validation_failure err)
     | Ok _ => false
     end.

Definition failure_comment (pr : MergedPR) (pkg : PackageReleaseData) : Event :=
  CommentOnIssue
    (":robot: Failed to create release for " ++ getPackageName env pkg
     ++ " :cloud:")
    (pr_number pr).

(** The label events of a run that reaches the loop. *)
Definition relabel (pr : MergedPR) : list Event :=
  [ AddLabels [GITHUB_RELEASE_LABEL env] (pr_number pr);
    RemoveLabels (DEFAULT_LABELS env) (pr_number pr) ].

End Loop.
End Effects.

(* ================================================================== *)
(** * Example workspaces for the propagation pass *)
(* ================================================================== *)

Module Scenarios.
Import Lerna Graph NodeWorkspace Examples.

Definition nodeA : PackageGraphNode :=
  {| node_pkg := pkgA; localDependencies := [] |}.
Definition nodeB : PackageGraphNode :=
  {| node_pkg := pkgB;
     localDependencies := [("@here/pkgA", range_to "@here/pkgA")] |}.
Definition nodeC : PackageGraphNode :=
  {| node_pkg := pkgC;
     localDependencies := [("@here/pkgB", range_to "@here/pkgB")] |}.

Definition rank (name : string) : nat :=
  if String.eqb name "@here/pkgA" then 0
  else if String.eqb name "@here/pkgB" then 1
  else 2.

(** pkgA was updated; pkgX lives in the same workspace and depends on
    nothing local. *)
Definition pkgX : Package :=
  mkPackage "@here/pkgX" "7.0.0" "packages/pkgX/package.json"
    [("@there/foo", "^4.1.7")].
Definition nodeX : PackageGraphNode :=
  {| node_pkg := pkgX; localDependencies := [] |}.
Definition discontiguous : PackageGraph := [nodeA; nodeB; nodeX].

(** pkgB has a version that is no semantic version; pkgS is a sound sibling
    that depends on pkgA too, pkgD refers to pkgB by path and depends on
    pkgA. *)
Definition pkgBad : Package :=
  mkPackage "@here/pkgB" "not-a-version" "packages/pkgB/package.json"
    [("@here/pkgA", "^1.1.1")].
Definition pkgS : Package :=
  mkPackage "@here/pkgS" "3.3.3" "packages/pkgS/package.json"
    [("@here/pkgA", "^1.1.1")].
Definition pkgD : Package :=
  mkPackage "@here/pkgD" "4.0.0" "packages/pkgD/package.json"
    [("@here/pkgB", "file:../pkgB"); ("@here/pkgA", "^1.0.0")].
Definition nodeBad : PackageGraphNode :=
  {| node_pkg := pkgBad;
     localDependencies := [("@here/pkgA", range_to "@here/pkgA")] |}.
Definition nodeS : PackageGraphNode :=
  {| node_pkg := pkgS;
     localDependencies := [("@here/pkgA", range_to "@here/pkgA")] |}.
Definition nodeD : PackageGraphNode :=
  {| node_pkg := pkgD;
     localDependencies :=
       [("@here/pkgB", directory_to "@here/pkgB");
        ("@here/pkgA", range_to "@here/pkgA")] |}.
Definition withInvalid : PackageGraph := [nodeA; nodeBad; nodeS; nodeD].

(** pkgL refers to pkgA by path and to pkgS by range. *)
Definition pkgL : Package :=
  mkPackage "@here/pkgL" "5.5.5" "packages/pkgL/package.json"
    [("@here/pkgA", "file:../pkgA"); ("@here/pkgS", "^3.3.3")].
Definition nodeL : PackageGraphNode :=
  {| node_pkg := pkgL;
     localDependencies :=
       [("@here/pkgA", directory_to "@here/pkgA");
        ("@here/pkgS", range_to "@here/pkgS")] |}.
Definition withPathReference : PackageGraph := [nodeA; nodeS; nodeL].

Definition propagate (G : PackageGraph) : option (JsMap.t Package) :=
  runLernaVersion Semver.inc_patch no_hosted in_order chainUpdated G.

End Scenarios.

Module Triangle.
Import Lerna NodeWorkspace Examples.

(** pkgA and pkgB were both updated by their releasers; pkgB depends on pkgA
    and its pending package.json still asks for ^1.1.1. *)
Definition pkgB_releaser : Package :=
  mkPackage "@here/pkgB" "2.3.0" "packages/pkgB/package.json"
    [("@here/pkgA", "^1.1.1"); ("someExternal", "^9.2.3")].

Definition graph : PackageGraph :=
  [ {| node_pkg := pkgA; localDependencies := [] |};
    {| node_pkg := pkgB_releaser;
       localDependencies := [("@here/pkgA", range_to "@here/pkgA")] |} ].

Definition updatedByReleasers : PathPkgJson :=
  [ ("packages/pkgA/package.json", pkg_json pkgA);
    ("packages/pkgB/package.json", pkg_json pkgB_releaser) ].

Definition pendingOf (dir : string) (p : Package) : ManifestPackageWithPRData :=
  {| config := {| path := dir; releaseType := "node"; packageName := None |};
     prData :=
       {| prVersion := pkg_version p;
          changes :=
            [(pkg_location p,
              {| content := Some (stringify (pkg_json p)); mode := "100644" |})] |} |}.

Definition pendingPRData : list ManifestPackageWithPRData :=
  [ pendingOf "packages/pkgA" pkgA; pendingOf "packages/pkgB" pkgB_releaser ].

Definition configured : list ManifestPackage :=
  [ {| path := "packages/pkgA"; releaseType := "node"; packageName := None |};
    {| path := "packages/pkgB"; releaseType := "node"; packageName := None |} ].

Definition propagated : JsMap.t Package :=
  match runLernaVersion Semver.inc_patch no_hosted in_order updatedByReleasers graph with
  | Some updated => updated
  | None => []
  end.

Definition merged : MergeState :=
  updatePkgsWithPRData stringify pendingPRData
    [("packages/pkgA", Some "1.1.2"); ("packages/pkgB", Some "2.3.0")]
    propagated configured.

Definition pendingContent (dir file : string) : option string :=
  match find (fun p => String.eqb (path (config p)) dir) (pkgsWithPRData merged) with
  | Some p =>
      match JsMap.get (changes (prData p)) file with
      | Some fd => content fd
      | None => None
      end
  | None => None
  end.

End Triangle.

(* ================================================================== *)
(** * Concrete hosts *)
(* ================================================================== *)

Module Hosts.
Import Manifest.

(** Modelled from the spec: the commit splitter ([CommitSplit], in
    ./commit-split) is not among the core files.  "A commit belongs to a
    package if any touched file path lies under that package's root path; a
    commit may be attributed to multiple packages if it touches multiple
    roots."  A path without an attributed commit has no entry. *)
Definition touches (pkgPath : string) (c : Commit) : bool :=
  existsb (String.prefix (pkgPath ++ "/")) (c_files c).

Definition attribute (packagePaths : list string) (allCommits : list Commit)
  : JsMap.t (list Commit) :=
  fold_left
    (fun m p =>
       match filter (touches p) allCommits with
       | [] => m
       | cs => JsMap.set m p cs
       end)
    packagePaths [].

Definition notFound : Exn :=
  {| status := Some 404; errors := None; message := "Not Found";
     isSyntaxError := false |}.

(** A host that serves a configuration document, a manifest at the tip, a
    manifest at the last release (or none), one merged pull request (or
    none), and answers [createRelease] as told. *)
Definition host (configDoc tipManifest : json) (manifestAtSha : option json)
  (lastPR : option MergedPR)
  (answer : PackageReleaseData -> Result (option Release)) : Env :=
  {| configFileName := "release-please-config.json";
     manifestFileName := ".release-please-manifest.json";
     DEFAULT_LABELS := ["autorelease: pending"];
     GITHUB_RELEASE_LABEL := "autorelease: tagged";
     getFileContents :=
       fun f =>
         if String.eqb f "release-please-config.json" then Ok "config"
         else if String.eqb f ".release-please-manifest.json" then Ok "tip"
         else Throw notFound;
     getFileContentsWithSimpleAPI :=
       fun f sha =>
         if String.eqb f ".release-please-manifest.json" then
           match manifestAtSha with
           | Some _ => Ok "at-sha"
           | None => Throw notFound
           end
         else Throw notFound;
     getDefaultBranch := "main";
     lastMergedPRByHeadBranch := fun _ => lastPR;
     commitsSinceSha := fun _ => [];
     openPR_answer := fun _ _ _ => Ok (Some 1);
     addLabels_answer := fun _ _ => Ok tt;
     removeLabels_answer := fun _ _ => Ok tt;
     commentOnIssue_answer := fun _ _ => Ok tt;
     createRelease_answer := fun pkg _ _ => answer pkg;
     JSON_parse :=
       fun c =>
         if String.eqb c "config" then Some configDoc
         else if String.eqb c "tip" then Some tipManifest
         else if String.eqb c "at-sha" then manifestAtSha
         else None;
     JSON_stringify_base64 := fun _ => "";
     branchNameOf := fun b => ("release-please/branches/" ++ b)%string;
     split := attribute;
     to_string := fun v => match v with Some (JStr s) => s | _ => "" end;
     releaserClassName := fun _ => "Node";
     getPackageName := fun d => path (prd_package d);
     releasePR_packageName := fun d => path (prd_package d);
     defaultInitialVersion := fun _ => "1.0.0";
     getOpenPROptions := fun _ _ => None;
     releaseResponse :=
       fun release version sha number =>
         Some {| rr_release := release; rr_version := version; rr_sha := sha;
                 rr_number := number |} |}.

Definition twoPackages : json :=
  JObj [("packages", JObj [("packages/a", JObj []); ("packages/b", JObj [])])].

Definition bothReleased : json :=
  JObj [("packages/a", JStr "1.0.0"); ("packages/b", JStr "2.0.0")].

Definition onlyA : json := JObj [("packages/a", JStr "1.0.0")].

Definition pending (files : list string) : MergedPR :=
  {| pr_sha := "abc123"; pr_number := 7;
     pr_labels := ["autorelease: pending"]; pr_files := files |}.

Definition created : PackageReleaseData -> Result (option Release) :=
  fun d => Ok (Some {| html_url := ("https://host/releases/" ++ path (prd_package d))%string |}).

(** A manifest whose value for packages/a is the number 5. *)
Definition numberInManifest : Env :=
  host twoPackages (JObj [("packages/a", JNum 5)]) None
    (Some (pending ["packages/a/package.json"])) created.

(** The merged pull request touched no configured package. *)
Definition untouched : Env :=
  host twoPackages bothReleased (Some bothReleased)
    (Some (pending ["README.md"])) created.

(** [createRelease] is refused with a 422 whose first error is not the
    duplicate tag. *)
Definition unprocessable : Exn :=
  {| status := Some 422;
     errors := Some [{| code := "custom"; field := "body" |}];
     message := "Validation Failed"; isSyntaxError := false |}.

Definition refused : Env :=
  host twoPackages bothReleased (Some bothReleased)
    (Some (pending ["packages/a/package.json"]))
    (fun _ => Throw unprocessable).

(** [createRelease] fails with a server error for packages/a and works for
    packages/b. *)
Definition serverError : Exn :=
  {| status := Some 500; errors := None; message := "Server Error";
     isSyntaxError := false |}.

Definition flaky : Env :=
  host twoPackages bothReleased (Some bothReleased)
    (Some (pending ["packages/a/package.json"; "packages/b/package.json"]))
    (fun d =>
       if String.eqb (path (prd_package d)) "packages/a" then Throw serverError
       else created d).

(** A second run after a partial one: the release of packages/a exists
    already, [createRelease] fails with the duplicate tag for it and works
    for packages/b. *)
Definition alreadyExists : Exn :=
  {| status := Some 422;
     errors := Some [{| code := "already_exists"; field := "tag_name" |}];
     message := "Validation Failed"; isSyntaxError := false |}.

Definition retried : Env :=
  host twoPackages bothReleased (Some bothReleased)
    (Some (pending ["packages/a/package.json"; "packages/b/package.json"]))
    (fun d =>
       if String.eqb (path (prd_package d)) "packages/a" then Throw alreadyExists
       else created d).

(** packages/b was added after the last release: the manifest at that
    release has no entry for it, the manifest at the tip has. *)
Definition addedSince : Env :=
  host twoPackages bothReleased (Some onlyA)
    (Some (pending ["packages/a/package.json"; "packages/b/package.json"]))
    created.

Definition validated (e : Env) : State := snd (validate e initial).

Definition configOf (s : State) : Config :=
  match configFile s with
  | Some c => c
  | None => {| parsedPackages := []; config_json := JNull |}
  end.

Definition mergeCommit (pr : MergedPR) : Commit :=
  {| c_sha := pr_sha pr; c_message := ""; c_files := pr_files pr |}.

(** Every release is created: the pull request is re-labeled. *)
Definition smooth : Env :=
  host twoPackages bothReleased (Some bothReleased)
    (Some (pending ["packages/a/package.json"; "packages/b/package.json"]))
    created.


End Hosts.

(* ================================================================== *)
(** * The entry point of the node-workspace plugin *)
(* ================================================================== *)

Module Workspace.
Import Lerna NodeWorkspace.

Section Run.

Variable semver_inc_patch : option string -> option string.
Variable hosted_toString : Resolved -> string -> string.
Variable runOrder : list Package -> list Package.
Variable packageJsonStringify : PackageJson -> string.
(** [JSON.parse] on the text of a package.json; [None] is a thrown
    [SyntaxError].  A parsed document is read as a [PackageJson]. *)
Variable JSON_parse : string -> option PackageJson.
(** [(await gh.getFileContents(path)).parsedContent]; [None] is a rejected
    request. *)
Variable getFileContents : string -> option string.
(** [new PackageGraph(packages, 'allDependencies')]; [None] is a thrown
    error. *)
Variable newPackageGraph : list Package -> option PackageGraph.

(** [JSON.parse(fileData.content!)]: [JSON.parse(undefined)] throws. *)
Definition parseContent (fileData : FileData) : option PackageJson :=
  obind (content fileData) JSON_parse.

(** The body of [for (const [path, fileData] of pkg.prData.changes)]. *)
Definition ownPackageJson (pkg : ManifestPackageWithPRData)
  (acc : option PathPkgJson) (entry : string * FileData) : option PathPkgJson :=
  obind acc (fun pathPkgs =>
    if String.eqb (fst entry) (path (config pkg) ++ "/package.json")%string then
      obind (parseContent (snd entry)) (fun pkgJson =>
        Some (JsMap.set pathPkgs (fst entry) pkgJson))
    else Some pathPkgs).

(** [filterPackages]: the package.json contents already updated by the node
    releasers, keyed by file path. *)
Definition filterPackages (pkgsWithPRData : list ManifestPackageWithPRData)
  : option PathPkgJson :=
  fold_left
    (fun acc pkg =>
       if String.eqb (releaseType (config pkg)) "node" then
         fold_left (ownPackageJson pkg) (changes (prData pkg)) acc
       else acc)
    pkgsWithPRData (Some []).

(** The body of [for (const pkg of this.config.parsedPackages)]. *)
Definition workspacePackage (rpUpdatedPkgs : PathPkgJson)
  (acc : option (list (string * PackageJson))) (pkg : ManifestPackage)
  : option (list (string * PackageJson)) :=
  obind acc (fun nodePkgs =>
    if negb (String.eqb (releaseType pkg) "node") then Some nodePkgs
    else
      let filePath := (path pkg ++ "/package.json")%string in
      obind
        (match JsMap.get rpUpdatedPkgs filePath with
         | Some alreadyUpdated => Some alreadyUpdated
         | None => obind (getFileContents filePath) JSON_parse
         end)
        (fun contents => Some (nodePkgs ++ [(filePath, contents)]))).

(** [getAllWorkspacePackages]: the package.json of every configured node
    package, updated in this run or not. *)
Definition getAllWorkspacePackages (rpUpdatedPkgs : PathPkgJson)
  (configured : list ManifestPackage) : option (list (string * PackageJson)) :=
  fold_left (workspacePackage rpUpdatedPkgs) configured (Some []).

(** [run(newManifestVersions, pkgsWithPRData)]; [configured] is
    [this.config.parsedPackages]. *)
Definition run (versions : VersionsMap)
  (pkgs : list ManifestPackageWithPRData) (configured : list ManifestPackage)
  : option (VersionsMap * list ManifestPackageWithPRData) :=
  obind (filterPackages pkgs) (fun rpUpdatedPkgs =>
  obind (getAllWorkspacePackages rpUpdatedPkgs configured) (fun allPkgs =>
  obind (newPackageGraph
           (map (fun e => {| pkg_json := snd e; pkg_location := fst e |}) allPkgs))
    (fun packageGraph =>
  obind (runLernaVersion semver_inc_patch hosted_toString runOrder
           rpUpdatedPkgs packageGraph) (fun updated =>
  let st :=
    updatePkgsWithPRData packageJsonStringify pkgs versions updated configured in
  Some (newManifestVersions st, pkgsWithPRData st))))).

End Run.
End Workspace.

(* ================================================================== *)
(** * What the merge keeps and what it appends *)
(* ================================================================== *)

Module Merge.
Import Lerna NodeWorkspace.

(** [pkg'] is what the first loop of [updatePkgsWithPRData] leaves of
    [pkg]: the same configuration and version, every pending file change as
    it was, and at most one more change, for the package.json of the
    package; a package that is no node package is left as it is. *)
Definition kept (pkg pkg' : ManifestPackageWithPRData) : Prop :=
  config pkg' = config pkg /\
  prVersion (prData pkg') = prVersion (prData pkg) /\
  (releaseType (config pkg) <> "node" -> pkg' = pkg) /\
  (forall k fd, JsMap.get (changes (prData pkg)) k = Some fd ->
     JsMap.get (changes (prData pkg')) k = Some fd) /\
  (forall k, In k (JsMap.keys (changes (prData pkg'))) ->
     In k (JsMap.keys (changes (prData pkg)))
     \/ k = (path (config pkg) ++ "/package.json")%string).

(** [new] is an entry the second loop appends: a configured package with one
    file change, its package.json with mode 100644. *)
Definition appended (configured : list ManifestPackage)
  (new : ManifestPackageWithPRData) : Prop :=
  In (path (config new)) (map path configured) /\
  exists text,
    changes (prData new)
    = [((path (config new) ++ "/package.json")%string,
        {| content := Some text; mode := "100644" |})].

End Merge.

(* ================================================================== *)
(** * What the flows of the manifest do to the remote host *)
(* ================================================================== *)

Module Flows.
Import Manifest.

(** What a parsed package always has: a release type, and a release-as that
    is [undefined] or truthy. *)
Definition settled (p : Package) : Prop :=
  releaseType p <> None /\ releaseType p <> Some JNull /\
  (releaseAs p = None \/ truthy_value (releaseAs p) = true).

(** The candidates of the main pass of [getPackagesToRelease], against its
    inputs: the commits per path, the versions read and the configured
    packages.  Entries have distinct paths; each is a configured package filed
    under its path with its commits, none of them empty, the version read
    for its path and the options of its configuration; a path is recorded as
    missing only when no truthy version was read for it, and has an entry. *)
Definition filed (cpp : JsMap.t (list Commit)) (mv : VersionsMap)
  (all : list Package) (c : Candidates) : Prop :=
  NoDup (JsMap.keys (packagesToRelease c)) /\
  (forall p d, JsMap.get (packagesToRelease c) p = Some d ->
     In (prd_package d) all /\ path (prd_package d) = p /\
     commits d <> [] /\ JsMap.get cpp p = Some (commits d) /\
     lastVersion d = JsMap.get mv p /\
     releaserOptions d
     = {| monorepoTags := true; draft := releaseDraft (prd_package d);
          rest := prd_package d |}) /\
  (forall p, In p (missingVersionPaths c) ->
     truthy_value (JsMap.get mv p) = false /\
     exists d, JsMap.get (packagesToRelease c) p = Some d).

Section Flows.
Variable env : Env.

(** The tag [runReleasers] hands to the releaser of a candidate. *)
Definition latestTag (sha : option string) (pkg : PackageReleaseData)
  : option LatestTag :=
  if truthy_value (lastVersion pkg) then
    Some {| t_name := "v" ++ to_string env (lastVersion pkg);
            t_sha := match sha with Some s => s | None => "beginning of time" end;
            t_version := lastVersion pkg |}
  else None.

(** What [runReleasers] keeps of a candidate: its name and options, when the
    releaser has something to release. *)
Definition openPRPackage (sha : option string) (pkg : PackageReleaseData)
  : list PackageWithPRData :=
  match getOpenPROptions env pkg (latestTag sha pkg) with
  | Some options =>
      [{| pwd_name := releasePR_packageName env pkg; openPROptions := options |}]
  | None => []
  end.

(** The calls of the release loop for one candidate that change the remote
    host: the release is attempted when the candidate has a last version; a
    comment follows a created release and a failure that is no validation
    failure. *)
Definition release_events (pr : MergedPR) (pkg : PackageReleaseData)
  : list Event :=
  if truthy_value (lastVersion pkg) then
    CreateRelease (path (prd_package pkg)) (lastVersion pkg) (pr_number pr)
    :: match createRelease_answer env pkg (lastVersion pkg) pr with
       | Ok (Some release) =>
           [CommentOnIssue
              (":robot: Release for " ++ getPackageName env pkg ++ " is at "
               ++ html_url release ++ " :sunflower:")
              (pr_number pr)]
       | Ok None => []
       | Throw err =>
           if is_validation_failure err then []
           else
             [CommentOnIssue
                (":robot: Failed to create release for "
                 ++ getPackageName env pkg ++ " :cloud:")
                (pr_number pr)]
       end
  else [].

(** The calls that change the remote host of a run that gets through the
    loop and the re-labeling, in order: those of the candidates, then the two
    label calls when the flag is still set. *)
Definition release_calls (pr : MergedPR) (packages : list PackageReleaseData)
  : list Event :=
  flat_map (release_events pr) packages
  ++ (if negb (List.length packages =? 0)%nat
         && forallb (fun pkg => negb (Effects.generic_failure env pr pkg)) packages
      then Effects.relabel env pr
      else []).

(** What the loop files under the path of a candidate: [Some None] is an
    entry that is [undefined], [None] no entry. *)
Definition release_outcome (pr : MergedPR) (pkg : PackageReleaseData)
  : option (option GitHubReleaseResponse) :=
  if truthy_value (lastVersion pkg) then
    match createRelease_answer env pkg (lastVersion pkg) pr with
    | Ok (Some release) =>
        Some (releaseResponse env release (lastVersion pkg) (pr_sha pr)
                (pr_number pr))
    | Ok None => None
    | Throw _ => Some None
    end
  else Some None.

End Flows.
End Flows.

(* ================================================================== *)
(** * Example inputs of the plugin and further hosts *)
(* ================================================================== *)

Module Cases.
Import Lerna NodeWorkspace Examples.

(** The workspace of the chain as the plugin finds it: three configured node
    packages, of which pkgA has a pending package.json in the pull
    request. *)
Definition workspace : list ManifestPackage :=
  [ {| path := "packages/pkgA"; releaseType := "node"; packageName := None |};
    {| path := "packages/pkgB"; releaseType := "node"; packageName := None |};
    {| path := "packages/pkgC"; releaseType := "node"; packageName := None |} ].

Definition pullRequestOfA : list ManifestPackageWithPRData :=
  [Triangle.pendingOf "packages/pkgA" pkgA].

Definition versionsOfA : VersionsMap := [("packages/pkgA", Some "1.1.2")].

(** A pull request without a node package. *)
Definition pullRequestOfDocs : list ManifestPackageWithPRData :=
  [ {| config := {| path := "docs"; releaseType := "simple"; packageName := None |};
       prData :=
         {| prVersion := Some "0.3.0";
            changes :=
              [("docs/version.txt", {| content := Some "0.3.0"; mode := "100644" |})] |} |} ].

(** The pull request of pkgA together with the package that is no node
    package. *)
Definition pullRequestOfAAndDocs : list ManifestPackageWithPRData :=
  pullRequestOfA ++ pullRequestOfDocs.

(** The three documents, rendered and parsed by table. *)
Definition documents : list (string * PackageJson) :=
  map (fun p => (stringify (pkg_json p), pkg_json p)) [pkgA; pkgB; pkgC].

Definition parse (text : string) : option PackageJson := JsMap.get documents text.

Definition fetch (filePath : string) : option string :=
  option_map (fun p => stringify (pkg_json p))
    (find (fun p => String.eqb (pkg_location p) filePath) [pkgA; pkgB; pkgC]).

(** The graph of the chain, for the packages of the chain. *)
Definition graphOf (packages : list Package) : option PackageGraph :=
  if list_eq_dec string_dec (map pkg_location packages) (map node_location chain)
  then Some chain
  else None.

Definition updatedChain : JsMap.t Package :=
  match run_chain with Some out => out | None => [] end.

Definition pkgB_updated : Package :=
  mkPackage "@here/pkgB" "2.2.3" "packages/pkgB/package.json"
    [("@here/pkgA", "^1.1.2"); ("someExternal", "^9.2.3")].

Definition run (versions : VersionsMap) (pkgs : list ManifestPackageWithPRData)
  : option (VersionsMap * list ManifestPackageWithPRData) :=
  Workspace.run Semver.inc_patch no_hosted in_order stringify parse fetch graphOf
    versions pkgs workspace.

End Cases.

Module Sites.
Import Manifest Hosts.

(** A configuration with defaults for the release type and the release-as
    version; packages/a names its own type, packages/b switches the default
    release-as off. *)
Definition mixedConfig : json :=
  JObj [ ("release-type", JStr "python");
         ("release-as", JStr "3.0.0");
         ("packages",
          JObj [ ("packages/a", JObj [("release-type", JStr "node")]);
                 ("packages/b", JObj [("release-as", JStr "")]) ]) ].

Definition mixed : Env :=
  host mixedConfig bothReleased (Some bothReleased)
    (Some (pending ["packages/a/package.json"])) created.

(** The manifest was deleted from the last release. *)
Definition deleted : Env :=
  host twoPackages bothReleased None
    (Some (pending ["packages/a/package.json"])) created.

(** The last merged pull request is labeled as released already. *)
Definition tagged : Env :=
  host twoPackages bothReleased (Some bothReleased)
    (Some {| pr_sha := "abc123"; pr_number := 7;
             pr_labels := ["autorelease: tagged"];
             pr_files := ["packages/a/package.json"] |})
    created.

(** A host whose files have changed since: no package, an empty manifest. *)
Definition emptied : Env :=
  host (JObj [("packages", JObj [])]) (JObj []) None None created.

(** The configuration file of this host is no JSON. *)
Definition garbled : Env :=
  {| configFileName := configFileName smooth;
     manifestFileName := manifestFileName smooth;
     DEFAULT_LABELS := DEFAULT_LABELS smooth;
     GITHUB_RELEASE_LABEL := GITHUB_RELEASE_LABEL smooth;
     getFileContents := getFileContents smooth;
     getFileContentsWithSimpleAPI := getFileContentsWithSimpleAPI smooth;
     getDefaultBranch := getDefaultBranch smooth;
     lastMergedPRByHeadBranch := lastMergedPRByHeadBranch smooth;
     commitsSinceSha := commitsSinceSha smooth;
     openPR_answer := openPR_answer smooth;
     addLabels_answer := addLabels_answer smooth;
     removeLabels_answer := removeLabels_answer smooth;
     commentOnIssue_answer := commentOnIssue_answer smooth;
     createRelease_answer := createRelease_answer smooth;
     JSON_parse :=
       fun c => if String.eqb c "config" then None else JSON_parse smooth c;
     JSON_stringify_base64 := JSON_stringify_base64 smooth;
     branchNameOf := branchNameOf smooth;
     split := split smooth;
     to_string := to_string smooth;
     releaserClassName := releaserClassName smooth;
     getPackageName := getPackageName smooth;
     releasePR_packageName := releasePR_packageName smooth;
     defaultInitialVersion := defaultInitialVersion smooth;
     getOpenPROptions := getOpenPROptions smooth;
     releaseResponse := releaseResponse smooth |}.

(** Every release is created, and the host rejects the comments. *)
Definition silenced : Env :=
  {| configFileName := configFileName smooth;
     manifestFileName := manifestFileName smooth;
     DEFAULT_LABELS := DEFAULT_LABELS smooth;
     GITHUB_RELEASE_LABEL := GITHUB_RELEASE_LABEL smooth;
     getFileContents := getFileContents smooth;
     getFileContentsWithSimpleAPI := getFileContentsWithSimpleAPI smooth;
     getDefaultBranch := getDefaultBranch smooth;
     lastMergedPRByHeadBranch := lastMergedPRByHeadBranch smooth;
     commitsSinceSha := commitsSinceSha smooth;
     openPR_answer := openPR_answer smooth;
     addLabels_answer := addLabels_answer smooth;
     removeLabels_answer := removeLabels_answer smooth;
     commentOnIssue_answer := fun _ _ => Throw serverError;
     createRelease_answer := createRelease_answer smooth;
     JSON_parse := JSON_parse smooth;
     JSON_stringify_base64 := JSON_stringify_base64 smooth;
     branchNameOf := branchNameOf smooth;
     split := split smooth;
     to_string := to_string smooth;
     releaserClassName := releaserClassName smooth;
     getPackageName := getPackageName smooth;
     releasePR_packageName := releasePR_packageName smooth;
     defaultInitialVersion := defaultInitialVersion smooth;
     getOpenPROptions := getOpenPROptions smooth;
     releaseResponse := releaseResponse smooth |}.

(** The host accepts the released label and rejects the removal of the
    pending one. *)
Definition halfLabeled : Env :=
  {| configFileName := configFileName smooth;
     manifestFileName := manifestFileName smooth;
     DEFAULT_LABELS := DEFAULT_LABELS smooth;
     GITHUB_RELEASE_LABEL := GITHUB_RELEASE_LABEL smooth;
     getFileContents := getFileContents smooth;
     getFileContentsWithSimpleAPI := getFileContentsWithSimpleAPI smooth;
     getDefaultBranch := getDefaultBranch smooth;
     lastMergedPRByHeadBranch := lastMergedPRByHeadBranch smooth;
     commitsSinceSha := commitsSinceSha smooth;
     openPR_answer := openPR_answer smooth;
     addLabels_answer := addLabels_answer smooth;
     removeLabels_answer := fun _ _ => Throw serverError;
     commentOnIssue_answer := commentOnIssue_answer smooth;
     createRelease_answer := createRelease_answer smooth;
     JSON_parse := JSON_parse smooth;
     JSON_stringify_base64 := JSON_stringify_base64 smooth;
     branchNameOf := branchNameOf smooth;
     split := split smooth;
     to_string := to_string smooth;
     releaserClassName := releaserClassName smooth;
     getPackageName := getPackageName smooth;
     releasePR_packageName := releasePR_packageName smooth;
     defaultInitialVersion := defaultInitialVersion smooth;
     getOpenPROptions := getOpenPROptions smooth;
     releaseResponse := releaseResponse smooth |}.

Definition candidatesOf (e : Env) (pr : MergedPR) : list PackageReleaseData :=
  match fst (getPackagesToRelease e [mergeCommit pr] (Some (pr_sha pr))
               (validated e)) with
  | Ok l => l
  | Throw _ => []
  end.

Definition afterCandidates (e : Env) (pr : MergedPR) : State :=
  snd (getPackagesToRelease e [mergeCommit pr] (Some (pr_sha pr)) (validated e)).

Definition noPackage : Package :=
  {| path := ""; releaseType := None; packageName := None;
     bumpMinorPreMajor := None; changelogSections := None;
     changelogPath := None; releaseAs := None; releaseDraft := false |}.

Definition noCandidate : PackageReleaseData :=
  {| prd_package := noPackage; commits := []; lastVersion := None;
     releaserOptions :=
       {| monorepoTags := true; draft := false; rest := noPackage |} |}.

Definition fixOfA : PackageWithPRData :=
  {| pwd_name := "a";
     openPROptions :=
       {| o_version := "1.0.1"; o_changelogEntry := "a fix";
          o_updates := [ReleaserUpdate "packages/a/package.json"] |} |}.

End Sites.

(* ================================================================== *)
(** * Facts about the containers *)
(* ================================================================== *)

Lemma mem_In (x : string) (l : list string) : mem x l = true <-> In x l.
Proof.
  unfold mem. rewrite existsb_exists. split.
  - intros [y [Hy Heq]]. apply String.eqb_eq in Heq. now subst.
  - intros H. exists x. split; [assumption | apply String.eqb_refl].
Qed.

Lemma mem_false (x : string) (l : list string) : mem x l = false <-> ~ In x l.
Proof.
  rewrite <- mem_In. destruct (mem x l); split; intros; congruence.
Qed.

Lemma set_add_In (x y : string) (l : list string) :
  In y (set_add x l) <-> y = x \/ In y l.
Proof.
  unfold set_add. destruct (mem x l) eqn:E.
  - apply mem_In in E. split; [auto | intros [-> | H]; assumption].
  - rewrite in_app_iff. simpl. split; intros H; intuition.
Qed.

Lemma set_add_NoDup (x : string) (l : list string) :
  NoDup l -> NoDup (set_add x l).
Proof.
  intros H. unfold set_add. destruct (mem x l) eqn:E; [assumption |].
  apply mem_false in E.
  apply NoDup_rev in H. rewrite <- (rev_involutive (l ++ [x])).
  apply NoDup_rev. rewrite rev_app_distr. simpl. constructor.
  - now rewrite <- in_rev.
  - assumption.
Qed.

Section JsMapFacts.
Context {V : Type}.
Implicit Types (m : JsMap.t V) (k : string) (v : V).

Lemma get_In m k v : JsMap.get m k = Some v -> In (k, v) m.
Proof.
  induction m as [| [k' v'] m IH]; simpl; [discriminate |].
  destruct (String.eqb k k') eqn:E.
  - apply String.eqb_eq in E. intros [= ->]. subst. now left.
  - intros H. right. auto.
Qed.

Lemma get_None m k : JsMap.get m k = None <-> ~ In k (JsMap.keys m).
Proof.
  induction m as [| [k' v'] m IH]; simpl.
  - tauto.
  - destruct (String.eqb k k') eqn:E.
    + apply String.eqb_eq in E. subst. split; [discriminate | intros H; tauto].
    + apply String.eqb_neq in E. rewrite IH. split; intros H; [intros [? | ?] |];
        try congruence; tauto.
Qed.

Lemma has_In m k : JsMap.has m k = true <-> In k (JsMap.keys m).
Proof.
  unfold JsMap.has. destruct (JsMap.get m k) eqn:E.
  - split; [intros _ | reflexivity].
    apply get_In in E. apply (in_map fst) in E. exact E.
  - apply get_None in E. split; [discriminate | tauto].
Qed.

Lemma get_NoDup m k v :
  NoDup (JsMap.keys m) -> In (k, v) m -> JsMap.get m k = Some v.
Proof.
  induction m as [| [k' v'] m IH]; simpl; [tauto |].
  intros Hnd [Heq | Hin].
  - inversion Heq; subst. now rewrite String.eqb_refl.
  - inversion Hnd as [| ? ? Hnotin Hnd']; subst.
    destruct (String.eqb k k') eqn:E.
    + apply String.eqb_eq in E. subst. exfalso. apply Hnotin.
      apply (in_map fst) in Hin. exact Hin.
    + auto.
Qed.

Lemma get_set_same m k v : JsMap.get (JsMap.set m k v) k = Some v.
Proof.
  induction m as [| [k' v'] m IH]; simpl.
  - now rewrite String.eqb_refl.
  - destruct (String.eqb k k') eqn:E; simpl.
    + now rewrite String.eqb_refl.
    + now rewrite E.
Qed.

Lemma get_set_other m k k' v :
  k' <> k -> JsMap.get (JsMap.set m k v) k' = JsMap.get m k'.
Proof.
  intros Hne. induction m as [| [k0 v0] m IH]; simpl.
  - apply String.eqb_neq in Hne. now rewrite Hne.
  - destruct (String.eqb k k0) eqn:E; simpl.
    + apply String.eqb_eq in E. subst k0.
      apply String.eqb_neq in Hne. now rewrite Hne.
    + now rewrite IH.
Qed.

Lemma keys_set m k v :
  forall k', In k' (JsMap.keys (JsMap.set m k v)) <-> k' = k \/ In k' (JsMap.keys m).
Proof.
  intros k'. rewrite <- !has_In. unfold JsMap.has.
  destruct (String.eqb_spec k' k) as [-> | Hne].
  - rewrite get_set_same. split; auto.
  - rewrite get_set_other by assumption. split; [auto | intros [? | ?]; congruence].
Qed.

Lemma set_In m k v k' v' :
  In (k', v') (JsMap.set m k v) -> (k' = k /\ v' = v) \/ In (k', v') m.
Proof.
  induction m as [| [k0 v0] m IH]; simpl.
  - intros [[= <- <-] | []]. now left.
  - destruct (String.eqb k k0); simpl; intros [Heq | Hin].
    + inversion Heq. now left.
    + right. now right.
    + right. now left.
    + destruct (IH Hin) as [? | ?]; [now left | right; now right].
Qed.

Lemma of_entries_acc_In (es : list (string * V)) m k v :
  In (k, v) (fold_left (fun m e => JsMap.set m (fst e) (snd e)) es m) ->
  In (k, v) m \/ In (k, v) es.
Proof.
  revert m. induction es as [| [k0 v0] es IH]; simpl; intros m H.
  - now left.
  - destruct (IH _ H) as [Hin | Hin].
    + apply set_In in Hin. destruct Hin as [[-> ->] | Hin]; [right; now left | now left].
    + right. now right.
Qed.

Lemma of_entries_In (es : list (string * V)) k v :
  In (k, v) (JsMap.of_entries es) -> In (k, v) es.
Proof.
  intros H. apply of_entries_acc_In in H. destruct H as [[] | H]. exact H.
Qed.

Lemma keys_of_entries_acc (es : list (string * V)) m :
  forall k,
    In k (JsMap.keys (fold_left (fun m e => JsMap.set m (fst e) (snd e)) es m)) <->
    In k (JsMap.keys m) \/ In k (map fst es).
Proof.
  revert m. induction es as [| [k0 v0] es IH]; simpl; intros m k.
  - tauto.
  - rewrite IH, keys_set. intuition.
Qed.

Lemma set_keys_NoDup m k v :
  NoDup (JsMap.keys m) -> NoDup (JsMap.keys (JsMap.set m k v)).
Proof.
  induction m as [| [k0 v0] m IH]; simpl; intros Hnd.
  - constructor; [tauto | constructor].
  - inversion Hnd as [| ? ? Hnotin Hnd']; subst.
    destruct (String.eqb k k0) eqn:E; simpl.
    + apply String.eqb_eq in E. subst. now constructor.
    + constructor; [| auto].
      intros Hin. apply (keys_set m k v k0) in Hin.
      apply String.eqb_neq in E. destruct Hin; [congruence | tauto].
Qed.

Lemma of_entries_NoDup (es : list (string * V)) :
  NoDup (JsMap.keys (JsMap.of_entries es)).
Proof.
  unfold JsMap.of_entries.
  assert (H : forall m, NoDup (JsMap.keys m) ->
    NoDup (JsMap.keys (fold_left (fun m e => JsMap.set m (fst e) (snd e)) es m))).
  { induction es as [| e es IH]; simpl; intros m Hm; [assumption |].
    apply IH. now apply set_keys_NoDup. }
  apply H. constructor.
Qed.

(** With distinct keys, [new Map(entries)] keeps every entry. *)
Lemma of_entries_get (es : list (string * V)) k v :
  NoDup (map fst es) -> In (k, v) es -> JsMap.get (JsMap.of_entries es) k = Some v.
Proof.
  unfold JsMap.of_entries.
  assert (H : forall m,
    NoDup (map fst es) ->
    (JsMap.get m k = Some v /\ ~ In k (map fst es)) \/ In (k, v) es ->
    JsMap.get (fold_left (fun m e => JsMap.set m (fst e) (snd e)) es m) k = Some v).
  { induction es as [| [k0 v0] es IH]; simpl; intros m Hnd Hc.
    - destruct Hc as [[Hg _] | []]. exact Hg.
    - inversion Hnd as [| ? ? Hnotin Hnd']; subst. apply IH; [assumption |].
      destruct Hc as [[Hg Hn] | [Heq | Hin]].
      + left. split; [| tauto].
        rewrite get_set_other; [assumption | intros ->; tauto].
      + inversion Heq; subst. left. split; [apply get_set_same | assumption].
      + now right. }
  intros Hnd Hin. apply H; [assumption | now right].
Qed.

End JsMapFacts.

Lemma omapM_In {A B} (f : A -> option B) (l : list A) (r : list B) :
  omapM f l = Some r ->
  forall y, In y r <-> exists x, In x l /\ f x = Some y.
Proof.
  revert r. induction l as [| x l IH]; simpl; intros r H y.
  - inversion H; subst. simpl. split; [tauto | intros [? [[] _]]].
  - destruct (f x) as [y0 |] eqn:Ef; simpl in H; [| discriminate].
    destruct (omapM f l) as [ys |] eqn:El; simpl in H; [| discriminate].
    inversion H; subst. simpl. rewrite (IH ys eq_refl). split.
    + intros [<- | [x0 [Hin Hf]]]; [exists x | exists x0]; auto.
    + intros [x0 [[<- | Hin] Hf]].
      * left. congruence.
      * right. exists x0. auto.
Qed.

Lemma omapM_Some {A B} (f : A -> option B) (l : list A) :
  (forall x, In x l -> exists y, f x = Some y) ->
  exists r, omapM f l = Some r.
Proof.
  induction l as [| x l IH]; simpl; intros H.
  - now exists [].
  - destruct (H x (or_introl eq_refl)) as [y Hy]. rewrite Hy. simpl.
    destruct IH as [r Hr]; [intros; apply H; now right |].
    rewrite Hr. simpl. now eexists.
Qed.

Lemma omapM_map_fst {A B} (f : A -> option B) (g : A -> string) (h : B -> string)
  (l : list A) (r : list B) :
  (forall x y, In x l -> f x = Some y -> h y = g x) ->
  omapM f l = Some r -> map h r = map g l.
Proof.
  revert r. induction l as [| x l IH]; simpl; intros r Hfg H.
  - now inversion H.
  - destruct (f x) as [y0 |] eqn:Ef; simpl in H; [| discriminate].
    destruct (omapM f l) as [ys |] eqn:El; simpl in H; [| discriminate].
    inversion H; subst. simpl. f_equal; [eauto |].
    apply IH; [| reflexivity]. intros; eapply Hfg; eauto.
Qed.

Lemma NoDup_map_filter {A B} (g : A -> B) (f : A -> bool) (l : list A) :
  NoDup (map g l) -> NoDup (map g (filter f l)).
Proof.
  induction l as [| n l IH]; simpl; intros H; [constructor |].
  inversion H as [| ? ? Hnotin Hnd]; subst.
  destruct (f n); simpl; [constructor |]; auto.
  intros Hin. apply Hnotin. apply in_map_iff in Hin.
  destruct Hin as [m [Hm Hin]]. apply filter_In in Hin.
  apply in_map_iff. exists m. tauto.
Qed.

Lemma NoDup_map_eq {A B} (g : A -> B) (l : list A) (x y : A) :
  NoDup (map g l) -> In x l -> In y l -> g x = g y -> x = y.
Proof.
  induction l as [| a l IH]; simpl; intros Hnd Hx Hy Heq; [destruct Hx |].
  inversion Hnd as [| ? ? Hnotin Hnd']; subst.
  destruct Hx as [-> | Hx], Hy as [-> | Hy]; auto.
  - exfalso. apply Hnotin. rewrite Heq. now apply in_map.
  - exfalso. apply Hnotin. rewrite <- Heq. now apply in_map.
Qed.

(* ================================================================== *)
(** * The dependency graph and the walk of [collectDependents] *)
(* ================================================================== *)

Section GraphFacts.
Import Lerna Graph.

Variable G : PackageGraph.

Lemma nodup_length_NoDup (l : list string) :
  Nat.eqb (List.length (nodup string_dec l)) (List.length l) = true -> NoDup l.
Proof.
  intros H. apply Nat.eqb_eq in H.
  induction l as [| x l IH]; [constructor |].
  simpl in H. destruct (in_dec string_dec x l) as [Hin | Hnin].
  - assert (Hle : (List.length (nodup string_dec l) <= List.length l)%nat).
    { apply NoDup_incl_length; [apply NoDup_nodup |].
      intros y Hy. now apply nodup_In in Hy. }
    simpl in H. lia.
  - simpl in H. constructor; [assumption | apply IH; lia].
Qed.

Lemma wf_graph_names : wf_graph G = true -> NoDup (map node_name G).
Proof.
  unfold wf_graph. rewrite andb_true_iff. intros [_ H].
  apply nodup_length_NoDup. now rewrite length_map.
Qed.

Lemma distinct_locations_NoDup :
  distinct_locations G = true -> NoDup (map node_location G).
Proof.
  unfold distinct_locations. intros H.
  apply nodup_length_NoDup. now rewrite length_map.
Qed.

Lemma wf_graph_node n : wf_graph G = true -> In n G -> wf_node G n = true.
Proof.
  unfold wf_graph. rewrite andb_true_iff. intros [H _] Hin.
  rewrite forallb_forall in H. auto.
Qed.

Lemma wf_node_keys n :
  wf_node G n = true -> NoDup (JsMap.keys (localDependencies n)).
Proof.
  unfold wf_node. rewrite andb_true_iff. intros [_ H].
  apply nodup_length_NoDup. unfold JsMap.keys in *. now rewrite length_map.
Qed.

Lemma wf_node_edge n d r :
  wf_node G n = true -> In (d, r) (localDependencies n) ->
  r_name r = d /\ In d (map node_name G) /\ truthy (dep_spec (node_pkg n) d) = true.
Proof.
  unfold wf_node. rewrite andb_true_iff. intros [H _] Hin.
  rewrite forallb_forall in H. specialize (H _ Hin). simpl in H.
  rewrite !andb_true_iff in H. destruct H as [[H1 H2] H3].
  apply String.eqb_eq in H1. apply mem_In in H2. auto.
Qed.

Lemma graph_get_In n :
  NoDup (map node_name G) -> In n G -> graph_get G (node_name n) = Some n.
Proof.
  unfold graph_get. induction G as [| m G' IH]; simpl; [tauto |].
  intros Hnd [-> | Hin].
  - now rewrite String.eqb_refl.
  - inversion Hnd as [| ? ? Hnotin Hnd']; subst.
    destruct (String.eqb (node_name n) (node_name m)) eqn:E.
    + apply String.eqb_eq in E. exfalso. apply Hnotin. rewrite <- E.
      now apply in_map.
    + auto.
Qed.

Lemma localDependents_In n m :
  In m (localDependents G n) <->
  In m G /\ JsMap.has (localDependencies m) (node_name n) = true.
Proof. unfold localDependents. apply filter_In. Qed.

Lemma localDependents_depends n m :
  In m (localDependents G n) -> depends_on G (node_name m) (node_name n).
Proof.
  intros H. apply localDependents_In in H. destruct H as [Hin Hhas].
  exists m. auto.
Qed.

Lemma depends_localDependents n d :
  depends_on G d (node_name n) ->
  exists m, In m (localDependents G n) /\ node_name m = d.
Proof.
  intros [m [Hin [Hname Hhas]]]. exists m. split; [| assumption].
  apply localDependents_In. auto.
Qed.

Lemma depends_trans_snoc b m a :
  depends_trans G b m -> depends_on G m a -> depends_trans G b a.
Proof.
  induction 1 as [b m H | b m' m H1 H2 IH]; intros Hs.
  - eapply dt_more; [exact H | now apply dt_step].
  - eapply dt_more; [exact H1 | auto].
Qed.

Lemma depends_trans_trans b m a :
  depends_trans G b m -> depends_trans G m a -> depends_trans G b a.
Proof.
  induction 1 as [b m H | b m' m H1 H2 IH]; intros Hs.
  - eapply dt_more; eassumption.
  - eapply dt_more; [exact H1 | auto].
Qed.

(** A ranked graph has no cycle. *)
Lemma ranked_depends_trans rank b a :
  ranked G rank = true -> depends_trans G b a -> (rank a < rank b)%nat.
Proof.
  intros Hr. unfold ranked in Hr. rewrite forallb_forall in Hr.
  induction 1 as [b a [n [Hin [Hn Hhas]]] | b m a [n [Hin [Hn Hhas]]] _ IH].
  - specialize (Hr _ Hin). rewrite forallb_forall in Hr.
    apply has_In in Hhas. specialize (Hr _ Hhas). apply Nat.ltb_lt in Hr.
    now rewrite Hn in Hr.
  - specialize (Hr _ Hin). rewrite forallb_forall in Hr.
    apply has_In in Hhas. specialize (Hr _ Hhas). apply Nat.ltb_lt in Hr.
    rewrite Hn in Hr. lia.
Qed.

Lemma ranked_acyclic rank : ranked G rank = true -> acyclic G.
Proof.
  intros Hr x Hx. pose proof (ranked_depends_trans rank x x Hr Hx). lia.
Qed.

(** ** One [forEach] round of the walk *)

Section Visit.

Variable currentNode : PackageGraphNode.
Variable siblings : list PackageGraphNode.

Lemma visit_seen st d x :
  In x (seen (visit currentNode siblings st d)) <->
  In x (seen st) \/ x = node_name d.
Proof.
  unfold visit. destruct (mem (node_name d) (seen st)) eqn:E.
  - apply mem_In in E. split; [auto | intros [? | ->]; assumption].
  - destruct (_ || _); simpl; rewrite set_add_In; tauto.
Qed.

Lemma visit_seen_NoDup st d :
  NoDup (seen st) -> NoDup (seen (visit currentNode siblings st d)).
Proof.
  intros H. unfold visit. destruct (mem (node_name d) (seen st)); [assumption |].
  destruct (_ || _); simpl; now apply set_add_NoDup.
Qed.

Lemma visit_length st d :
  NoDup (seen st) ->
  (List.length (queue (visit currentNode siblings st d)) + List.length (seen st)
   <= List.length (queue st) + List.length (seen (visit currentNode siblings st d)))%nat.
Proof.
  intros _. unfold visit. destruct (mem (node_name d) (seen st)) eqn:E; [lia |].
  unfold set_add. rewrite E.
  destruct (_ || _); simpl; rewrite !length_app; simpl; lia.
Qed.

Lemma visit_queue st d m :
  In m (queue (visit currentNode siblings st d)) -> In m (queue st) \/ m = d.
Proof.
  unfold visit. destruct (mem (node_name d) (seen st)); [auto |].
  destruct (_ || _); simpl; [auto |].
  rewrite in_app_iff. simpl. intros [H | [<- | []]]; auto.
Qed.

Lemma visit_queue_incl st d m :
  In m (queue st) -> In m (queue (visit currentNode siblings st d)).
Proof.
  unfold visit. destruct (mem (node_name d) (seen st)); [auto |].
  destruct (_ || _); simpl; [auto |].
  rewrite in_app_iff. tauto.
Qed.

Lemma visit_collected st d x :
  In x (collected (visit currentNode siblings st d)) ->
  In x (collected st) \/ x = node_name d.
Proof.
  unfold visit. destruct (mem (node_name d) (seen st)); [auto |].
  destruct (_ || _); simpl; [auto |].
  rewrite set_add_In. tauto.
Qed.

Lemma visit_collected_incl st d x :
  In x (collected st) -> In x (collected (visit currentNode siblings st d)).
Proof.
  unfold visit. destruct (mem (node_name d) (seen st)); [auto |].
  destruct (_ || _); simpl; [auto |].
  rewrite set_add_In. tauto.
Qed.

(** Without a cycle through the current node, a dependent seen for the first
    time is collected and queued. *)
Lemma visit_fresh st d :
  mem (node_name currentNode) (map node_name siblings) = false ->
  node_name d <> node_name currentNode ->
  ~ In (node_name d) (seen st) ->
  In d (queue (visit currentNode siblings st d)) /\
  In (node_name d) (collected (visit currentNode siblings st d)).
Proof.
  intros Hsib Hne Hnew. unfold visit.
  apply mem_false in Hnew. rewrite Hnew, Hsib.
  apply String.eqb_neq in Hne. rewrite Hne. simpl.
  rewrite in_app_iff, set_add_In. simpl. auto.
Qed.

Local Abbreviation round := (Walk.round currentNode siblings).

Lemma round_seen ds st x :
  In x (seen (round ds st)) <-> In x (seen st) \/ In x (map node_name ds).
Proof.
  unfold Walk.round. revert st. induction ds as [| d ds IH]; simpl; intros st.
  - tauto.
  - rewrite IH, visit_seen. intuition.
Qed.

Lemma round_seen_NoDup ds st : NoDup (seen st) -> NoDup (seen (round ds st)).
Proof.
  unfold Walk.round. revert st. induction ds as [| d ds IH]; simpl; intros st H.
  - assumption.
  - apply IH. now apply visit_seen_NoDup.
Qed.

Lemma round_length ds st :
  NoDup (seen st) ->
  (List.length (queue (round ds st)) + List.length (seen st)
   <= List.length (queue st) + List.length (seen (round ds st)))%nat.
Proof.
  unfold Walk.round. revert st. induction ds as [| d ds IH]; simpl; intros st H.
  - lia.
  - pose proof (visit_length st d H) as H1.
    pose proof (IH _ (visit_seen_NoDup st d H)) as H2. lia.
Qed.

Lemma round_queue ds st m :
  In m (queue (round ds st)) -> In m (queue st) \/ In m ds.
Proof.
  unfold Walk.round. revert st. induction ds as [| d ds IH]; simpl; intros st H.
  - now left.
  - destruct (IH _ H) as [Hq | Hin]; [| tauto].
    apply visit_queue in Hq. intuition.
Qed.

Lemma round_queue_incl ds st m :
  In m (queue st) -> In m (queue (round ds st)).
Proof.
  unfold Walk.round. revert st. induction ds as [| d ds IH]; simpl; intros st H.
  - assumption.
  - apply IH. now apply visit_queue_incl.
Qed.

Lemma round_collected ds st x :
  In x (collected (round ds st)) ->
  In x (collected st) \/ In x (map node_name ds).
Proof.
  unfold Walk.round. revert st. induction ds as [| d ds IH]; simpl; intros st H.
  - now left.
  - destruct (IH _ H) as [Hq | Hin]; [| tauto].
    apply visit_collected in Hq. intuition.
Qed.

Lemma round_collected_incl ds st x :
  In x (collected st) -> In x (collected (round ds st)).
Proof.
  unfold Walk.round. revert st. induction ds as [| d ds IH]; simpl; intros st H.
  - assumption.
  - apply IH. now apply visit_collected_incl.
Qed.

Lemma round_fresh ds st x :
  mem (node_name currentNode) (map node_name siblings) = false ->
  (forall d, In d ds -> node_name d <> node_name currentNode) ->
  In x (map node_name ds) -> ~ In x (seen st) ->
  (exists m, In m (queue (round ds st)) /\ In m ds /\ node_name m = x) /\
  In x (collected (round ds st)).
Proof.
  intros Hsib. unfold Walk.round. revert st.
  induction ds as [| d ds IH]; simpl; intros st Hne Hin Hnew; [tauto |].
  destruct (in_dec string_dec x (seen (visit currentNode siblings st d)))
    as [Hseen | Hnot].
  - (* first seen at [d] *)
    apply visit_seen in Hseen. destruct Hseen as [? | ->]; [tauto |].
    destruct (visit_fresh st d Hsib (Hne d (or_introl eq_refl)) Hnew) as [Hq Hc].
    split.
    + exists d. split; [now apply round_queue_incl | auto].
    + now apply round_collected_incl.
  - destruct Hin as [<- | Hin].
    + exfalso. apply Hnot. apply visit_seen. now right.
    + destruct (IH (visit currentNode siblings st d)
                  (fun d' H => Hne d' (or_intror H)) Hin Hnot)
        as [[m [Hq [Hm Hname]]] Hc].
      split; [exists m; auto | assumption].
Qed.

End Visit.

End GraphFacts.

Section WalkFacts.
Import Lerna Graph Walk.

Variable G : PackageGraph.
Variable c : PackageGraphNode.

Local Abbreviation reaches := (Walk.reaches G c).
Local Abbreviation walk_sound := (Walk.walk_sound G c).
Local Abbreviation walk_inv := (Walk.walk_inv G c).

(** ** Whatever the walk collects depends on the current node *)


Lemma dependents_reach n d :
  reaches (node_name n) -> In d (localDependents G n) ->
  depends_trans G (node_name d) (node_name c).
Proof.
  intros Hn Hd. apply localDependents_depends in Hd.
  destruct Hn as [Heq | Hn].
  - rewrite Heq in Hd. now apply dt_step.
  - eapply dt_more; eassumption.
Qed.

Lemma bfs_sound coll0 fuel st :
  walk_sound coll0 st -> walk_sound coll0 (bfs G fuel c st).
Proof.
  revert st. induction fuel as [| fuel IH]; intros st H; simpl.
  - destruct (queue st); assumption.
  - destruct (queue st) as [| n rest] eqn:Eq; [assumption |].
    apply IH. destruct H as [Hq Hc]. rewrite Eq in Hq.
    assert (Hn : reaches (node_name n)) by (apply Hq; now left).
    split.
    + intros m Hm. apply round_queue in Hm. simpl in Hm.
      destruct Hm as [Hm | Hm]; [apply Hq; now right |].
      right. eapply dependents_reach; eassumption.
    + intros x Hx. apply round_collected in Hx. simpl in Hx.
      destruct Hx as [Hx | Hx]; [auto |].
      right. apply in_map_iff in Hx. destruct Hx as [d [<- Hd]].
      eapply dependents_reach; eassumption.
Qed.

Lemma bfs_collected_incl fuel st x :
  In x (collected st) -> In x (collected (bfs G fuel c st)).
Proof.
  revert st. induction fuel as [| fuel IH]; intros st H; simpl.
  - destruct (queue st); assumption.
  - destruct (queue st) as [| n rest]; [assumption |].
    apply IH. now apply round_collected_incl.
Qed.

(** ** The walk ends: the fuel of [collectDependents] is never used up *)

Lemma bfs_done fuel st :
  NoDup (seen st) -> incl (seen st) (map node_name G) ->
  (List.length G + List.length (queue st) <= fuel + List.length (seen st))%nat ->
  queue (bfs G fuel c st) = [].
Proof.
  revert st. induction fuel as [| fuel IH]; intros st Hnd Hincl Hfuel; simpl.
  - destruct (queue st) as [| n rest] eqn:Eq; [assumption |].
    exfalso. pose proof (NoDup_incl_length Hnd Hincl) as Hle.
    rewrite length_map in Hle. simpl in Hfuel. lia.
  - destruct (queue st) as [| n rest] eqn:Eq; [assumption |].
    set (st0 := {| queue := rest; seen := seen st; collected := collected st |}).
    apply IH.
    + now apply round_seen_NoDup.
    + intros x Hx. apply round_seen in Hx. destruct Hx as [Hx | Hx]; [auto |].
      apply in_map_iff in Hx. destruct Hx as [d [<- Hd]].
      apply localDependents_In in Hd. apply in_map. tauto.
    + pose proof (round_length c (localDependents G n) (localDependents G n) st0 Hnd)
        as Hlen.
      unfold Walk.round in Hlen. simpl in Hlen, Hfuel. simpl. lia.
Qed.

(** ** In an acyclic graph the walk collects every transitive dependent *)


Hypothesis Hacyclic : acyclic G.

Lemma no_cycle_through n d :
  reaches (node_name n) -> In d (localDependents G n) ->
  node_name d <> node_name c.
Proof.
  intros Hn Hd Heq. pose proof (dependents_reach n d Hn Hd) as H.
  rewrite Heq in H. exact (Hacyclic _ H).
Qed.

Lemma no_sibling_cycle n :
  reaches (node_name n) ->
  mem (node_name c) (map node_name (localDependents G n)) = false.
Proof.
  intros Hn. apply mem_false. intros Hin.
  apply in_map_iff in Hin. destruct Hin as [d [Heq Hd]].
  exact (no_cycle_through n d Hn Hd Heq).
Qed.

Lemma walk_inv_step n rest sn cl :
  walk_inv {| queue := n :: rest; seen := sn; collected := cl |} ->
  walk_inv
    (round c (localDependents G n) (localDependents G n)
       {| queue := rest; seen := sn; collected := cl |}).
Proof.
  intros [Hnd Hseen Hq Hcoll Hclosed Hstart]. simpl in *.
  set (st0 := {| queue := rest; seen := sn; collected := cl |}).
  set (ds := localDependents G n).
  assert (Hn : reaches (node_name n)) by (apply Hq; now left).
  pose proof (no_sibling_cycle n Hn) as Hsib.
  pose proof (fun d => no_cycle_through n d Hn) as Hne.
  (* every dependent of [n] is seen after the round *)
  assert (Hdeps : forall d, depends_on G d (node_name n) -> In d (seen (round c ds ds st0))).
  { intros d Hd. apply depends_localDependents in Hd.
    destruct Hd as [m [Hm <-]]. apply round_seen. right. now apply in_map. }
  (* a name the round saw first is queued and collected *)
  assert (Hfresh : forall x, In x (seen (round c ds ds st0)) -> ~ In x sn ->
            (exists m, In m (queue (round c ds ds st0)) /\ node_name m = x) /\
            In x (collected (round c ds ds st0))).
  { intros x Hx Hnew. apply round_seen in Hx. simpl in Hx.
    destruct Hx as [Hx | Hx]; [tauto |].
    destruct (round_fresh c ds ds st0 x Hsib Hne Hx Hnew) as [[m [H1 [_ H2]]] H3].
    split; [exists m; auto | assumption]. }
  (* a pending name stays pending or is closed by this round *)
  assert (Hpending : forall x,
            (exists m, In m (n :: rest) /\ node_name m = x) ->
            (exists m, In m (queue (round c ds ds st0)) /\ node_name m = x) \/
            (forall d, depends_on G d x -> In d (seen (round c ds ds st0)))).
  { intros x [m [[<- | Hm] Hname]].
    - right. rewrite <- Hname. exact Hdeps.
    - left. exists m. split; [| assumption]. now apply round_queue_incl. }
  constructor.
  - now apply round_seen_NoDup.
  - intros x Hx. apply round_seen in Hx. simpl in Hx.
    destruct Hx as [Hx | Hx]; [auto |].
    apply in_map_iff in Hx. destruct Hx as [d [<- Hd]].
    apply localDependents_In in Hd. apply in_map. tauto.
  - intros m Hm. apply round_queue in Hm. simpl in Hm.
    destruct Hm as [Hm | Hm]; [apply Hq; now right |].
    right. eapply dependents_reach; eassumption.
  - intros x Hx. destruct (in_dec string_dec x sn) as [Hold | Hnew].
    + apply round_collected_incl. simpl. auto.
    + now apply Hfresh.
  - intros x Hx. destruct (in_dec string_dec x sn) as [Hold | Hnew].
    + destruct (Hclosed x Hold) as [Hp | Hc].
      * now apply Hpending.
      * right. intros d Hd. apply round_seen. left. simpl. auto.
    + left. now apply Hfresh.
  - destruct Hstart as [Hp | Hc].
    + now apply Hpending.
    + right. intros d Hd. apply round_seen. left. simpl. auto.
Qed.

Lemma closed_depends_trans (S : string -> Prop) a x :
  (forall d, depends_on G d a -> S d) ->
  (forall m d, S m -> depends_on G d m -> S d) ->
  depends_trans G x a -> S x.
Proof.
  intros Hs Hc. induction 1 as [b a Hd | b m a Hd Ht IH].
  - auto.
  - eapply Hc; [apply IH; assumption | exact Hd].
Qed.

Lemma walk_inv_closed st x :
  walk_inv st -> queue st = [] -> depends_trans G x (node_name c) ->
  In x (seen st).
Proof.
  intros [_ _ _ _ Hclosed Hstart] Hq.
  apply (closed_depends_trans (fun y => In y (seen st))).
  - destruct Hstart as [[n [Hn _]] | H]; [| exact H]. rewrite Hq in Hn. destruct Hn.
  - intros m d Hm Hd. destruct (Hclosed m Hm) as [[n [Hn _]] | Hc].
    + rewrite Hq in Hn. destruct Hn.
    + auto.
Qed.

Lemma bfs_inv fuel st : walk_inv st -> walk_inv (bfs G fuel c st).
Proof.
  revert st. induction fuel as [| fuel IH]; intros st H; simpl.
  - destruct (queue st); assumption.
  - destruct (queue st) as [| n rest] eqn:Eq; [assumption |].
    apply IH. apply walk_inv_step. destruct st; simpl in *. now subst.
Qed.

Lemma bfs_complete coll x :
  depends_trans G x (node_name c) ->
  In x (collected
          (bfs G (S (List.length G)) c
             {| queue := [c]; seen := []; collected := coll |})).
Proof.
  intros Hx.
  set (st := {| queue := [c]; seen := []; collected := coll |}).
  assert (Hinv : walk_inv st).
  { constructor; simpl.
    - constructor.
    - intros ? [].
    - intros n [<- | []]. now left.
    - intros ? [].
    - intros ? [].
    - left. exists c. auto. }
  pose proof (bfs_inv (S (List.length G)) st Hinv) as Hfinal.
  apply (inv_collected G c _ Hfinal).
  apply walk_inv_closed; [assumption | | assumption].
  apply bfs_done; simpl; [constructor | intros ? [] | lia].
Qed.

End WalkFacts.

Section CollectFacts.
Import Lerna Graph Walk.

Variable G : PackageGraph.

Lemma depends_trans_last x a :
  depends_trans G x a -> exists m, depends_on G m a.
Proof. induction 1 as [b a H | b m a _ _ IH]; [now exists b | exact IH]. Qed.

Local Abbreviation step := (Walk.step G).

Lemma step_sound coll c x :
  In x (step coll c) -> In x coll \/ depends_trans G x (node_name c).
Proof.
  unfold Walk.step. destruct (localDependents G c); [auto |].
  intros H.
  apply (bfs_sound G c coll (S (List.length G))
           {| queue := [c]; seen := []; collected := coll |}); [| exact H].
  split; simpl.
  - intros n [<- | []]. now left.
  - auto.
Qed.

Lemma step_incl coll c x : In x coll -> In x (step coll c).
Proof.
  unfold Walk.step. destruct (localDependents G c); [auto |].
  intros H. apply bfs_collected_incl. exact H.
Qed.

Lemma step_complete coll c x :
  acyclic G -> depends_trans G x (node_name c) -> In x (step coll c).
Proof.
  intros Hacyclic Hx. unfold Walk.step.
  destruct (localDependents G c) eqn:E.
  - exfalso. destruct (depends_trans_last _ _ Hx) as [m Hm].
    apply depends_localDependents in Hm. destruct Hm as [d [Hd _]].
    rewrite E in Hd. destruct Hd.
  - now apply bfs_complete.
Qed.

Lemma collect_fold_sound nodes coll x :
  In x (fold_left step nodes coll) ->
  In x coll \/ exists c, In c nodes /\ depends_trans G x (node_name c).
Proof.
  revert coll. induction nodes as [| c nodes IH]; simpl; intros coll H.
  - now left.
  - destruct (IH _ H) as [Hs | [c' [Hc' Hd]]].
    + apply step_sound in Hs. destruct Hs; [now left | right; exists c; auto].
    + right. exists c'. auto.
Qed.

Lemma collect_fold_incl nodes coll x :
  In x coll -> In x (fold_left step nodes coll).
Proof.
  revert coll. induction nodes as [| c nodes IH]; simpl; intros coll H.
  - assumption.
  - apply IH. now apply step_incl.
Qed.

(** Only transitive dependents of the given nodes are collected. *)
Lemma collectDependents_sound nodes x :
  In x (collectDependents G nodes) ->
  exists c, In c nodes /\ depends_trans G x (node_name c).
Proof.
  intros H. apply collect_fold_sound in H. destruct H as [[] | H]. exact H.
Qed.

(** In an acyclic graph every transitive dependent is collected. *)
Lemma collectDependents_complete nodes c x :
  acyclic G -> In c nodes -> depends_trans G x (node_name c) ->
  In x (collectDependents G nodes).
Proof.
  intros Hacyclic Hc Hx. unfold collectDependents. fold (Walk.step G).
  generalize (@nil string) as coll.
  induction nodes as [| c' nodes IH]; simpl; intros coll; [destruct Hc |].
  destruct Hc as [-> | Hc].
  - apply collect_fold_incl. now apply step_complete.
  - now apply IH.
Qed.

Lemma collectPackages_In isCand n :
  In n (collectPackages G isCand) <->
  In n G /\
  (isCand n = true \/
   In (node_name n) (collectDependents G (filter isCand G))).
Proof.
  unfold collectPackages. rewrite filter_In, orb_true_iff, mem_In. tauto.
Qed.

End CollectFacts.

(* ================================================================== *)
(** * Facts about [Package] updates *)
(* ================================================================== *)

Section PackageFacts.
Import Lerna Propagation.


Lemma specs_dep_spec p p' d : specs p' d = specs p d -> dep_spec p' d = dep_spec p d.
Proof.
  unfold specs, dep_spec, depCollection, collection_of, lacks.
  destruct p as [[n v d1 d2 d3] l], p' as [[n' v' d1' d2' d3'] l']; simpl.
  intros H. inversion H as [[H1 H2 H3]]. clear H.
  destruct d1, d1'; simpl in H1; try discriminate;
  destruct d2, d2'; simpl in H2; try discriminate;
  destruct d3, d3'; simpl in H3; try discriminate;
  repeat match goal with
         | H : Some _ = Some _ |- _ => inversion H; clear H
         end;
  repeat match goal with
         | |- context [truthy ?x] => destruct (truthy x) eqn:?
         end;
  simpl; congruence.
Qed.

Lemma set_version_specs p v d : specs (set_version p v) d = specs p d.
Proof. reflexivity. Qed.

Lemma write_spec_defined p d s :
  truthy (dep_spec p d) = true -> exists p', write_spec p d s = Some p'.
Proof.
  unfold dep_spec, write_spec.
  destruct (collection_of p (depCollection p d)); [eauto | discriminate].
Qed.

Lemma write_spec_frame p d s p' :
  write_spec p d s = Some p' ->
  pkg_name p' = pkg_name p /\ pkg_location p' = pkg_location p /\
  pkg_version p' = pkg_version p /\
  forall d', d' <> d -> specs p' d' = specs p d'.
Proof.
  unfold write_spec.
  destruct (collection_of p (depCollection p d)) as [c |] eqn:E; [| discriminate].
  intros [= <-]. repeat split.
  intros d' Hne. unfold specs, with_collection.
  destruct (depCollection p d); simpl in *; rewrite E; simpl;
    rewrite get_set_other by assumption; reflexivity.
Qed.

Lemma write_spec_same p d s p' :
  write_spec p d s = Some p' -> s <> "" -> dep_spec p' d = Some s.
Proof.
  unfold write_spec.
  destruct (collection_of p (depCollection p d)) as [c |] eqn:E; [| discriminate].
  intros [= <-] Hs. apply String.eqb_neq in Hs.
  unfold dep_spec, depCollection, with_collection, collection_of, lacks in *.
  destruct p as [[n v d1 d2 d3] l]; simpl in *.
  destruct d1 as [m1 |]; simpl in *.
  - destruct (truthy (JsMap.get m1 d)) eqn:T1; simpl in *.
    + inversion E; subst. rewrite get_set_same. simpl. rewrite Hs. simpl.
      now rewrite get_set_same.
    + destruct d2 as [m2 |]; simpl in *.
      * destruct (truthy (JsMap.get m2 d)) eqn:T2; simpl in *.
        -- inversion E; subst. rewrite T1. simpl. rewrite get_set_same. simpl.
           rewrite Hs. simpl. now rewrite get_set_same.
        -- subst. rewrite T1, T2. simpl. now rewrite get_set_same.
      * subst. rewrite T1. simpl. now rewrite get_set_same.
  - destruct d2 as [m2 |]; simpl in *.
    + destruct (truthy (JsMap.get m2 d)) eqn:T2; simpl in *.
      * inversion E; subst. rewrite get_set_same. simpl. rewrite Hs. simpl.
        now rewrite get_set_same.
      * subst. rewrite T2. simpl. now rewrite get_set_same.
    + subst. simpl. now rewrite get_set_same.
Qed.

Variable hosted_toString : Resolved -> string -> string.

Lemma updateLocalDependency_defined p r v pre :
  truthy (dep_spec p (r_name r)) = true ->
  exists p', updateLocalDependency hosted_toString p r v pre = Some p'.
Proof.
  intros H. unfold updateLocalDependency.
  destruct (r_registry r || is_directory (r_type r));
    [now apply write_spec_defined |].
  destruct (r_gitCommittish r) as [c |].
  - destruct (truthy (Some c)); [now apply write_spec_defined |].
    destruct (truthy (r_gitRange r)); [now apply write_spec_defined | eauto].
  - destruct (truthy (r_gitRange r)); [now apply write_spec_defined | eauto].
Qed.

Lemma updateLocalDependency_frame p r v pre p' :
  updateLocalDependency hosted_toString p r v pre = Some p' ->
  pkg_name p' = pkg_name p /\ pkg_location p' = pkg_location p /\
  pkg_version p' = pkg_version p /\
  forall d', d' <> r_name r -> specs p' d' = specs p d'.
Proof.
  unfold updateLocalDependency.
  assert (Hid : Some p = Some p' ->
    pkg_name p' = pkg_name p /\ pkg_location p' = pkg_location p /\
    pkg_version p' = pkg_version p /\
    forall d', d' <> r_name r -> specs p' d' = specs p d').
  { intros [= <-]. auto. }
  destruct (r_registry r || is_directory (r_type r));
    [apply write_spec_frame |].
  destruct (r_gitCommittish r) as [c |].
  - destruct (truthy (Some c)); [apply write_spec_frame |].
    destruct (truthy (r_gitRange r)); [apply write_spec_frame | exact Hid].
  - destruct (truthy (r_gitRange r)); [apply write_spec_frame | exact Hid].
Qed.

Lemma updateLocalDependency_registry p r v pre p' :
  updateLocalDependency hosted_toString p r v pre = Some p' ->
  r_registry r = true -> (pre ++ v)%string <> "" ->
  dep_spec p' (r_name r) = Some (pre ++ v)%string.
Proof.
  unfold updateLocalDependency. intros H Hr Hs. rewrite Hr in H. simpl in H.
  eapply write_spec_same; eassumption.
Qed.

End PackageFacts.

(* ================================================================== *)
(** * Facts about [runLernaVersion] *)
(* ================================================================== *)

Section WorkspaceFacts.
Import Lerna Graph NodeWorkspace Propagation.

Variable semver_inc_patch : option string -> option string.
Variable hosted_toString : Resolved -> string -> string.
Variable runOrder : list Package -> list Package.

Local Abbreviation new_version := (Propagation.new_version semver_inc_patch).

Lemma computeVersions_spec rp us :
  NoDup (map node_name us) ->
  (forall n, In n us ->
     JsMap.get (updatesVersions (computeVersions semver_inc_patch rp us))
       (node_name n) = new_version rp n) /\
  (forall x,
     In x (invalidVersions (computeVersions semver_inc_patch rp us)) <->
     exists n, In n us /\ node_name n = x /\ new_version rp n = None) /\
  (forall x, ~ In x (map node_name us) ->
     JsMap.get (updatesVersions (computeVersions semver_inc_patch rp us)) x = None).
Proof.
  unfold computeVersions.
  induction us as [| n us IH] using rev_ind; intros Hnd.
  - simpl. repeat split; try tauto.
    intros [n [[] _]].
  - rewrite map_app in Hnd. simpl in Hnd.
    apply NoDup_remove in Hnd. rewrite app_nil_r in Hnd.
    destruct Hnd as [Hnd Hnew]. specialize (IH Hnd).
    destruct IH as [IHa [IHb IHc]].
    rewrite fold_left_app. simpl.
    set (acc := fold_left (computeVersion semver_inc_patch rp) us _) in *.
    assert (Hn : new_version rp n =
                 if JsMap.has rp (node_location n) then Some (node_version n)
                 else match semver_inc_patch (node_version n) with
                      | Some patch => Some (Some patch)
                      | None => None
                      end) by reflexivity.
    unfold computeVersion.
    destruct (JsMap.has rp (node_location n)) eqn:Ec;
      [| destruct (semver_inc_patch (node_version n)) as [patch |] eqn:Ei];
      simpl; repeat split.
    (* directly updated *)
    + intros m Hm. apply in_app_iff in Hm. destruct Hm as [Hm | [<- | []]].
      * rewrite get_set_other; [auto |].
        intros Heq. apply Hnew. rewrite <- Heq. now apply in_map.
      * now rewrite get_set_same.
    + intros Hx. apply IHb in Hx. destruct Hx as [m [Hm Hrest]].
      exists m. split; [apply in_app_iff; now left | assumption].
    + intros [m [Hm [Hname Hv]]]. apply in_app_iff in Hm.
      destruct Hm as [Hm | [<- | []]]; [apply IHb; eauto | congruence].
    + intros x Hx. rewrite map_app, in_app_iff in Hx. simpl in Hx.
      rewrite get_set_other; [apply IHc; tauto | intros ->; tauto].
    (* patch bump *)
    + intros m Hm. apply in_app_iff in Hm. destruct Hm as [Hm | [<- | []]].
      * rewrite get_set_other; [auto |].
        intros Heq. apply Hnew. rewrite <- Heq. now apply in_map.
      * now rewrite get_set_same.
    + intros Hx. apply IHb in Hx. destruct Hx as [m [Hm Hrest]].
      exists m. split; [apply in_app_iff; now left | assumption].
    + intros [m [Hm [Hname Hv]]]. apply in_app_iff in Hm.
      destruct Hm as [Hm | [<- | []]]; [apply IHb; eauto | congruence].
    + intros x Hx. rewrite map_app, in_app_iff in Hx. simpl in Hx.
      rewrite get_set_other; [apply IHc; tauto | intros ->; tauto].
    (* no patch increment *)
    + intros m Hm. apply in_app_iff in Hm. destruct Hm as [Hm | [<- | []]].
      * auto.
      * rewrite Hn. now apply IHc.
    + intros Hx. apply set_add_In in Hx. destruct Hx as [-> | Hx].
      * exists n. split; [apply in_app_iff; right; now left | auto].
      * apply IHb in Hx. destruct Hx as [m [Hm Hrest]].
        exists m. split; [apply in_app_iff; now left | assumption].
    + intros [m [Hm [Hname Hv]]]. apply set_add_In. apply in_app_iff in Hm.
      destruct Hm as [Hm | [<- | []]]; [right; apply IHb; eauto | now left].
    + intros x Hx. rewrite map_app, in_app_iff in Hx. apply IHc. tauto.
Qed.

(** ** The runner *)

Lemma updateDependency_step uv p d0 r0 :
  r_name r0 = d0 -> truthy (dep_spec p d0) = true ->
  exists p1,
    updateDependency hosted_toString uv (Some p) (d0, r0) = Some p1 /\
    pkg_name p1 = pkg_name p /\ pkg_location p1 = pkg_location p /\
    pkg_version p1 = pkg_version p /\
    (forall d', d' <> d0 -> specs p1 d' = specs p d') /\
    (is_directory (r_type r0) = true \/ truthy (lookup uv d0) = false -> p1 = p) /\
    (forall v, r_registry r0 = true -> is_directory (r_type r0) = false ->
       lookup uv d0 = Some v -> v <> "" ->
       dep_spec p1 d0 = Some ("^" ++ v)%string).
Proof.
  intros Hname Hspec. unfold updateDependency. cbn [obind].
  destruct (lookup uv d0) as [v0 |] eqn:El.
  - destruct (truthy (Some v0)) eqn:Et; cbn [andb].
    + destruct (is_directory (r_type r0)) eqn:Ed; cbn [negb].
      * exists p. do 5 (split; [auto |]). split; [auto |]. intros; congruence.
      * rewrite <- Hname in Hspec.
        destruct (updateLocalDependency_defined hosted_toString p r0 v0 "^" Hspec)
          as [p1 Hp1].
        pose proof (updateLocalDependency_frame _ _ _ _ _ _ Hp1) as [F1 [F2 [F3 F4]]].
        exists p1. rewrite Hname in F4. repeat split; auto.
        -- intros [H | H]; congruence.
        -- intros v Hr _ [= <-] Hv. rewrite <- Hname.
           eapply updateLocalDependency_registry; eauto. discriminate.
    + exists p. do 5 (split; [auto |]). split; [auto |].
      intros v _ _ [= <-] Hv. simpl in Et. apply String.eqb_neq in Hv.
      rewrite Hv in Et. discriminate.
  - exists p. do 5 (split; [auto |]). split; [auto |]. intros; discriminate.
Qed.

Lemma updateDependencies_spec uv edges :
  forall p,
  NoDup (JsMap.keys edges) ->
  (forall d r, In (d, r) edges ->
     r_name r = d /\ truthy (dep_spec p d) = true) ->
  exists p',
    fold_left (updateDependency hosted_toString uv) edges (Some p) = Some p' /\
    pkg_name p' = pkg_name p /\ pkg_location p' = pkg_location p /\
    pkg_version p' = pkg_version p /\
    (forall d,
       (forall r, In (d, r) edges ->
          is_directory (r_type r) = true \/ truthy (lookup uv d) = false) ->
       specs p' d = specs p d) /\
    (forall d r v, In (d, r) edges ->
       r_registry r = true -> is_directory (r_type r) = false ->
       lookup uv d = Some v -> v <> "" ->
       dep_spec p' d = Some ("^" ++ v)%string).
Proof.
  induction edges as [| [d0 r0] es IH]; intros p Hnd Hwf.
  - exists p. simpl. repeat split; auto. intros ? ? ? [].
  - simpl in Hnd. apply NoDup_cons_iff in Hnd. destruct Hnd as [Hnotin Hnd'].
    destruct (Hwf d0 r0 (or_introl eq_refl)) as [Hname Hspec].
    destruct (updateDependency_step uv p d0 r0 Hname Hspec)
      as [p1 [Hp1 [N1 [L1 [V1 [F1 [Hnoop Hcaret]]]]]]].
    assert (Hother : forall d r, In (d, r) es -> d <> d0).
    { intros d r Hin ->. apply Hnotin. apply (in_map fst) in Hin. exact Hin. }
    destruct (IH p1 Hnd') as [p' [Hp' [N' [L' [V' [F' C']]]]]].
    { intros d r Hin. destruct (Hwf d r (or_intror Hin)) as [Hn Hs].
      split; [assumption |].
      rewrite (specs_dep_spec p p1 d); [assumption |].
      apply F1. eapply Hother; eassumption. }
    exists p'. cbn [fold_left]. rewrite Hp1.
    split; [exact Hp' |].
    repeat split; try congruence.
    + intros d Hd. destruct (String.eqb_spec d d0) as [-> | Hne].
      * rewrite F'.
        -- rewrite (Hnoop (Hd r0 (or_introl eq_refl))). reflexivity.
        -- intros r Hin. exfalso. eapply Hother; eauto.
      * rewrite F'; [now apply F1 |].
        intros r Hin. apply Hd. now right.
    + intros d r v [Heq | Hin] Hr Hdir Hl Hv.
      * injection Heq as <- <-.
        rewrite (specs_dep_spec p1 p' d0).
        -- now apply Hcaret.
        -- apply F'. intros r' Hin. exfalso. eapply Hother; eauto.
      * eapply C'; eauto.
Qed.

(** [runner] on the package of a graph node: it returns, sets the computed
    version, leaves directory edges alone and rewrites registry edges whose
    target has a computed version. *)
Lemma runner_spec G uv n :
  wf_graph G = true -> In n G ->
  exists p,
    runner hosted_toString G uv (node_pkg n) = Some p /\
    pkg_name p = node_name n /\ pkg_location p = node_location n /\
    pkg_version p = lookup uv (node_name n) /\
    (forall d r, In (d, r) (localDependencies n) ->
       is_directory (r_type r) = true \/ truthy (lookup uv d) = false ->
       specs p d = specs (node_pkg n) d) /\
    (forall d r v, In (d, r) (localDependencies n) ->
       r_registry r = true -> is_directory (r_type r) = false ->
       lookup uv d = Some v -> v <> "" ->
       dep_spec p d = Some ("^" ++ v)%string).
Proof.
  intros Hwf Hin.
  pose proof (wf_graph_node G n Hwf Hin) as Hnode.
  pose proof (wf_node_keys G n Hnode) as Hkeys.
  set (p0 := set_version (node_pkg n) (lookup uv (pkg_name (node_pkg n)))).
  destruct (updateDependencies_spec uv (localDependencies n) p0 Hkeys)
    as [p [Hp [N [L [V [F C]]]]]].
  { intros d r Hd. destruct (wf_node_edge G n d r Hnode Hd) as [H1 [_ H3]].
    split; [assumption |].
    rewrite (specs_dep_spec (node_pkg n) p0 d); [assumption | reflexivity]. }
  exists p. unfold runner. fold p0.
  change (pkg_name p0) with (node_name n).
  rewrite (graph_get_In G n (wf_graph_names G Hwf) Hin). simpl.
  repeat split; auto.
  intros d r Hd Hdir. rewrite F; [reflexivity |].
  intros r' Hd'.
  pose proof (get_NoDup _ _ _ Hkeys Hd) as H1.
  pose proof (get_NoDup _ _ _ Hkeys Hd') as H2.
  assert (r' = r) by congruence. subst. exact Hdir.
Qed.

Hypothesis runOrder_perm : forall l, Permutation (runOrder l) l.

(** [runLernaVersion] returns, and its result holds exactly the packages of
    the update set that have a computed version, each as its runner left
    it. *)
Lemma runLernaVersion_spec rp G :
  wf_graph G = true -> NoDup (map node_location G) ->
  exists out,
    runLernaVersion semver_inc_patch hosted_toString runOrder rp G = Some out /\
    NoDup (JsMap.keys out) /\
    forall loc p,
      JsMap.get out loc = Some p <->
      exists n,
        In n (collectPackages G (isCandidate rp)) /\
        new_version rp n <> None /\
        node_location n = loc /\
        runner hosted_toString G
          (updatesVersions
             (computeVersions semver_inc_patch rp
                (collectPackages G (isCandidate rp))))
          (node_pkg n) = Some p.
Proof.
  intros Hwf Hloc. unfold runLernaVersion.
  set (us := collectPackages G (isCandidate rp)).
  set (vs := computeVersions semver_inc_patch rp us).
  set (keep := fun node : PackageGraphNode =>
                 negb (mem (node_name node) (invalidVersions vs))).
  assert (Hus : forall n, In n us -> In n G).
  { intros n Hn. apply collectPackages_In in Hn. tauto. }
  assert (Hnames : NoDup (map node_name us)).
  { apply NoDup_map_filter. now apply wf_graph_names. }
  destruct (computeVersions_spec rp us Hnames) as [_ [Hinvalid _]]. fold vs in Hinvalid.
  assert (Hkeep : forall n, In n (filter keep us) <->
                    In n us /\ new_version rp n <> None).
  { intros n. rewrite filter_In. unfold keep. rewrite negb_true_iff, mem_false.
    rewrite Hinvalid. split; intros [Hn H]; (split; [assumption |]).
    - intros Hv. apply H. exists n. auto.
    - intros [m [Hm [Hname Hv]]].
      assert (m = n) by (eapply NoDup_map_eq; eauto). subst. auto. }
  set (run := runner hosted_toString G (updatesVersions vs)).
  assert (Hrun : forall x, In x (runOrder (map node_pkg (filter keep us))) ->
            exists n, In n (filter keep us) /\ x = node_pkg n).
  { intros x Hx. apply (Permutation_in _ (runOrder_perm _)) in Hx.
    apply in_map_iff in Hx. destruct Hx as [n [<- Hn]]. eauto. }
  unfold runTopologically.
  destruct (omapM_Some run (runOrder (map node_pkg (filter keep us)))) as [all Hall].
  { intros x Hx. destruct (Hrun x Hx) as [n [Hn ->]].
    apply Hkeep in Hn.
    destruct (runner_spec G (updatesVersions vs) n Hwf (Hus n (proj1 Hn)))
      as [p [Hp _]].
    now exists p. }
  fold run. rewrite Hall. simpl. eexists. split; [reflexivity |].
  split; [apply of_entries_NoDup |].
  assert (Hlocs : map fst (map (fun p => (pkg_location p, p)) all)
                  = map pkg_location (runOrder (map node_pkg (filter keep us)))).
  { rewrite map_map. simpl.
    apply (omapM_map_fst run pkg_location pkg_location _ _); [| exact Hall].
    intros x y Hx Hy. destruct (Hrun x Hx) as [n [Hn ->]].
    apply Hkeep in Hn.
    destruct (runner_spec G (updatesVersions vs) n Hwf (Hus n (proj1 Hn)))
      as [p [Hp [_ [L _]]]].
    unfold run in Hy. rewrite Hp in Hy. inversion Hy; subst. exact L. }
  assert (Hnd : NoDup (map fst (map (fun p => (pkg_location p, p)) all))).
  { rewrite Hlocs.
    eapply Permutation_NoDup.
    - apply Permutation_sym. apply Permutation_map. apply runOrder_perm.
    - rewrite map_map. change (fun x => pkg_location (node_pkg x)) with node_location.
      apply NoDup_map_filter. apply NoDup_map_filter. exact Hloc. }
  intros loc p. split.
  - intros Hget. apply get_In in Hget. apply of_entries_In in Hget.
    apply in_map_iff in Hget. destruct Hget as [q [Heq Hq]].
    inversion Heq; subst q loc. clear Heq.
    apply (omapM_In run _ _ Hall) in Hq. destruct Hq as [x [Hx Hp]].
    destruct (Hrun x Hx) as [n [Hn ->]].
    apply Hkeep in Hn. destruct Hn as [Hn Hv].
    exists n. repeat split; auto.
    destruct (runner_spec G (updatesVersions vs) n Hwf (Hus n Hn))
      as [p' [Hp' [_ [L _]]]].
    unfold run in Hp. rewrite Hp' in Hp. inversion Hp; subst. now symmetry.
  - intros [n [Hn [Hv [Hl Hp]]]].
    assert (Hin : In p all).
    { apply (omapM_In run _ _ Hall). exists (node_pkg n). split; [| exact Hp].
      apply (Permutation_in _ (Permutation_sym (runOrder_perm _))).
      apply in_map. apply Hkeep. auto. }
    destruct (runner_spec G (updatesVersions vs) n Hwf (Hus n Hn))
      as [p' [Hp' [_ [L _]]]].
    unfold run in Hp. rewrite Hp' in Hp. inversion Hp; subst p'.
    apply of_entries_get; [exact Hnd |].
    apply in_map_iff. exists p. split; [| exact Hin].
    f_equal. congruence.
Qed.

End WorkspaceFacts.

(* ================================================================== *)
(** * The propagation pass: claims *)
(* ================================================================== *)

Section PropagationClaims.
Import Lerna Graph NodeWorkspace Propagation.

Variable semver_inc_patch : option string -> option string.
Variable hosted_toString : Resolved -> string -> string.
Variable runOrder : list Package -> list Package.

Local Abbreviation updateSet rp G := (collectPackages G (isCandidate rp)).
Local Abbreviation versionsOf rp G :=
  (updatesVersions (computeVersions semver_inc_patch rp (updateSet rp G))).
Local Abbreviation run rp G :=
  (runLernaVersion semver_inc_patch hosted_toString runOrder rp G).
Local Abbreviation newVersion := (new_version semver_inc_patch).

Lemma updateSet_names rp G :
  wf_graph G = true -> NoDup (map node_name (updateSet rp G)).
Proof. intros H. apply NoDup_map_filter. now apply wf_graph_names. Qed.

Lemma lookup_new_version rp G D v :
  wf_graph G = true -> In D (updateSet rp G) -> newVersion rp D = Some v ->
  lookup (versionsOf rp G) (node_name D) = v.
Proof.
  intros Hwf HD Hv.
  destruct (computeVersions_spec semver_inc_patch rp _ (updateSet_names rp G Hwf))
    as [Hget _].
  unfold lookup. rewrite (Hget D HD), Hv. reflexivity.
Qed.

Lemma lookup_invalid rp G D :
  wf_graph G = true -> In D (updateSet rp G) -> newVersion rp D = None ->
  lookup (versionsOf rp G) (node_name D) = None.
Proof.
  intros Hwf HD Hv.
  destruct (computeVersions_spec semver_inc_patch rp _ (updateSet_names rp G Hwf))
    as [Hget _].
  unfold lookup. rewrite (Hget D HD), Hv. reflexivity.
Qed.

Lemma dependents_in_updateSet rp G A B :
  acyclic G -> In A G -> isCandidate rp A = true -> In B G ->
  depends_trans G (node_name B) (node_name A) ->
  In B (updateSet rp G).
Proof.
  intros Hacyclic HA HcA HB Hdep. apply collectPackages_In. split; [assumption |].
  right. apply (collectDependents_complete G _ A); auto.
  apply filter_In. auto.
Qed.

Lemma updateSet_reaches rp G n :
  In n (updateSet rp G) ->
  isCandidate rp n = true \/
  exists c, In c G /\ isCandidate rp c = true /\
            depends_trans G (node_name n) (node_name c).
Proof.
  intros Hn. apply collectPackages_In in Hn. destruct Hn as [_ [Hc | Hd]].
  - now left.
  - right. apply collectDependents_sound in Hd. destruct Hd as [c [Hc Hd]].
    apply filter_In in Hc. exists c. tauto.
Qed.

(** What the runner leaves of a node of the update set with a computed
    version. *)
Lemma processed_node rp G n v :
  wf_graph G = true -> In n (updateSet rp G) -> newVersion rp n = Some v ->
  exists p,
    runner hosted_toString G (versionsOf rp G) (node_pkg n) = Some p /\
    pkg_name p = node_name n /\ pkg_location p = node_location n /\
    pkg_version p = v /\
    (forall d r, In (d, r) (localDependencies n) ->
       r_type r = TDirectory -> specs p d = specs (node_pkg n) d) /\
    (forall D r, In (node_name D, r) (localDependencies n) ->
       In D (updateSet rp G) -> newVersion rp D = None ->
       specs p (node_name D) = specs (node_pkg n) (node_name D)) /\
    (forall D r vD, In (node_name D, r) (localDependencies n) ->
       In D (updateSet rp G) -> newVersion rp D = Some (Some vD) -> vD <> "" ->
       r_registry r = true -> r_type r <> TDirectory ->
       dep_spec p (node_name D) = Some ("^" ++ vD)%string).
Proof.
  intros Hwf Hn Hv.
  assert (HG : In n G) by (apply collectPackages_In in Hn; tauto).
  destruct (runner_spec hosted_toString G (versionsOf rp G) n Hwf HG)
    as [p [Hp [N [L [V [F C]]]]]].
  exists p. repeat split; auto.
  - rewrite V. now apply lookup_new_version.
  - intros d r Hd Hdir. apply (F d r Hd). left. now rewrite Hdir.
  - intros D r Hd HD HvD. apply (F _ r Hd). right.
    now rewrite (lookup_invalid rp G D Hwf HD HvD).
  - intros D r vD Hd HD HvD Hne Hreg Hdir. apply (C _ r vD Hd Hreg).
    + destruct (r_type r); try reflexivity. congruence.
    + now apply lookup_new_version.
    + assumption.
Qed.

(** C1.  In the propagation pass over an acyclic workspace graph, every
    package [B] that is not directly updated, depends (through one or more
    local edges) on a directly updated package [A] and has a previous version
    with a patch increment [vB], is in the output at exactly [vB]; and each of
    its registry (non-directory) local dependencies whose target [D] is in
    the update set with computed version [vD] -- [A] itself in particular --
    reads [^vD] afterwards. *)
Theorem C1_dependent_patch_bump_and_caret_rewrite
  (rp : PathPkgJson) (G : PackageGraph) (A B : PackageGraphNode) (vB : string) :
  (forall l, Permutation (runOrder l) l) ->
  wf_graph G = true -> distinct_locations G = true -> acyclic G ->
  In A G -> isCandidate rp A = true ->
  In B G -> isCandidate rp B = false ->
  depends_trans G (node_name B) (node_name A) ->
  semver_inc_patch (node_version B) = Some vB ->
  exists out pB,
    run rp G = Some out /\
    JsMap.get out (node_location B) = Some pB /\
    pkg_name pB = node_name B /\
    pkg_version pB = Some vB /\
    (newVersion rp A = Some (node_version A) /\ In A (updateSet rp G)) /\
    forall D r vD,
      In (node_name D, r) (localDependencies B) ->
      In D (updateSet rp G) -> newVersion rp D = Some (Some vD) -> vD <> "" ->
      r_registry r = true -> r_type r <> TDirectory ->
      dep_spec pB (node_name D) = Some ("^" ++ vD)%string.
Proof.
  intros Hperm Hwf Hloc Hacyclic HA HcA HB HcB Hdep Hinc.
  destruct (runLernaVersion_spec semver_inc_patch hosted_toString runOrder Hperm
              rp G Hwf (distinct_locations_NoDup G Hloc))
    as [out [Hout [_ Hspec]]].
  assert (HBin : In B (updateSet rp G))
    by (apply (dependents_in_updateSet rp G A B); assumption).
  assert (HvB : newVersion rp B = Some (Some vB)).
  { unfold Propagation.new_version. now rewrite HcB, Hinc. }
  destruct (processed_node rp G B (Some vB) Hwf HBin HvB)
    as [pB [Hrun [N [L [V [_ [_ C]]]]]]].
  exists out, pB. repeat split; auto.
  - apply Hspec. exists B. repeat split; auto. congruence.
  - unfold Propagation.new_version. now rewrite HcA.
  - apply collectPackages_In. auto.
Qed.

(** C6.  A package that is not directly updated and has no path of local
    dependency edges to any directly updated package is absent from the
    propagation output: no entry is keyed by its location and no emitted
    package bears its name. *)
Theorem C6_unreachable_package_absent_from_output
  (rp : PathPkgJson) (G : PackageGraph) (n : PackageGraphNode) :
  (forall l, Permutation (runOrder l) l) ->
  wf_graph G = true -> distinct_locations G = true ->
  In n G -> isCandidate rp n = false ->
  (forall c, In c G -> isCandidate rp c = true ->
     ~ depends_trans G (node_name n) (node_name c)) ->
  exists out,
    run rp G = Some out /\
    JsMap.get out (node_location n) = None /\
    forall loc p, In (loc, p) out ->
      loc <> node_location n /\ pkg_name p <> node_name n.
Proof.
  intros Hperm Hwf Hloc Hn Hc Hpath.
  destruct (runLernaVersion_spec semver_inc_patch hosted_toString runOrder Hperm
              rp G Hwf (distinct_locations_NoDup G Hloc))
    as [out [Hout [Hkeys Hspec]]].
  assert (Hnot : ~ In n (updateSet rp G)).
  { intros Hin. apply updateSet_reaches in Hin.
    destruct Hin as [Hin | [c [H1 [H2 H3]]]]; [congruence |].
    exact (Hpath c H1 H2 H3). }
  assert (Habsent : forall loc p, JsMap.get out loc = Some p ->
            loc <> node_location n /\ pkg_name p <> node_name n).
  { intros loc p Hget. apply Hspec in Hget.
    destruct Hget as [m [Hm [Hv [Hl Hrun]]]].
    assert (HmG : In m G) by (apply collectPackages_In in Hm; tauto).
    destruct (runner_spec hosted_toString G (versionsOf rp G) m Hwf HmG)
      as [p' [Hp' [N _]]].
    rewrite Hp' in Hrun. inversion Hrun; subst p'.
    split.
    - intros Heq. apply Hnot.
      assert (m = n); [| now subst].
      eapply NoDup_map_eq; [apply (distinct_locations_NoDup G Hloc) | | |]; eauto.
      congruence.
    - intros Heq. apply Hnot.
      assert (m = n); [| now subst].
      eapply NoDup_map_eq; [apply (wf_graph_names G Hwf) | | |]; eauto.
      congruence. }
  exists out. repeat split; auto.
  - destruct (JsMap.get out (node_location n)) as [p |] eqn:E; [| reflexivity].
    destruct (Habsent _ _ E) as [H _]. congruence.
  - apply (Habsent loc p). now apply get_NoDup.
  - apply (Habsent loc p). now apply get_NoDup.
Qed.

(** C7.  A package of the update set that is not directly updated and whose
    previous version has no patch increment is recorded as invalid, gets no
    entry in the computed versions and none in the output; every other
    package of the update set is in the output at its computed version, with
    its registry dependencies on updated packages rewritten and its edges to
    the invalid package left as they were. *)
Theorem C7_invalid_version_is_isolated
  (rp : PathPkgJson) (G : PackageGraph) (bad : PackageGraphNode) :
  (forall l, Permutation (runOrder l) l) ->
  wf_graph G = true -> distinct_locations G = true ->
  In bad (updateSet rp G) -> isCandidate rp bad = false ->
  semver_inc_patch (node_version bad) = None ->
  In (node_name bad)
    (invalidVersions (computeVersions semver_inc_patch rp (updateSet rp G))) /\
  JsMap.get (versionsOf rp G) (node_name bad) = None /\
  exists out,
    run rp G = Some out /\
    JsMap.get out (node_location bad) = None /\
    forall n v, In n (updateSet rp G) -> newVersion rp n = Some v ->
      exists p,
        JsMap.get out (node_location n) = Some p /\
        pkg_name p = node_name n /\ pkg_version p = v /\
        (forall r, In (node_name bad, r) (localDependencies n) ->
           specs p (node_name bad) = specs (node_pkg n) (node_name bad)) /\
        (forall D r vD, In (node_name D, r) (localDependencies n) ->
           In D (updateSet rp G) -> newVersion rp D = Some (Some vD) ->
           vD <> "" -> r_registry r = true -> r_type r <> TDirectory ->
           dep_spec p (node_name D) = Some ("^" ++ vD)%string).
Proof.
  intros Hperm Hwf Hloc Hbad Hc Hinc.
  assert (Hv : newVersion rp bad = None).
  { unfold Propagation.new_version. now rewrite Hc, Hinc. }
  destruct (computeVersions_spec semver_inc_patch rp _ (updateSet_names rp G Hwf))
    as [Hget [Hinvalid _]].
  destruct (runLernaVersion_spec semver_inc_patch hosted_toString runOrder Hperm
              rp G Hwf (distinct_locations_NoDup G Hloc))
    as [out [Hout [Hkeys Hspec]]].
  split; [apply Hinvalid; exists bad; auto |].
  split; [rewrite (Hget bad Hbad); exact Hv |].
  exists out. split; [exact Hout |]. split.
  - destruct (JsMap.get out (node_location bad)) as [p |] eqn:E; [| reflexivity].
    apply Hspec in E. destruct E as [m [Hm [Hvm [Hl _]]]].
    assert (m = bad); [| subst; congruence].
    apply (NoDup_map_eq node_location G); auto.
    + now apply distinct_locations_NoDup.
    + apply collectPackages_In in Hm. tauto.
    + apply collectPackages_In in Hbad. tauto.
  - intros n v Hn Hvn.
    destruct (processed_node rp G n v Hwf Hn Hvn)
      as [p [Hrun [N [L [V [_ [Finv C]]]]]]].
    exists p. repeat split; auto.
    + apply Hspec. exists n. repeat split; auto. congruence.
    + intros r Hr. now apply (Finv bad r).
Qed.

(** C8.  Every package of the output comes from a node of the graph, and for
    each of that node's local edges of directory type the entries of the
    dependency collections are what they were before the run, whatever
    happened to the target's version; a registry edge of another type whose
    target has a computed version reads the caret constraint against it. *)
Theorem C8_directory_edges_are_never_rewritten
  (rp : PathPkgJson) (G : PackageGraph) :
  (forall l, Permutation (runOrder l) l) ->
  wf_graph G = true -> distinct_locations G = true ->
  exists out,
    run rp G = Some out /\
    forall loc p, JsMap.get out loc = Some p ->
      exists n,
        In n G /\ node_location n = loc /\ pkg_name p = node_name n /\
        (forall d r, In (d, r) (localDependencies n) ->
           r_type r = TDirectory ->
           specs p d = specs (node_pkg n) d /\
           dep_spec p d = dep_spec (node_pkg n) d) /\
        (forall D r vD, In (node_name D, r) (localDependencies n) ->
           In D (updateSet rp G) -> newVersion rp D = Some (Some vD) ->
           vD <> "" -> r_registry r = true -> r_type r <> TDirectory ->
           dep_spec p (node_name D) = Some ("^" ++ vD)%string).
Proof.
  intros Hperm Hwf Hloc.
  destruct (runLernaVersion_spec semver_inc_patch hosted_toString runOrder Hperm
              rp G Hwf (distinct_locations_NoDup G Hloc))
    as [out [Hout [Hkeys Hspec]]].
  exists out. split; [exact Hout |].
  intros loc p Hget. apply Hspec in Hget.
  destruct Hget as [n [Hn [Hv [Hl Hrun]]]].
  destruct (newVersion rp n) as [v |] eqn:Ev; [| congruence].
  destruct (processed_node rp G n v Hwf Hn Ev)
    as [p' [Hrun' [N [L [V [F [_ C]]]]]]].
  rewrite Hrun' in Hrun. inversion Hrun; subst p'.
  exists n. repeat split; auto.
  - apply collectPackages_In in Hn. tauto.
  - eapply F; eauto.
  - apply specs_dep_spec. eapply F; eauto.
Qed.

End PropagationClaims.

(* ================================================================== *)
(** * The propagation pass on concrete workspaces *)
(* ================================================================== *)

Example inc_patch_plain : Semver.inc_patch (Some "2.2.2") = Some "2.2.3".
Proof. reflexivity. Qed.

Example inc_patch_carry : Semver.inc_patch (Some "1.9.199") = Some "1.9.200".
Proof. reflexivity. Qed.

Example inc_patch_prerelease :
  Semver.inc_patch (Some "1.1.2-alpha.0") = Some "1.1.2".
Proof. reflexivity. Qed.

Example inc_patch_invalid : Semver.inc_patch (Some "not-a-version") = None.
Proof. reflexivity. Qed.

Example chain_output :
  Examples.run_chain =
  Some
    [ ("packages/pkgA/package.json", Examples.pkgA);
      ("packages/pkgB/package.json",
        Examples.mkPackage "@here/pkgB" "2.2.3" "packages/pkgB/package.json"
          [("@here/pkgA", "^1.1.2"); ("someExternal", "^9.2.3")]);
      ("packages/pkgC/package.json",
        Examples.mkPackage "@here/pkgC" "3.3.4" "packages/pkgC/package.json"
          [("@here/pkgB", "^2.2.3"); ("anotherExternal", "^4.3.1")]) ].
Proof. vm_compute. reflexivity. Qed.


Example discontiguous_output :
  Scenarios.propagate Scenarios.discontiguous =
  Some
    [ ("packages/pkgA/package.json", Examples.pkgA);
      ("packages/pkgB/package.json",
        Examples.mkPackage "@here/pkgB" "2.2.3" "packages/pkgB/package.json"
          [("@here/pkgA", "^1.1.2"); ("someExternal", "^9.2.3")]) ].
Proof. vm_compute. reflexivity. Qed.

Example withInvalid_output :
  Scenarios.propagate Scenarios.withInvalid =
  Some
    [ ("packages/pkgA/package.json", Examples.pkgA);
      ("packages/pkgS/package.json",
        Examples.mkPackage "@here/pkgS" "3.3.4" "packages/pkgS/package.json"
          [("@here/pkgA", "^1.1.2")]);
      ("packages/pkgD/package.json",
        Examples.mkPackage "@here/pkgD" "4.0.1" "packages/pkgD/package.json"
          [("@here/pkgB", "file:../pkgB"); ("@here/pkgA", "^1.1.2")]) ].
Proof. vm_compute. reflexivity. Qed.

Example withPathReference_output :
  Scenarios.propagate Scenarios.withPathReference =
  Some
    [ ("packages/pkgA/package.json", Examples.pkgA);
      ("packages/pkgS/package.json",
        Examples.mkPackage "@here/pkgS" "3.3.4" "packages/pkgS/package.json"
          [("@here/pkgA", "^1.1.2")]);
      ("packages/pkgL/package.json",
        Examples.mkPackage "@here/pkgL" "5.5.6" "packages/pkgL/package.json"
          [("@here/pkgA", "file:../pkgA"); ("@here/pkgS", "^3.3.4")]) ].
Proof. vm_compute. reflexivity. Qed.

Section ScenarioWitnesses.
Import Lerna Graph NodeWorkspace Propagation Examples Scenarios.

Lemma in_order_perm : forall l : list Package, Permutation (in_order l) l.
Proof. intros l. apply Permutation_refl. Qed.

Lemma chain_acyclic : acyclic chain.
Proof. apply (ranked_acyclic chain rank). reflexivity. Defined.

Lemma chain_pkgB_depends_on_pkgA :
  depends_trans chain (node_name nodeB) (node_name nodeA).
Proof.
  apply dt_step. exists nodeB. split; [simpl; auto | split; reflexivity].
Defined.

(** The chain of the plugin's test: pkgB is bumped from 2.2.2 to 2.2.3 and
    its range on pkgA becomes ^1.1.2. *)
Lemma C1_chain_witness :
  exists out pB,
    runLernaVersion Semver.inc_patch no_hosted in_order chainUpdated chain
    = Some out /\
    JsMap.get out (node_location nodeB) = Some pB /\
    pkg_name pB = node_name nodeB /\
    pkg_version pB = Some "2.2.3" /\
    (new_version Semver.inc_patch chainUpdated nodeA = Some (node_version nodeA) /\
     In nodeA (collectPackages chain (isCandidate chainUpdated))) /\
    forall D r vD,
      In (node_name D, r) (localDependencies nodeB) ->
      In D (collectPackages chain (isCandidate chainUpdated)) ->
      new_version Semver.inc_patch chainUpdated D = Some (Some vD) -> vD <> "" ->
      r_registry r = true -> r_type r <> TDirectory ->
      dep_spec pB (node_name D) = Some ("^" ++ vD)%string.
Proof.
  apply (C1_dependent_patch_bump_and_caret_rewrite
           Semver.inc_patch no_hosted in_order chainUpdated chain nodeA nodeB "2.2.3").
  - exact in_order_perm.
  - reflexivity.
  - reflexivity.
  - exact chain_acyclic.
  - simpl; auto.
  - reflexivity.
  - simpl; auto.
  - reflexivity.
  - exact chain_pkgB_depends_on_pkgA.
  - reflexivity.
Defined.

Lemma pkgX_depends_on_nothing c :
  ~ depends_trans discontiguous (node_name nodeX) c.
Proof.
  intros H.
  assert (Hfirst : exists m, depends_on discontiguous (node_name nodeX) m).
  { inversion H; subst; eauto. }
  destruct Hfirst as [m [n [Hin [Hname Hhas]]]].
  simpl in Hin. destruct Hin as [<- | [<- | [<- | []]]];
    try discriminate Hname; discriminate Hhas.
Defined.

(** pkgX has no path to pkgA and is not in the output. *)
Lemma C6_discontiguous_witness :
  exists out,
    runLernaVersion Semver.inc_patch no_hosted in_order chainUpdated discontiguous
    = Some out /\
    JsMap.get out (node_location nodeX) = None /\
    forall loc p, In (loc, p) out ->
      loc <> node_location nodeX /\ pkg_name p <> node_name nodeX.
Proof.
  apply (C6_unreachable_package_absent_from_output
           Semver.inc_patch no_hosted in_order chainUpdated discontiguous nodeX).
  - exact in_order_perm.
  - reflexivity.
  - reflexivity.
  - simpl; auto.
  - reflexivity.
  - intros c _ _. apply pkgX_depends_on_nothing.
Defined.

(** pkgB cannot be patched; its sibling pkgS and its dependent pkgD are. *)
Lemma C7_invalid_witness :
  In (node_name nodeBad)
    (invalidVersions
       (computeVersions Semver.inc_patch chainUpdated
          (collectPackages withInvalid (isCandidate chainUpdated)))) /\
  JsMap.get
    (updatesVersions
       (computeVersions Semver.inc_patch chainUpdated
          (collectPackages withInvalid (isCandidate chainUpdated))))
    (node_name nodeBad) = None /\
  exists out,
    runLernaVersion Semver.inc_patch no_hosted in_order chainUpdated withInvalid
    = Some out /\
    JsMap.get out (node_location nodeBad) = None /\
    forall n v,
      In n (collectPackages withInvalid (isCandidate chainUpdated)) ->
      new_version Semver.inc_patch chainUpdated n = Some v ->
      exists p,
        JsMap.get out (node_location n) = Some p /\
        pkg_name p = node_name n /\ pkg_version p = v /\
        (forall r, In (node_name nodeBad, r) (localDependencies n) ->
           specs p (node_name nodeBad) = specs (node_pkg n) (node_name nodeBad)) /\
        (forall D r vD, In (node_name D, r) (localDependencies n) ->
           In D (collectPackages withInvalid (isCandidate chainUpdated)) ->
           new_version Semver.inc_patch chainUpdated D = Some (Some vD) ->
           vD <> "" -> r_registry r = true -> r_type r <> TDirectory ->
           dep_spec p (node_name D) = Some ("^" ++ vD)%string).
Proof.
  apply (C7_invalid_version_is_isolated
           Semver.inc_patch no_hosted in_order chainUpdated withInvalid nodeBad).
  - exact in_order_perm.
  - reflexivity.
  - reflexivity.
  - vm_compute. auto.
  - reflexivity.
  - reflexivity.
Defined.

(** pkgL's path reference to the updated pkgA stays; its range on pkgS is
    rewritten. *)
Lemma C8_path_reference_witness :
  exists out,
    runLernaVersion Semver.inc_patch no_hosted in_order chainUpdated
      withPathReference = Some out /\
    forall loc p, JsMap.get out loc = Some p ->
      exists n,
        In n withPathReference /\ node_location n = loc /\
        pkg_name p = node_name n /\
        (forall d r, In (d, r) (localDependencies n) ->
           r_type r = TDirectory ->
           specs p d = specs (node_pkg n) d /\
           dep_spec p d = dep_spec (node_pkg n) d) /\
        (forall D r vD, In (node_name D, r) (localDependencies n) ->
           In D (collectPackages withPathReference (isCandidate chainUpdated)) ->
           new_version Semver.inc_patch chainUpdated D = Some (Some vD) ->
           vD <> "" -> r_registry r = true -> r_type r <> TDirectory ->
           dep_spec p (node_name D) = Some ("^" ++ vD)%string).
Proof.
  apply (C8_directory_edges_are_never_rewritten
           Semver.inc_patch no_hosted in_order chainUpdated withPathReference).
  - exact in_order_perm.
  - reflexivity.
  - reflexivity.
Defined.

End ScenarioWitnesses.

(* ================================================================== *)
(** * Facts about the effects of the manifest *)
(* ================================================================== *)

Section EffectFacts.
Import Manifest Effects.
Local Open Scope manifest_scope.


Variable P : Event -> bool.

Lemma silent_ret {A} (a : A) : silent P (ret a).
Proof. intros s. reflexivity. Qed.

Lemma silent_throw {A} (e : Exn) : silent P (@throw A e).
Proof. intros s. reflexivity. Qed.

Lemma silent_lift {A} (r : Result A) : silent P (lift r).
Proof. intros s. reflexivity. Qed.

Lemma silent_get_state : silent P get_state.
Proof. intros s. reflexivity. Qed.

Lemma silent_set_configFile c : silent P (set_configFile c).
Proof. intros s. reflexivity. Qed.

Lemma silent_set_headManifest v : silent P (set_headManifest v).
Proof. intros s. reflexivity. Qed.

Lemma silent_emit e : P e = false -> silent P (emit e).
Proof.
  intros He s. simpl. rewrite filter_app. simpl. rewrite He. apply app_nil_r.
Qed.

Lemma silent_bind {A B} (m : M A) (f : A -> M B) :
  silent P m -> (forall a, silent P (f a)) -> silent P (bind m f).
Proof.
  intros Hm Hf s. unfold bind. specialize (Hm s).
  destruct (m s) as [[a | e] s']; simpl in *.
  - rewrite (Hf a s'). exact Hm.
  - exact Hm.
Qed.

Lemma silent_try_catch {A} (m : M A) (h : Exn -> M A) :
  silent P m -> (forall e, silent P (h e)) -> silent P (try_catch m h).
Proof.
  intros Hm Hh s. unfold try_catch. specialize (Hm s).
  destruct (m s) as [[a | e] s']; simpl in *.
  - exact Hm.
  - rewrite (Hh e s'). exact Hm.
Qed.

Lemma silent_foldM {A B} (f : B -> A -> M B) (l : list A) :
  (forall b a, silent P (f b a)) -> forall b, silent P (foldM f l b).
Proof.
  intros Hf. induction l as [| x l IH]; intros b; simpl.
  - apply silent_ret.
  - apply silent_bind; auto.
Qed.

Lemma keeps_head_ret {A} (a : A) : keeps_head (ret a).
Proof. intros s. reflexivity. Qed.

Lemma keeps_head_throw {A} (e : Exn) : keeps_head (@throw A e).
Proof. intros s. reflexivity. Qed.

Lemma keeps_head_lift {A} (r : Result A) : keeps_head (lift r).
Proof. intros s. reflexivity. Qed.

Lemma keeps_head_get_state : keeps_head get_state.
Proof. intros s. reflexivity. Qed.

Lemma keeps_head_set_configFile c : keeps_head (set_configFile c).
Proof. intros s. reflexivity. Qed.

Lemma keeps_head_emit e : keeps_head (emit e).
Proof. intros s. reflexivity. Qed.

Lemma keeps_head_bind {A B} (m : M A) (f : A -> M B) :
  keeps_head m -> (forall a, keeps_head (f a)) -> keeps_head (bind m f).
Proof.
  intros Hm Hf s. unfold bind. specialize (Hm s).
  destruct (m s) as [[a | e] s']; simpl in *.
  - rewrite (Hf a s'). exact Hm.
  - exact Hm.
Qed.

Lemma keeps_head_try_catch {A} (m : M A) (h : Exn -> M A) :
  keeps_head m -> (forall e, keeps_head (h e)) -> keeps_head (try_catch m h).
Proof.
  intros Hm Hh s. unfold try_catch. specialize (Hm s).
  destruct (m s) as [[a | e] s']; simpl in *.
  - exact Hm.
  - rewrite (Hh e s'). exact Hm.
Qed.

Lemma keeps_head_foldM {A B} (f : B -> A -> M B) (l : list A) :
  (forall b a, keeps_head (f b a)) -> forall b, keeps_head (foldM f l b).
Proof.
  intros Hf. induction l as [| x l IH]; intros b; simpl.
  - apply keeps_head_ret.
  - apply keeps_head_bind; auto.
Qed.

Lemma total_ret {A} (a : A) : total (ret a).
Proof. intros s. now exists a. Qed.

Lemma total_emit e : total (emit e).
Proof. intros s. now exists tt. Qed.

Lemma total_bind {A B} (m : M A) (f : A -> M B) :
  total m -> (forall a, total (f a)) -> total (bind m f).
Proof.
  intros Hm Hf s. unfold bind. destruct (Hm s) as [a Ha].
  destruct (m s) as [[a' | e] s']; simpl in *; [| discriminate].
  apply Hf.
Qed.

Lemma total_try_catch {A} (m : M A) (h : Exn -> M A) :
  (forall e, total (h e)) -> total (try_catch m h).
Proof.
  intros Hh s. unfold try_catch.
  destruct (m s) as [[a | e] s']; simpl.
  - now exists a.
  - apply Hh.
Qed.

Lemma total_foldM {A B} (f : B -> A -> M B) (l : list A) :
  (forall b a, total (f b a)) -> forall b, total (foldM f l b).
Proof.
  intros Hf. induction l as [| x l IH]; intros b; simpl.
  - apply total_ret.
  - apply total_bind; auto.
Qed.

End EffectFacts.

Lemma silent_weaken {A} (P Q : Manifest.Event -> bool) (m : Manifest.M A) :
  (forall e, Q e = true -> P e = true) -> Effects.silent P m -> Effects.silent Q m.
Proof.
  intros Hsub Hm s. specialize (Hm s).
  assert (H : forall l, filter Q (filter P l) = filter Q l).
  { induction l as [| e l IH]; simpl; [reflexivity |].
    destruct (P e) eqn:Ep; simpl.
    - now rewrite IH.
    - destruct (Q e) eqn:Eq; [| exact IH].
      apply Hsub in Eq. congruence. }
  rewrite <- (H (Manifest.trace (snd (m s)))), Hm. apply H.
Qed.

Lemma label_is_mutation e :
  Effects.is_label e = true -> Manifest.is_mutation e = true.
Proof. destruct e; simpl; congruence. Qed.

Ltac effect_step lem_ret lem_throw lem_lift lem_get lem_emit lem_bind lem_try lem_fold :=
  first
    [ apply lem_ret | apply lem_throw | apply lem_lift | apply lem_get
    | lem_emit | apply lem_bind | apply lem_try | apply lem_fold
    | match goal with
      | |- forall _, _ => intro
      | |- context [match ?x with _ => _ end] => destruct x
      end ].

Ltac silence :=
  unfold Manifest.openPullRequest, Manifest.relabelPR, Manifest.commentOnIssue,
    Manifest.call,
    Manifest.checkpoint;
  repeat effect_step
    @silent_ret @silent_throw @silent_lift @silent_get_state
    ltac:(first [ apply silent_set_configFile | apply silent_set_headManifest
                | apply silent_emit; reflexivity ])
    @silent_bind @silent_try_catch @silent_foldM.

Ltac head_kept :=
  unfold Manifest.openPullRequest, Manifest.relabelPR, Manifest.commentOnIssue,
    Manifest.call,
    Manifest.checkpoint;
  repeat effect_step
    @keeps_head_ret @keeps_head_throw @keeps_head_lift @keeps_head_get_state
    ltac:(first [ apply keeps_head_set_configFile | apply keeps_head_emit ])
    @keeps_head_bind @keeps_head_try_catch @keeps_head_foldM.

Section ManifestFacts.
Import Manifest Effects.
Local Open Scope manifest_scope.

Variable env : Env.

Lemma bind_ok {A B} (m : M A) (f : A -> M B) s a s' :
  m s = (Ok a, s') -> bind m f s = f a s'.
Proof. intros H. unfold bind. now rewrite H. Qed.

Lemma bind_throw {A B} (m : M A) (f : A -> M B) s e s' :
  m s = (Throw e, s') -> bind m f s = (Throw e, s').
Proof. intros H. unfold bind. now rewrite H. Qed.

Lemma silent_snd {A} (P : Event -> bool) (m : M A) s :
  silent P m -> filter P (trace (snd (m s))) = filter P (trace s).
Proof. intros H. apply H. Qed.

Lemma total_run {A} (m : M A) s : total m -> exists a s', m s = (Ok a, s').
Proof.
  intros H. destruct (H s) as [a Ha]. destruct (m s) as [r s'] eqn:E.
  simpl in Ha. subst. eauto.
Qed.

(** ** Reads only log *)

Lemma getFileJson_silent fileName sha :
  silent is_mutation (getFileJson env fileName sha).
Proof. unfold getFileJson. silence. Qed.

Lemma getManifestJson_silent sha : silent is_mutation (getManifestJson env sha).
Proof.
  unfold getManifestJson. destruct sha; [apply getFileJson_silent |].
  apply silent_bind; [apply silent_get_state | intros s].
  apply silent_bind; [| silence].
  destruct (negb _); [| apply silent_ret].
  apply silent_bind; [apply getFileJson_silent | intros; apply silent_set_headManifest].
Qed.

Lemma parseVersions_silent v : silent is_mutation (parseVersions v).
Proof. unfold parseVersions. silence. Qed.

Lemma getManifestVersions_silent sha :
  silent is_mutation (getManifestVersions env sha).
Proof.
  unfold getManifestVersions.
  apply silent_bind; [destruct sha; silence |]. intros _.
  apply silent_bind.
  - destruct sha as [| paths | sha].
    + apply silent_bind; [apply getManifestJson_silent | intros; apply silent_ret].
    + apply silent_bind; [apply getManifestJson_silent | intros; apply silent_ret].
    + destruct (String.eqb sha "").
      * apply silent_bind; [apply getManifestJson_silent | intros; apply silent_ret].
      * apply silent_bind; [apply getManifestJson_silent | intros [j |]].
        -- apply silent_ret.
        -- apply silent_bind; [silence |]. intros _.
           apply silent_bind; [apply getManifestJson_silent | intros; apply silent_ret].
  - intros r. apply silent_bind; [apply parseVersions_silent | intros; apply silent_ret].
Qed.

Lemma getConfigJson_silent : silent is_mutation (getConfigJson env).
Proof.
  unfold getConfigJson.
  apply silent_bind; [apply silent_get_state | intros s].
  destruct (configFile s); [apply silent_ret |].
  apply silent_bind; [apply getFileJson_silent | intros config].
  silence.
Qed.

Lemma getFileJson_keeps_head fileName sha :
  keeps_head (getFileJson env fileName sha).
Proof. unfold getFileJson. head_kept. Qed.

Lemma getConfigJson_keeps_head : keeps_head (getConfigJson env).
Proof.
  unfold getConfigJson.
  apply keeps_head_bind; [apply keeps_head_get_state | intros s].
  destruct (configFile s); [apply keeps_head_ret |].
  apply keeps_head_bind; [apply getFileJson_keeps_head | intros config].
  head_kept.
Qed.

Lemma validateJsonFile_silent m fileName :
  silent is_mutation (validateJsonFile env m fileName).
Proof.
  unfold validateJsonFile. apply silent_try_catch; [| silence].
  destruct m.
  - apply silent_bind; [apply getConfigJson_silent | silence].
  - apply silent_bind; [apply getManifestJson_silent | silence].
Qed.

Lemma validateJsonFile_total m fileName : total (validateJsonFile env m fileName).
Proof.
  unfold validateJsonFile. apply total_try_catch. intros e.
  apply total_bind; [apply total_emit | intros; apply total_ret].
Qed.

Lemma validateConfig_keeps_head fileName :
  keeps_head (validateJsonFile env GetConfigJson fileName).
Proof.
  unfold validateJsonFile. apply keeps_head_try_catch; [| head_kept].
  apply keeps_head_bind; [apply getConfigJson_keeps_head | head_kept].
Qed.

Lemma validate_silent : silent is_mutation (validate env).
Proof.
  unfold validate.
  apply silent_bind; [apply validateJsonFile_silent | intros cv].
  apply silent_bind; [silence |]. intros vc.
  apply silent_bind; [apply validateJsonFile_silent | intros mv].
  silence.
Qed.

(** ** The manifest stage of [validate] *)

Lemma getManifestJson_fetches s c j :
  headManifest s = None ->
  getFileContents env (manifestFileName env) = Ok c ->
  JSON_parse env c = Some j ->
  getManifestJson env None s
  = (Ok (Some j),
     {| configFile := configFile s; headManifest := Some j; trace := trace s |}).
Proof.
  intros Hhead Hfetch Hparse.
  unfold getManifestJson, getFileJson.
  cbv [bind get_state try_catch lift ret set_headManifest].
  rewrite Hhead. cbn. rewrite Hfetch. cbn. rewrite Hparse. reflexivity.
Qed.

Lemma getManifestJson_cached s j :
  headManifest s = Some j -> truthy_value (Some j) = true ->
  getManifestJson env None s = (Ok (Some j), s).
Proof.
  intros Hhead Ht.
  unfold getManifestJson. cbv [bind get_state ret].
  rewrite Hhead, Ht. cbn. now rewrite Hhead.
Qed.

Lemma has_non_string_entries entries k v :
  NoDup (map fst entries) -> In (k, v) entries -> is_string v = false ->
  has_non_string (JsMap.of_entries entries) = true.
Proof.
  intros Hnd Hin Hv. unfold has_non_string. apply existsb_exists.
  exists (k, v). split; [| simpl; now rewrite Hv].
  apply get_In. now apply of_entries_get.
Qed.

Lemma validateManifest_result s c entries :
  headManifest s = None ->
  getFileContents env (manifestFileName env) = Ok c ->
  JSON_parse env c = Some (JObj entries) ->
  exists o s',
    validateJsonFile env GetManifestJson (manifestFileName env) s = (Ok o, s') /\
    (o = None \/ o = Some (ManifestObject (Some (JObj entries)))).
Proof.
  intros Hhead Hfetch Hparse.
  unfold validateJsonFile. cbv [try_catch bind].
  rewrite (getManifestJson_fetches s c (JObj entries) Hhead Hfetch Hparse).
  cbv [lift value_constructor_is_Object].
  destruct (constructor_is_Object entries) as [[|] | e]; cbn;
    eexists; eexists; (split; [reflexivity | auto]).
Qed.

(** With a non-string value in the manifest at the tip, [validate] answers
    [false] and only logs. *)
Lemma validate_rejects_non_string s c entries k v :
  headManifest s = None ->
  getFileContents env (manifestFileName env) = Ok c ->
  JSON_parse env c = Some (JObj entries) ->
  NoDup (map fst entries) -> In (k, v) entries -> is_string v = false ->
  exists s',
    validate env s = (Ok false, s') /\
    filter is_mutation (trace s') = filter is_mutation (trace s).
Proof.
  intros Hhead Hfetch Hparse Hnd Hin Hv.
  pose proof (validate_silent s) as Hsilent.
  destruct (validate env s) as [r s'] eqn:E. simpl in Hsilent.
  exists s'. split; [| exact Hsilent]. f_equal.
  revert E. unfold validate.
  (* the configuration stage *)
  destruct (total_run _ s (validateJsonFile_total GetConfigJson (configFileName env)))
    as [cv [s1 E1]].
  rewrite (bind_ok _ _ _ _ _ E1).
  assert (H1 : headManifest s1 = None).
  { pose proof (validateConfig_keeps_head (configFileName env) s) as H.
    rewrite E1 in H. simpl in H. congruence. }
  match goal with
  | |- bind ?m ?f s1 = _ -> _ =>
      assert (Hstage : exists vc s2, m s1 = (Ok vc, s2) /\ headManifest s2 = None)
  end.
  { destruct cv as [[obj | v0] |]; try (exists false, s1; split; [reflexivity | exact H1]).
    destruct (negb (negb (packages_count obj =? 0)%nat)); eexists; eexists;
      (split; [reflexivity | exact H1]). }
  destruct Hstage as [vc [s2 [E2 H2]]].
  rewrite (bind_ok _ _ _ _ _ E2).
  (* the manifest stage *)
  destruct (validateManifest_result s2 c entries H2 Hfetch Hparse)
    as [o [s3 [E3 Ho]]].
  rewrite (bind_ok _ _ _ _ _ E3).
  destruct Ho as [-> | ->].
  - cbn. intros [= <- _]. now rewrite andb_false_r.
  - cbv [bind lift Object_entries own_entries].
    rewrite (has_non_string_entries entries k v Hnd Hin Hv).
    cbn. intros [= <- _]. now rewrite andb_false_r.
Qed.

End ManifestFacts.

(* ================================================================== *)
(** * The release-creation loop *)
(* ================================================================== *)

Section ReleaseLoop.
Import Manifest Effects Flows.
Local Open Scope manifest_scope.

Variable env : Env.

Local Abbreviation generic_failure := (Effects.generic_failure env).
Local Abbreviation failure_comment := (Effects.failure_comment env).
Local Abbreviation relabel := (Effects.relabel env).

Ltac turn :=
  cbn; rewrite ?filter_app; cbn; rewrite <- ?app_assoc, ?app_nil_r.

Lemma releasePackage_flag pr acc pkg s r s' :
  releasePackage env pr acc pkg s = (Ok r, s') ->
  allReleasesCreated r
  = allReleasesCreated acc && negb (generic_failure pr pkg).
Proof.
  unfold releasePackage, commentOnIssue, call, Effects.generic_failure.
  cbv zeta.
  destruct (truthy_value (lastVersion pkg)); cbn [negb andb].
  - destruct (createRelease_answer env pkg (lastVersion pkg) pr)
      as [[rel |] | err]; cbv beta iota.
    + destruct (commentOnIssue_answer env _ _) as [[] | e]; cbn;
        [| discriminate].
      intros [= <- _]. cbn. now rewrite andb_true_r.
    + cbn. intros [= <- _]. now rewrite andb_true_r.
    + destruct (is_validation_failure err); cbv beta iota.
      * destruct (first_is_duplicate_tag err); cbn; intros [= <- _]; cbn;
          now rewrite andb_true_r.
      * destruct (commentOnIssue_answer env _ _) as [[] | e]; cbn;
          [| discriminate].
        intros [= <- _]. cbn. now rewrite andb_false_r.
  - cbn. intros [= <- _]. cbn. now rewrite andb_true_r.
Qed.

Lemma releasePackage_no_label pr acc pkg :
  silent is_label (releasePackage env pr acc pkg).
Proof.
  unfold releasePackage.
  destruct (negb (truthy_value (lastVersion pkg))); [silence |].
  apply silent_bind; [silence |]. intros _.
  apply silent_bind; [silence |]. intros _.
  destruct (createRelease_answer env pkg (lastVersion pkg) pr) as [[rel |] | err].
  - silence.
  - silence.
  - destruct (is_validation_failure err).
    + destruct (first_is_duplicate_tag err); silence.
    + silence.
Qed.

(** What a failed [createRelease] does to the loop: the package is recorded
    without a release and the loop goes on; the flag is kept on a 422 with
    errors and cleared otherwise, and only then a failure comment is posted
    (the loop goes on when the host accepts the comment). *)
Lemma releasePackage_on_failure pr acc pkg err s :
  truthy_value (lastVersion pkg) = true ->
  createRelease_answer env pkg (lastVersion pkg) pr = Throw err ->
  (is_validation_failure err = false ->
   commentOnIssue_answer env
     (":robot: Failed to create release for " ++ getPackageName env pkg
      ++ " :cloud:")
     (pr_number pr) = Ok tt) ->
  exists s',
    releasePackage env pr acc pkg s
    = (Ok {| releases := JsMap.set (releases acc) (path (prd_package pkg)) None;
             allReleasesCreated :=
               if is_validation_failure err then allReleasesCreated acc
               else false |},
       s') /\
    filter is_comment (trace s')
    = filter is_comment (trace s)
      ++ (if is_validation_failure err then [] else [failure_comment pr pkg]).
Proof.
  intros Hv Herr Hcomment. unfold releasePackage, commentOnIssue, call.
  cbv zeta. rewrite Hv, Herr. cbn [negb]. cbv beta iota.
  destruct (is_validation_failure err); cbv beta iota.
  - destruct (first_is_duplicate_tag err); cbn; eexists;
      (split; [reflexivity |]); cbn;
      rewrite !filter_app; cbn; now rewrite !app_nil_r.
  - rewrite (Hcomment eq_refl). cbn. eexists. split; [reflexivity |]. cbn.
    rewrite !filter_app. cbn. now rewrite !app_nil_r.
Qed.

Lemma release_loop_flag pr pkgs :
  forall acc s r s',
  foldM (releasePackage env pr) pkgs acc s = (Ok r, s') ->
  allReleasesCreated r
  = allReleasesCreated acc
    && forallb (fun pkg => negb (generic_failure pr pkg)) pkgs.
Proof.
  induction pkgs as [| pkg pkgs IH]; intros acc s r s'; cbn [foldM forallb].
  - intros [= <- _]. now rewrite andb_true_r.
  - destruct (releasePackage env pr acc pkg s) as [[acc' | e] s1] eqn:E1.
    + rewrite (bind_ok _ _ _ _ _ E1). intros H.
      rewrite (IH _ _ _ _ H), (releasePackage_flag _ _ _ _ _ _ E1).
      now rewrite andb_assoc.
    + rewrite (bind_throw _ _ _ _ _ E1). discriminate.
Qed.

Lemma release_loop_no_label pr pkgs acc :
  silent is_label (foldM (releasePackage env pr) pkgs acc).
Proof. apply silent_foldM. intros. apply releasePackage_no_label. Qed.

(** One turn of the loop: the calls it makes, whether the last of them is
    accepted or not, and what it files when it goes on. *)
Lemma releasePackage_run pr acc pkg s :
  filter is_mutation (trace (snd (releasePackage env pr acc pkg s)))
  = filter is_mutation (trace s) ++ release_events env pr pkg /\
  (forall r, fst (releasePackage env pr acc pkg s) = Ok r ->
     releases r
     = match release_outcome env pr pkg with
       | Some v => JsMap.set (releases acc) (path (prd_package pkg)) v
       | None => releases acc
       end).
Proof.
  unfold releasePackage, commentOnIssue, call, release_outcome, release_events.
  cbv zeta.
  destruct (truthy_value (lastVersion pkg)); cbn [negb].
  - destruct (createRelease_answer env pkg (lastVersion pkg) pr)
      as [[rel |] | err]; cbv beta iota.
    + destruct (commentOnIssue_answer env _ _) as [[] | e]; turn;
        (split; [reflexivity | intros r H; now inversion H]).
    + turn. split; [reflexivity | intros r H; now inversion H].
    + destruct (is_validation_failure err); cbv beta iota.
      * destruct (first_is_duplicate_tag err); turn;
          (split; [reflexivity | intros r H; now inversion H]).
      * destruct (commentOnIssue_answer env _ _) as [[] | e]; turn;
          (split; [reflexivity | intros r H; now inversion H]).
  - turn. split; [reflexivity | intros r H; now inversion H].
Qed.

(** The calls of the loop: those of the candidates it got through, which are
    all of them when the loop is left in the ordinary way. *)
Lemma release_loop_run pr pkgs :
  forall acc s,
  exists done rest,
    pkgs = done ++ rest /\
    filter is_mutation (trace (snd (foldM (releasePackage env pr) pkgs acc s)))
    = filter is_mutation (trace s) ++ flat_map (release_events env pr) done /\
    (forall r, fst (foldM (releasePackage env pr) pkgs acc s) = Ok r ->
       rest = []).
Proof.
  induction pkgs as [| pkg pkgs IH]; intros acc s; cbn [foldM].
  - exists [], []. cbn. rewrite app_nil_r. auto.
  - destruct (releasePackage_run pr acc pkg s) as [Hev _].
    destruct (releasePackage env pr acc pkg s) as [[acc1 | e] s1] eqn:E1;
      cbn [snd] in Hev.
    + rewrite (bind_ok _ _ _ _ _ E1).
      destruct (IH acc1 s1) as [done [rest [Hsplit [Hevs Hok]]]].
      exists (pkg :: done), rest. split; [now rewrite Hsplit |].
      split; [| exact Hok].
      rewrite Hevs, Hev. cbn [flat_map]. now rewrite app_assoc.
    + rewrite (bind_throw _ _ _ _ _ E1). exists [pkg], pkgs.
      split; [reflexivity |]. split; [| discriminate].
      cbn [snd flat_map]. now rewrite app_nil_r.
Qed.

(** The record of a loop that is left in the ordinary way. *)
Lemma release_loop_result pr pkgs :
  forall acc s r,
  fst (foldM (releasePackage env pr) pkgs acc s) = Ok r ->
  (forall p, ~ In p (map (fun d => path (prd_package d)) pkgs) ->
     JsMap.get (releases r) p = JsMap.get (releases acc) p) /\
  (NoDup (map (fun d => path (prd_package d)) pkgs) ->
   forall pkg, In pkg pkgs ->
     JsMap.get (releases r) (path (prd_package pkg))
     = match release_outcome env pr pkg with
       | Some v => Some v
       | None => JsMap.get (releases acc) (path (prd_package pkg))
       end).
Proof.
  induction pkgs as [| pkg pkgs IH]; intros acc s r; cbn [foldM].
  - cbn. intros [= <-]. split; [reflexivity | intros _ ? []].
  - destruct (releasePackage_run pr acc pkg s) as [_ Hrel].
    destruct (releasePackage env pr acc pkg s) as [[acc1 | e] s1] eqn:E1;
      cbn [fst] in Hrel.
    2:{ rewrite (bind_throw _ _ _ _ _ E1). discriminate. }
    rewrite (bind_ok _ _ _ _ _ E1). intros E.
    specialize (Hrel acc1 eq_refl).
    destruct (IH acc1 s1 r E) as [Hother Hfiled]. split.
    + intros p Hp. cbn [map] in Hp.
      rewrite Hother by (intros H; apply Hp; now right). rewrite Hrel.
      destruct (release_outcome env pr pkg); [| reflexivity].
      apply get_set_other. intros ->. apply Hp. now left.
    + intros Hnd pkg' Hin. cbn [map] in Hnd. apply NoDup_cons_iff in Hnd.
      destruct Hnd as [Hfresh Hnd]. destruct Hin as [<- | Hin].
      * rewrite Hother by exact Hfresh. rewrite Hrel.
        destruct (release_outcome env pr pkg); [apply get_set_same | reflexivity].
      * rewrite (Hfiled Hnd pkg' Hin).
        destruct (release_outcome env pr pkg'); [reflexivity |].
        rewrite Hrel. destruct (release_outcome env pr pkg); [| reflexivity].
        apply get_set_other. intros Heq. apply Hfresh. rewrite <- Heq.
        now apply (in_map (fun d => path (prd_package d))).
Qed.

(** The two label calls: the second is made when the first is accepted. *)
Lemma relabelPR_run pr s :
  exists made left,
    relabel pr = made ++ left /\
    trace (snd (relabelPR env pr s)) = trace s ++ made /\
    (forall u, fst (relabelPR env pr s) = Ok u -> left = []) /\
    filter is_label made = made /\ filter is_mutation made = made.
Proof.
  unfold relabelPR, call, Effects.relabel.
  destruct (addLabels_answer env _ _) as [[] | e].
  - exists [AddLabels [GITHUB_RELEASE_LABEL env] (pr_number pr);
            RemoveLabels (DEFAULT_LABELS env) (pr_number pr)], [].
    split; [reflexivity |]. cbn. rewrite <- app_assoc. auto.
  - exists [AddLabels [GITHUB_RELEASE_LABEL env] (pr_number pr)],
           [RemoveLabels (DEFAULT_LABELS env) (pr_number pr)].
    split; [reflexivity |]. cbn.
    split; [reflexivity |]. split; [discriminate | auto].
Qed.

Lemma githubRelease_reaches_loop s s1 s2 pr packages :
  validate env s = (Ok true, s1) ->
  lastMergedPRByHeadBranch env (branchNameOf env (getDefaultBranch env)) = Some pr ->
  mem (GITHUB_RELEASE_LABEL env) (pr_labels pr) = false ->
  has_pending_label env (pr_labels pr) = true ->
  getPackagesToRelease env
    [{| c_sha := pr_sha pr; c_message := ""; c_files := pr_files pr |}]
    (Some (pr_sha pr)) s1 = (Ok packages, s2) ->
  githubRelease env s = createReleases env pr packages s2.
Proof.
  intros Hvalid Hpr Hreleased Hpending Hpkgs.
  unfold githubRelease. rewrite (bind_ok _ _ _ _ _ Hvalid). cbn [negb].
  rewrite Hpr, Hreleased, Hpending. cbn [negb].
  now rewrite (bind_ok _ _ _ _ _ Hpkgs).
Qed.

(** The label calls from the loop on: none while the loop is not left in the
    ordinary way or the flag is cleared, and the two of the re-labeling
    otherwise, as far as the host accepts them. *)
Lemma createReleases_labels pr packages s :
  exists made left,
    (if negb (List.length packages =? 0)%nat
        && forallb (fun pkg => negb (generic_failure pr pkg)) packages
     then relabel pr else []) = made ++ left /\
    filter is_label (trace (snd (createReleases env pr packages s)))
    = filter is_label (trace s) ++ made /\
    (forall r, fst (createReleases env pr packages s) = Ok r -> left = []).
Proof.
  unfold createReleases.
  pose proof (release_loop_no_label pr packages
                {| releases := [];
                   allReleasesCreated := negb (List.length packages =? 0)%nat |}
                s) as Hquiet.
  destruct (foldM (releasePackage env pr) packages _ s)
    as [[r | e] s1] eqn:Eloop; cbn [snd] in Hquiet.
  2:{ rewrite (bind_throw _ _ _ _ _ Eloop). cbn [fst snd].
      eexists [], _. split; [reflexivity |].
      split; [now rewrite app_nil_r | discriminate]. }
  rewrite (bind_ok _ _ _ _ _ Eloop).
  pose proof (release_loop_flag pr packages _ _ _ _ Eloop) as Hflag.
  cbn [allReleasesCreated] in Hflag. rewrite <- Hflag.
  destruct (allReleasesCreated r); cbv iota.
  - destruct (relabelPR_run pr s1)
      as [made [left [Hsplit [Htrace [Hok [Hlabels _]]]]]].
    exists made, left. split; [exact Hsplit |].
    destruct (relabelPR env pr s1) as [[[] | e] s2] eqn:Elabel;
      cbn [fst snd] in Htrace, Hok.
    + rewrite (bind_ok _ _ _ _ _ Elabel). cbn [ret fst snd].
      rewrite Htrace, filter_app, Hquiet, Hlabels.
      split; [reflexivity | intros _ _; now apply (Hok tt)].
    + rewrite (bind_throw _ _ _ _ _ Elabel). cbn [fst snd].
      rewrite Htrace, filter_app, Hquiet, Hlabels.
      split; [reflexivity | discriminate].
  - exists [], []. split; [reflexivity |]. cbn. rewrite app_nil_r. auto.
Qed.

(** The calls that change the host from the loop on: an initial part of
    [release_calls], and all of them when the run returns. *)
Lemma createReleases_calls pr packages s :
  exists made left,
    release_calls env pr packages = made ++ left /\
    filter is_mutation (trace (snd (createReleases env pr packages s)))
    = filter is_mutation (trace s) ++ made /\
    (forall r, fst (createReleases env pr packages s) = Ok r -> left = []).
Proof.
  unfold createReleases, release_calls.
  destruct (release_loop_run pr packages
              {| releases := [];
                 allReleasesCreated := negb (List.length packages =? 0)%nat |}
              s) as [done [rest [Hsplit [Hev Hleft]]]].
  destruct (foldM (releasePackage env pr) packages _ s)
    as [[r | e] s1] eqn:Eloop; cbn [fst snd] in Hev, Hleft.
  2:{ rewrite (bind_throw _ _ _ _ _ Eloop). cbn [fst snd].
      exists (flat_map (release_events env pr) done). eexists.
      split; [| split; [exact Hev | discriminate]].
      replace (flat_map (release_events env pr) packages)
        with (flat_map (release_events env pr) done
              ++ flat_map (release_events env pr) rest)
        by (now rewrite Hsplit, flat_map_app).
      rewrite <- app_assoc. reflexivity. }
  rewrite (bind_ok _ _ _ _ _ Eloop).
  assert (Hdone : done = packages).
  { rewrite Hsplit, (Hleft r eq_refl). now rewrite app_nil_r. }
  subst done.
  pose proof (release_loop_flag pr packages _ _ _ _ Eloop) as Hflag.
  cbn [allReleasesCreated] in Hflag. rewrite <- Hflag.
  destruct (allReleasesCreated r); cbv iota.
  - destruct (relabelPR_run pr s1)
      as [made [left [Hrelabel [Htrace [Hok [_ Hcalls]]]]]].
    exists (flat_map (release_events env pr) packages ++ made), left.
    split; [now rewrite Hrelabel, app_assoc |].
    destruct (relabelPR env pr s1) as [[[] | e] s2] eqn:Elabel;
      cbn [fst snd] in Htrace, Hok.
    + rewrite (bind_ok _ _ _ _ _ Elabel). cbn [ret fst snd].
      rewrite Htrace, filter_app, Hev, Hcalls, <- app_assoc.
      split; [reflexivity | intros _ _; now apply (Hok tt)].
    + rewrite (bind_throw _ _ _ _ _ Elabel). cbn [fst snd].
      rewrite Htrace, filter_app, Hev, Hcalls, <- app_assoc.
      split; [reflexivity | discriminate].
  - exists (flat_map (release_events env pr) packages), [].
    split; [reflexivity |]. cbn. auto.
Qed.

(** The record of a run that returns. *)
Lemma createReleases_result pr packages s r :
  fst (createReleases env pr packages s) = Ok r ->
  exists record,
    r = Some record /\
    (forall p, ~ In p (map (fun d => path (prd_package d)) packages) ->
       JsMap.get record p = None) /\
    (NoDup (map (fun d => path (prd_package d)) packages) ->
     forall pkg, In pkg packages ->
       JsMap.get record (path (prd_package pkg)) = release_outcome env pr pkg).
Proof.
  unfold createReleases.
  pose proof (release_loop_result pr packages
                {| releases := [];
                   allReleasesCreated := negb (List.length packages =? 0)%nat |}
                s) as Hloop.
  destruct (foldM (releasePackage env pr) packages _ s)
    as [[r0 | e] s1] eqn:Eloop; cbn [fst] in Hloop.
  2:{ rewrite (bind_throw _ _ _ _ _ Eloop). discriminate. }
  rewrite (bind_ok _ _ _ _ _ Eloop).
  destruct (Hloop r0 eq_refl) as [Hother Hfiled]. clear Hloop.
  assert (Hrecord :
            (forall p, ~ In p (map (fun d => path (prd_package d)) packages) ->
               JsMap.get (releases r0) p = None) /\
            (NoDup (map (fun d => path (prd_package d)) packages) ->
             forall pkg, In pkg packages ->
               JsMap.get (releases r0) (path (prd_package pkg))
               = release_outcome env pr pkg)).
  { split.
    - intros p Hp. now rewrite Hother.
    - intros Hnd pkg Hin. rewrite (Hfiled Hnd pkg Hin).
      destruct (release_outcome env pr pkg); reflexivity. }
  destruct (allReleasesCreated r0); cbv iota.
  - destruct (relabelPR env pr s1) as [[[] | e] s2] eqn:Elabel.
    + rewrite (bind_ok _ _ _ _ _ Elabel). cbn. intros [= <-]. eauto.
    + rewrite (bind_throw _ _ _ _ _ Elabel). discriminate.
  - cbn. intros [= <-]. eauto.
Qed.

End ReleaseLoop.

(* ================================================================== *)
(** * The release candidate resolver *)
(* ================================================================== *)

Section Resolver.
Import Manifest Effects.
Local Open Scope manifest_scope.

Variable env : Env.

Lemma resolvePackage_silent cpp mv atSha acc pkg :
  silent is_mutation (resolvePackage env cpp mv atSha acc pkg).
Proof.
  unfold resolvePackage.
  destruct (JsMap.get cpp (path pkg)) as [[| c0 cs] |]; try apply silent_ret.
  apply silent_bind; [| silence].
  destruct (negb _); silence.
Qed.

Lemma resolveMissing_silent head acc p :
  silent is_mutation (resolveMissing env head acc p).
Proof. unfold resolveMissing. silence. Qed.

Lemma getPackagesToRelease_silent allCommits sha :
  silent is_mutation (getPackagesToRelease env allCommits sha).
Proof.
  unfold getPackagesToRelease.
  apply silent_bind; [apply getConfigJson_silent | intros cfg].
  apply silent_bind; [apply getManifestVersions_silent | intros mv].
  apply silent_bind.
  { apply silent_foldM. intros. apply resolvePackage_silent. }
  intros c. apply silent_bind; [| silence].
  destruct (missingVersionPaths c); [apply silent_ret |].
  apply silent_bind; [apply getManifestVersions_silent | intros head].
  apply silent_foldM. intros. apply resolveMissing_silent.
Qed.

(** ** The cached tip manifest survives the reads *)


Lemma cached_keeps_head j {A} (m : M A) : keeps_head m -> cached j m.
Proof. intros H s Hs. now rewrite H. Qed.

Lemma cached_bind j {A B} (m : M A) (f : A -> M B) :
  cached j m -> (forall a, cached j (f a)) -> cached j (bind m f).
Proof.
  intros Hm Hf s Hs. unfold bind. specialize (Hm s Hs).
  destruct (m s) as [[a | e] s']; simpl in *.
  - now apply Hf.
  - exact Hm.
Qed.

Lemma cached_foldM j {A B} (f : B -> A -> M B) (l : list A) :
  (forall b a, cached j (f b a)) -> forall b, cached j (foldM f l b).
Proof.
  intros Hf. induction l as [| x l IH]; intros b; simpl.
  - apply cached_keeps_head, keeps_head_ret.
  - apply cached_bind; auto.
Qed.

Lemma cached_getManifestJson j sha :
  truthy_value (Some j) = true -> cached j (getManifestJson env sha).
Proof.
  intros Ht. destruct sha as [sha |].
  - apply cached_keeps_head. apply getFileJson_keeps_head.
  - intros s Hs. now rewrite (getManifestJson_cached env s j Hs Ht).
Qed.

Lemma cached_getManifestVersions j sha :
  truthy_value (Some j) = true -> cached j (getManifestVersions env sha).
Proof.
  intros Ht. unfold getManifestVersions.
  apply cached_bind; [apply cached_keeps_head; destruct sha; head_kept |].
  intros _. apply cached_bind.
  - assert (Htip : cached j (m <- getManifestJson env None ;; ret (m, "tip"))).
    { apply cached_bind; [now apply cached_getManifestJson |].
      intros. apply cached_keeps_head, keeps_head_ret. }
    destruct sha as [| paths | sha]; try exact Htip.
    destruct (String.eqb sha ""); [exact Htip |].
    apply cached_bind; [now apply cached_getManifestJson |].
    intros [j' |].
    + apply cached_keeps_head, keeps_head_ret.
    + apply cached_bind; [apply cached_keeps_head; head_kept | intros _; exact Htip].
  - intros r. apply cached_keeps_head. unfold parseVersions. head_kept.
Qed.

Lemma resolvePackage_keeps_head cpp mv atSha acc pkg :
  keeps_head (resolvePackage env cpp mv atSha acc pkg).
Proof.
  unfold resolvePackage.
  destruct (JsMap.get cpp (path pkg)) as [[| c0 cs] |]; try apply keeps_head_ret.
  apply keeps_head_bind; [| head_kept].
  destruct (negb _); head_kept.
Qed.

Lemma resolvePackage_total cpp mv atSha acc pkg :
  total (resolvePackage env cpp mv atSha acc pkg).
Proof.
  intros s. unfold resolvePackage.
  destruct (JsMap.get cpp (path pkg)) as [[| c0 cs] |];
    try (eexists; reflexivity).
  destruct (negb _); eexists; reflexivity.
Qed.

(** ** The main pass *)


Lemma resolvePackage_result cpp mv atSha acc pkg s :
  exists s',
    resolvePackage env cpp mv atSha acc pkg s
    = (Ok match JsMap.get cpp (path pkg) with
          | None | Some [] => acc
          | Some pkgCommits => resolved mv acc pkg pkgCommits
          end, s').
Proof.
  unfold resolvePackage, resolved.
  destruct (JsMap.get cpp (path pkg)) as [[| c0 cs] |];
    try (eexists; reflexivity).
  destruct (truthy_value (JsMap.get mv (path pkg))); eexists; reflexivity.
Qed.

Lemma resolved_ok mv acc pkg pkgCommits :
  candidates_ok acc -> candidates_ok (resolved mv acc pkg pkgCommits).
Proof.
  intros [H1 H2]. split; unfold resolved; simpl.
  - intros p Hp. destruct (String.eqb_spec p (path pkg)) as [-> | Hne].
    + rewrite get_set_same. eauto.
    + rewrite get_set_other by assumption. apply H1.
      destruct (truthy_value (JsMap.get mv (path pkg))); [assumption |].
      apply in_app_iff in Hp. destruct Hp as [Hp | [Hp | []]]; [assumption |].
      congruence.
  - intros p d. destruct (String.eqb_spec p (path pkg)) as [-> | Hne].
    + rewrite get_set_same. intros [= <-]. reflexivity.
    + rewrite get_set_other by assumption. apply H2.
Qed.

Lemma resolved_missing mv acc pkg pkgCommits :
  incl (missingVersionPaths acc)
    (missingVersionPaths (resolved mv acc pkg pkgCommits)) /\
  (truthy_value (JsMap.get mv (path pkg)) = false ->
   In (path pkg) (missingVersionPaths (resolved mv acc pkg pkgCommits))).
Proof.
  unfold resolved. simpl.
  destruct (truthy_value (JsMap.get mv (path pkg))); split.
  - apply incl_refl.
  - discriminate.
  - apply incl_appl, incl_refl.
  - intros _. apply in_app_iff. right. now left.
Qed.

(** The main pass returns; a package with commits and no version in the
    manifest it reads has its path recorded as missing. *)
Lemma main_pass cpp mv atSha pkgs :
  forall acc s,
  exists c s',
    foldM (resolvePackage env cpp mv atSha) pkgs acc s = (Ok c, s') /\
    headManifest s' = headManifest s /\
    (candidates_ok acc -> candidates_ok c) /\
    incl (missingVersionPaths acc) (missingVersionPaths c) /\
    (forall pkg c0 cs, In pkg pkgs ->
       JsMap.get cpp (path pkg) = Some (c0 :: cs) ->
       truthy_value (JsMap.get mv (path pkg)) = false ->
       In (path pkg) (missingVersionPaths c)).
Proof.
  induction pkgs as [| pkg pkgs IH]; intros acc s.
  - exists acc, s. cbn. split; [reflexivity |]. split; [reflexivity |].
    split; [auto |]. split; [apply incl_refl |]. intros ? ? ? [].
  - destruct (resolvePackage_result cpp mv atSha acc pkg s) as [s1 E1].
    pose proof (resolvePackage_keeps_head cpp mv atSha acc pkg s) as Hh1.
    rewrite E1 in Hh1. simpl in Hh1.
    set (acc1 := match JsMap.get cpp (path pkg) with
                 | None | Some [] => acc
                 | Some pkgCommits => resolved mv acc pkg pkgCommits
                 end) in *.
    destruct (IH acc1 s1) as [c [s' [E [Hh [Hok [Hincl Hmiss]]]]]].
    exists c, s'. simpl. rewrite (bind_ok _ _ _ _ _ E1).
    split; [exact E |]. split; [congruence |].
    assert (Hok1 : candidates_ok acc -> candidates_ok acc1).
    { unfold acc1. destruct (JsMap.get cpp (path pkg)) as [[| c0 cs] |]; auto.
      apply resolved_ok. }
    assert (Hincl1 : incl (missingVersionPaths acc) (missingVersionPaths acc1)).
    { unfold acc1. destruct (JsMap.get cpp (path pkg)) as [[| c0 cs] |];
        try apply incl_refl. apply resolved_missing. }
    split; [| split].
    + auto.
    + eapply incl_tran; eassumption.
    + intros pkg' c0 cs [<- | Hin] Hc Hv.
      * apply Hincl. unfold acc1. rewrite Hc. now apply resolved_missing.
      * eapply Hmiss; eassumption.
Qed.

(** ** The fallback pass *)

Lemma resolveMissing_result head acc p d s :
  JsMap.get acc p = Some d ->
  exists s',
    resolveMissing env head acc p s
    = (Ok (JsMap.set acc p (with_lastVersion d (JsMap.get head p))), s').
Proof.
  intros Hd. unfold resolveMissing. rewrite Hd.
  destruct (JsMap.get head p); eexists; reflexivity.
Qed.

(** The fallback pass returns; every entry keeps its package, the entries of
    the missing paths get the version of the tip manifest and the others are
    left as they were. *)
Lemma fallback_pass head ms :
  forall acc s,
  (forall p, In p ms -> exists d, JsMap.get acc p = Some d) ->
  exists acc' s',
    foldM (resolveMissing env head) ms acc s = (Ok acc', s') /\
    forall p d, JsMap.get acc p = Some d ->
      exists d',
        JsMap.get acc' p = Some d' /\
        prd_package d' = prd_package d /\
        (In p ms -> lastVersion d' = JsMap.get head p) /\
        (~ In p ms -> lastVersion d' = lastVersion d).
Proof.
  induction ms as [| p0 ms IH]; intros acc s Hentries.
  - exists acc, s. cbn. split; [reflexivity |].
    intros p d Hd. exists d. tauto.
  - destruct (Hentries p0 (or_introl eq_refl)) as [d0 Hd0].
    destruct (resolveMissing_result head acc p0 d0 s Hd0) as [s1 E1].
    set (acc1 := JsMap.set acc p0 (with_lastVersion d0 (JsMap.get head p0))) in *.
    destruct (IH acc1 s1) as [acc' [s' [E Hacc']]].
    { intros p Hp. unfold acc1.
      destruct (String.eqb_spec p p0) as [-> | Hne].
      - rewrite get_set_same. eauto.
      - rewrite get_set_other by assumption. apply Hentries. now right. }
    exists acc', s'. simpl. rewrite (bind_ok _ _ _ _ _ E1).
    split; [exact E |].
    intros p d Hd. destruct (String.eqb_spec p p0) as [-> | Hne].
    + assert (d = d0) by congruence. subst d.
      destruct (Hacc' p0 (with_lastVersion d0 (JsMap.get head p0)))
        as [d' [H1 [H2 [H3 H4]]]].
      { unfold acc1. apply get_set_same. }
      exists d'. split; [exact H1 |]. split; [exact H2 |]. split.
      * intros _. destruct (in_dec string_dec p0 ms) as [Hin | Hnin]; auto.
      * intros Hn. exfalso. apply Hn. now left.
    + destruct (Hacc' p d) as [d' [H1 [H2 [H3 H4]]]].
      { unfold acc1. now rewrite get_set_other. }
      exists d'. split; [exact H1 |]. split; [exact H2 |]. split.
      * intros [Heq | Hin]; [congruence | auto].
      * intros Hn. apply H4. intros Hin. apply Hn. now right.
Qed.

Lemma getManifestVersions_tip s tipEntries paths :
  headManifest s = Some (JObj tipEntries) ->
  exists s',
    getManifestVersions env (ShaFalse paths) s
    = (Ok (JsMap.of_entries tipEntries, "tip"), s').
Proof.
  intros Hhead. unfold getManifestVersions.
  match goal with
  | |- context [bind (checkpoint ?msg Failure)] =>
      set (s1 := {| configFile := configFile s; headManifest := headManifest s;
                    trace := trace s ++ [Checkpoint msg Failure] |});
      assert (E0 : checkpoint msg Failure s = (Ok tt, s1)) by reflexivity
  end.
  rewrite (bind_ok _ _ _ _ _ E0).
  assert (E1 : (m <- getManifestJson env None ;; ret (m, "tip")) s1
               = (Ok (Some (JObj tipEntries), "tip"), s1)).
  { rewrite (bind_ok _ _ _ _ _
               (getManifestJson_cached env s1 (JObj tipEntries) Hhead eq_refl)).
    reflexivity. }
  rewrite (bind_ok _ _ _ _ _ E1). cbn. eexists. reflexivity.
Qed.

Lemma getConfigJson_cached s cfg :
  configFile s = Some cfg -> getConfigJson env s = (Ok cfg, s).
Proof.
  intros H. unfold getConfigJson. cbv [bind get_state]. now rewrite H.
Qed.

End Resolver.

(* ================================================================== *)
(** * The manifest: claims *)
(* ================================================================== *)

Section ManifestClaims.
Import Manifest Effects.
Local Open Scope manifest_scope.

Variable env : Env.

Lemma silent_run {A} (P : Event -> bool) (m : M A) s r s' :
  silent P m -> m s = (r, s') -> filter P (trace s') = filter P (trace s).
Proof. intros H E. specialize (H s). now rewrite E in H. Qed.

(** C5.  A configured package with at least one attributed commit whose path
    is absent from the manifest read at the resolved reference has its path
    recorded as missing in the main pass; the resolver returns, and the
    package's candidate carries the version the manifest at the tip records
    for that path -- [undefined] when the tip has none either. *)
Theorem C5_missing_version_falls_back_to_tip
  (s s1 : State) (cfg : Config) (tipEntries : list (string * json))
  (allCommits : list Commit) (sha : option string)
  (mv : VersionsMap) (atSha : string) :
  configFile s = Some cfg ->
  headManifest s = Some (JObj tipEntries) ->
  getManifestVersions env (sha_arg sha) s = (Ok (mv, atSha), s1) ->
  exists c s2 released s',
    foldM
      (resolvePackage env
         (split env (map path (parsedPackages cfg)) allCommits) mv atSha)
      (parsedPackages cfg)
      {| packagesToRelease := []; missingVersionPaths := [] |} s1
    = (Ok c, s2) /\
    getPackagesToRelease env allCommits sha s = (Ok released, s') /\
    forall pkg c0 cs,
      In pkg (parsedPackages cfg) ->
      JsMap.get (split env (map path (parsedPackages cfg)) allCommits) (path pkg)
      = Some (c0 :: cs) ->
      JsMap.get mv (path pkg) = None ->
      In (path pkg) (missingVersionPaths c) /\
      exists d,
        In d released /\ path (prd_package d) = path pkg /\
        lastVersion d = JsMap.get (JsMap.of_entries tipEntries) (path pkg).
Proof.
  intros Hcfg Hhead Hmv.
  set (cpp := split env (map path (parsedPackages cfg)) allCommits).
  set (init := {| packagesToRelease := []; missingVersionPaths := [] |}).
  destruct (main_pass env cpp mv atSha (parsedPackages cfg) init s1)
    as [c [s2 [Emain [Hh2 [Hok [_ Hmissing]]]]]].
  assert (Hc : candidates_ok c).
  { apply Hok. split; simpl; [intros ? [] | discriminate]. }
  assert (Hh1 : headManifest s1 = Some (JObj tipEntries)).
  { pose proof (cached_getManifestVersions env (JObj tipEntries) (sha_arg sha)
                  eq_refl s Hhead) as H.
    now rewrite Hmv in H. }
  assert (Hhead2 : headManifest s2 = Some (JObj tipEntries)) by congruence.
  exists c, s2.
  unfold getPackagesToRelease.
  rewrite (bind_ok _ _ _ _ _ (getConfigJson_cached env s cfg Hcfg)).
  rewrite (bind_ok _ _ _ _ _ Hmv). cbn [fst snd]. fold cpp init.
  rewrite (bind_ok _ _ _ _ _ Emain).
  destruct (missingVersionPaths c) as [| p0 ms] eqn:Ems.
  - (* nothing is missing: no package meets the premises *)
    eexists. eexists. split; [exact Emain |]. split; [reflexivity |].
    intros pkg c0 cs Hin Hcommits Habsent. exfalso.
    apply (Hmissing pkg c0 cs Hin Hcommits). now rewrite Habsent.
  - destruct (getManifestVersions_tip env s2 tipEntries (p0 :: ms) Hhead2)
      as [s3 Etip].
    destruct (fallback_pass env (JsMap.of_entries tipEntries) (p0 :: ms)
                (packagesToRelease c) s3) as [acc' [s4 [Efall Hacc']]].
    { intros p Hp. apply (proj1 Hc). now rewrite Ems. }
    assert (Ein : (head <- getManifestVersions env (ShaFalse (p0 :: ms)) ;;
                   foldM (resolveMissing env (fst head)) (p0 :: ms)
                     (packagesToRelease c)) s2 = (Ok acc', s4)).
    { rewrite (bind_ok _ _ _ _ _ Etip). exact Efall. }
    rewrite (bind_ok _ _ _ _ _ Ein).
    eexists. eexists. split; [exact Emain |]. split; [reflexivity |].
    intros pkg c0 cs Hin Hcommits Habsent.
    assert (Hm : In (path pkg) (p0 :: ms)).
    { apply (Hmissing pkg c0 cs Hin Hcommits). now rewrite Habsent. }
    split; [exact Hm |].
    destruct (proj1 Hc (path pkg)) as [d0 Hd0]; [now rewrite Ems |].
    destruct (Hacc' _ _ Hd0) as [d' [H1 [H2 [H3 _]]]].
    exists d'. split; [| split].
    + apply get_In in H1. apply (in_map snd) in H1. exact H1.
    + rewrite H2. apply (proj2 Hc). exact Hd0.
    + auto.
Qed.

(** C9.  When the manifest at the tip holds a value that is not a string,
    [validate] answers [false], and [pullRequest] and [githubRelease] return
    [undefined] at once: whatever they add to the trace is no call that
    changes the remote host. *)
Theorem C9_non_string_manifest_value_stops_the_run
  (s : State) (c : string) (entries : list (string * json))
  (k : string) (v : json) :
  headManifest s = None ->
  getFileContents env (manifestFileName env) = Ok c ->
  JSON_parse env c = Some (JObj entries) ->
  NoDup (map fst entries) -> In (k, v) entries -> is_string v = false ->
  exists s',
    validate env s = (Ok false, s') /\
    pullRequest env s = (Ok None, s') /\
    githubRelease env s = (Ok None, s') /\
    filter is_mutation (trace s') = filter is_mutation (trace s).
Proof.
  intros Hhead Hfetch Hparse Hnd Hin Hv.
  destruct (validate_rejects_non_string env s c entries k v
              Hhead Hfetch Hparse Hnd Hin Hv) as [s' [Hvalid Hquiet]].
  exists s'. split; [exact Hvalid |].
  unfold pullRequest, githubRelease.
  rewrite !(bind_ok _ _ _ _ _ Hvalid). auto.
Qed.

(** C10.  When the run reaches the loop with an empty candidate list, it
    returns the empty record of releases and no call changes the remote
    host: the released label is not added and the pending label is not
    removed. *)
Theorem C10_empty_candidate_list_leaves_labels
  (s s1 s2 : State) (pr : MergedPR) :
  validate env s = (Ok true, s1) ->
  lastMergedPRByHeadBranch env (branchNameOf env (getDefaultBranch env)) = Some pr ->
  mem (GITHUB_RELEASE_LABEL env) (pr_labels pr) = false ->
  has_pending_label env (pr_labels pr) = true ->
  getPackagesToRelease env
    [{| c_sha := pr_sha pr; c_message := ""; c_files := pr_files pr |}]
    (Some (pr_sha pr)) s1 = (Ok [], s2) ->
  githubRelease env s = (Ok (Some []), s2) /\
  filter is_label (trace s2) = filter is_label (trace s) /\
  filter is_mutation (trace s2) = filter is_mutation (trace s).
Proof.
  intros Hvalid Hpr Hreleased Hpending Hpkgs.
  assert (Erun : githubRelease env s = (Ok (Some []), s2)).
  { now rewrite (githubRelease_reaches_loop env s s1 s2 pr [] Hvalid Hpr
                   Hreleased Hpending Hpkgs). }
  assert (Hquiet : filter is_mutation (trace s2) = filter is_mutation (trace s)).
  { rewrite (silent_run _ _ _ _ _ (getPackagesToRelease_silent env _ _) Hpkgs).
    exact (silent_run _ _ _ _ _ (validate_silent env) Hvalid). }
  split; [exact Erun |]. split; [| exact Hquiet].
  rewrite (silent_run _ _ _ _ _
             (silent_weaken _ _ _ label_is_mutation
                (getPackagesToRelease_silent env _ _)) Hpkgs).
  exact (silent_run _ _ _ _ _
           (silent_weaken _ _ _ label_is_mutation (validate_silent env)) Hvalid).
Qed.

Lemma tag_exists_validation err :
  tag_exists err = true -> is_validation_failure err = true.
Proof.
  unfold tag_exists, is_validation_failure.
  destruct (status err) as [n |]; [| discriminate].
  destruct (errors err) as [[| e entries] |]; try discriminate.
  - rewrite andb_false_r. discriminate.
  - intros H. now apply andb_true_iff in H.
Qed.

(** Where every 422 with errors is the tag that exists already, the branch
    of the code that clears the flag is the generic failure of the spec. *)
Lemma generic_is_other pr packages :
  (forall pkg err, In pkg packages ->
     createRelease_answer env pkg (lastVersion pkg) pr = Throw err ->
     is_validation_failure err = true -> tag_exists err = true) ->
  forallb (fun pkg => negb (generic_failure env pr pkg)) packages
  = forallb (fun pkg => negb (other_failure env pr pkg)) packages.
Proof.
  induction packages as [| pkg packages IH]; intros Hslip; [reflexivity |].
  cbn [forallb]. rewrite IH by (intros p e Hin; apply Hslip; now right).
  f_equal. f_equal. unfold generic_failure, other_failure. f_equal.
  destruct (createRelease_answer env pkg (lastVersion pkg) pr)
    as [rel | err] eqn:Eanswer; [reflexivity |].
  f_equal. destruct (is_validation_failure err) eqn:Ev.
  - symmetry. apply (Hslip pkg err); [now left | exact Eanswer | exact Ev].
  - destruct (tag_exists err) eqn:Et; [| reflexivity].
    apply tag_exists_validation in Et. congruence.
Qed.


End ManifestClaims.

(* ================================================================== *)
(** * The manifest on concrete hosts *)
(* ================================================================== *)

Example untouched_run :
  fst (Manifest.githubRelease Hosts.untouched Manifest.initial) = Manifest.Ok (Some [])
  /\ filter Manifest.is_mutation
       (Manifest.trace (snd (Manifest.githubRelease Hosts.untouched Manifest.initial)))
     = [].
Proof. vm_compute. auto. Qed.

Example flaky_run :
  filter Manifest.is_mutation
    (Manifest.trace (snd (Manifest.githubRelease Hosts.flaky Manifest.initial)))
  = [ Manifest.CreateRelease "packages/a" (Some (Manifest.JStr "1.0.0")) 7;
      Manifest.CommentOnIssue
        ":robot: Failed to create release for packages/a :cloud:" 7;
      Manifest.CreateRelease "packages/b" (Some (Manifest.JStr "2.0.0")) 7;
      Manifest.CommentOnIssue
        ":robot: Release for packages/b is at https://host/releases/packages/b :sunflower:"
        7 ].
Proof. vm_compute. reflexivity. Qed.

(** The refusal of [Hosts.refused] is a 422 with errors and not the tag that
    exists already: the case the amended C4 leaves out. *)
Example refused_is_no_conflict :
  Manifest.is_validation_failure Hosts.unprocessable = true /\
  Effects.tag_exists Hosts.unprocessable = false.
Proof. split; reflexivity. Qed.

(** A rejected comment ends the run where it is awaited: the release of
    packages/a is created, the one of packages/b is not attempted, and the
    pull request keeps its label. *)
Example silenced_run :
  fst (Manifest.githubRelease Sites.silenced Manifest.initial)
  = Manifest.Throw Hosts.serverError /\
  filter Manifest.is_mutation
    (Manifest.trace (snd (Manifest.githubRelease Sites.silenced Manifest.initial)))
  = [ Manifest.CreateRelease "packages/a" (Some (Manifest.JStr "1.0.0")) 7;
      Manifest.CommentOnIssue
        ":robot: Release for packages/a is at https://host/releases/packages/a :sunflower:"
        7 ].
Proof. vm_compute. auto. Qed.

(** A rejected removal of the pending label ends the run after both label
    calls. *)
Example halfLabeled_run :
  fst (Manifest.githubRelease Sites.halfLabeled Manifest.initial)
  = Manifest.Throw Hosts.serverError /\
  filter Effects.is_label
    (Manifest.trace (snd (Manifest.githubRelease Sites.halfLabeled Manifest.initial)))
  = [ Manifest.AddLabels ["autorelease: tagged"] 7;
      Manifest.RemoveLabels ["autorelease: pending"] 7 ].
Proof. vm_compute. auto. Qed.

Example addedSince_candidates :
  map (fun d => (Manifest.path (Manifest.prd_package d), Manifest.lastVersion d))
    (match fst (Manifest.getPackagesToRelease Hosts.addedSince
                  [Hosts.mergeCommit (Hosts.pending
                     ["packages/a/package.json"; "packages/b/package.json"])]
                  (Some "abc123") (Hosts.validated Hosts.addedSince)) with
     | Manifest.Ok l => l
     | Manifest.Throw _ => []
     end)
  = [ ("packages/a", Some (Manifest.JStr "1.0.0"));
      ("packages/b", Some (Manifest.JStr "2.0.0")) ].
Proof. vm_compute. reflexivity. Qed.

Section HostWitnesses.
Import Manifest Effects Hosts.

(** packages/b has commits and no entry in the manifest at the last release;
    its candidate carries the version of the manifest at the tip. *)
Lemma C5_added_package_witness :
  exists released s',
    getPackagesToRelease addedSince
      [mergeCommit (pending ["packages/a/package.json"; "packages/b/package.json"])]
      (Some "abc123") (validated addedSince) = (Ok released, s') /\
    exists d,
      In d released /\ path (prd_package d) = "packages/b" /\
      lastVersion d = Some (JStr "2.0.0").
Proof.
  pose (s := validated addedSince).
  pose (commit :=
          mergeCommit (pending ["packages/a/package.json"; "packages/b/package.json"])).
  destruct (C5_missing_version_falls_back_to_tip addedSince s
              (snd (getManifestVersions addedSince (ShaString "abc123") s))
              (configOf s)
              [("packages/a", JStr "1.0.0"); ("packages/b", JStr "2.0.0")]
              [commit] (Some "abc123")
              [("packages/a", JStr "1.0.0")] "abc123")
    as [c [s2 [released [s' [_ [Erun Hall]]]]]].
  - reflexivity.
  - reflexivity.
  - vm_compute. reflexivity.
  - exists released, s'. split; [exact Erun |].
    destruct (Hall (nth 1 (parsedPackages (configOf s))
                      {| path := ""; releaseType := None; packageName := None;
                         bumpMinorPreMajor := None; changelogSections := None;
                         changelogPath := None; releaseAs := None;
                         releaseDraft := false |})
                   commit [])
      as [_ [d Hd]].
    + vm_compute. auto.
    + vm_compute. reflexivity.
    + vm_compute. reflexivity.
    + exists d. exact Hd.
Defined.

(** The manifest maps packages/a to the number 5: nothing is attempted. *)
Lemma C9_number_in_manifest_witness :
  exists s',
    validate numberInManifest initial = (Ok false, s') /\
    pullRequest numberInManifest initial = (Ok None, s') /\
    githubRelease numberInManifest initial = (Ok None, s') /\
    filter is_mutation (trace s') = filter is_mutation (trace initial).
Proof.
  apply (C9_non_string_manifest_value_stops_the_run numberInManifest initial
           "tip" [("packages/a", JNum 5)] "packages/a" (JNum 5)).
  - reflexivity.
  - reflexivity.
  - reflexivity.
  - repeat constructor. simpl. tauto.
  - simpl. auto.
  - reflexivity.
Defined.

(** The merged pull request touched no package: no candidate, no label. *)
Lemma C10_untouched_witness :
  githubRelease untouched initial
  = (Ok (Some []),
     snd (getPackagesToRelease untouched [mergeCommit (pending ["README.md"])]
            (Some "abc123") (validated untouched))) /\
  filter is_label
    (trace (snd (getPackagesToRelease untouched [mergeCommit (pending ["README.md"])]
                   (Some "abc123") (validated untouched))))
  = filter is_label (trace initial) /\
  filter is_mutation
    (trace (snd (getPackagesToRelease untouched [mergeCommit (pending ["README.md"])]
                   (Some "abc123") (validated untouched))))
  = filter is_mutation (trace initial).
Proof.
  apply (C10_empty_candidate_list_leaves_labels untouched initial
           (validated untouched) _ (pending ["README.md"])).
  - vm_compute. reflexivity.
  - reflexivity.
  - reflexivity.
  - reflexivity.
  - vm_compute. reflexivity.
Defined.



(** C2 at the failing input: [createRelease] is refused with a 422 whose
    first error is not the duplicate tag.  The package is recorded without a
    release, no failure comment is posted, and the pull request is
    re-labeled as released. *)
Lemma C2_refused_release_is_counted_as_created :
  fst (githubRelease refused initial) = Ok (Some [("packages/a", None)]) /\
  filter is_mutation (trace (snd (githubRelease refused initial)))
  = [ CreateRelease "packages/a" (Some (JStr "1.0.0")) 7;
      AddLabels ["autorelease: tagged"] 7;
      RemoveLabels ["autorelease: pending"] 7 ] /\
  is_validation_failure unprocessable = true /\
  first_is_duplicate_tag unprocessable = false.
Proof. vm_compute. auto. Qed.

End HostWitnesses.

(* ================================================================== *)
(** * Merging the propagation into the pull-request data *)
(* ================================================================== *)

Section MergeFacts.
Import Lerna NodeWorkspace.

Variable packageJsonStringify : PackageJson -> string.

(** For a node package with a pending change of its package.json, the first
    loop of [updatePkgsWithPRData] sets the pending file data back as it
    was: the content computed from the updated package is not used. *)
Lemma mergeExisting_keeps_pending_content st pkg updated existing :
  releaseType (config pkg) = "node" ->
  JsMap.get (allUpdated st) (path (config pkg) ++ "/package.json")%string
  = Some updated ->
  JsMap.get (changes (prData pkg)) (path (config pkg) ++ "/package.json")%string
  = Some existing ->
  exists pkg',
    pkgsWithPRData (mergeExisting packageJsonStringify st pkg)
    = pkgsWithPRData st ++ [pkg'] /\
    JsMap.get (changes (prData pkg')) (path (config pkg) ++ "/package.json")%string
    = Some existing /\
    JsMap.get (newManifestVersions (mergeExisting packageJsonStringify st pkg))
      (path (config pkg))
    = Some (pkg_version updated).
Proof.
  intros Htype Hupdated Hexisting. unfold mergeExisting.
  rewrite Htype. change (String.eqb "node" "node") with true. cbn [negb].
  rewrite Hupdated, Hexisting. cbn.
  eexists. split; [reflexivity |]. cbn. split; apply get_set_same.
Qed.

(** A package of the output without a pull-request entry is appended with
    its version and descriptor when it is a configured package, and its
    version is recorded under its path. *)
Lemma appendNew_appends st filePath update pkg :
  find (is_package_json_of filePath) (parsedPackages st) = Some pkg ->
  let st' := appendNew packageJsonStringify st (filePath, update) in
  pkgsWithPRData st'
  = pkgsWithPRData st
    ++ [{| config :=
             {| path := path pkg; releaseType := releaseType pkg;
                packageName := Some (pkg_name update) |};
           prData :=
             {| prVersion := pkg_version update;
                changes :=
                  [(filePath,
                    {| content := Some (packageJsonStringify (pkg_json update));
                       mode := "100644" |})] |} |}] /\
  JsMap.get (newManifestVersions st') (strip_package_json filePath)
  = Some (pkg_version update).
Proof.
  intros Hfind. unfold appendNew. rewrite Hfind. cbn. split; [reflexivity |].
  apply get_set_same.
Qed.

End MergeFacts.


(** C3 at the failing input: the propagation rewrote pkgB's range on pkgA to
    ^1.1.2, but the pending package.json of pkgB in the merged pull-request
    data still has the content its releaser wrote, with ^1.1.1. *)
Lemma C3_pending_content_is_not_overwritten :
  option_map (fun p => Lerna.dep_spec p "@here/pkgA")
    (JsMap.get Triangle.propagated "packages/pkgB/package.json")
  = Some (Some "^1.1.2") /\
  Triangle.pendingContent "packages/pkgB" "packages/pkgB/package.json"
  = Some "@here/pkgB@2.3.0 {@here/pkgA: ^1.1.1, someExternal: ^9.2.3}" /\
  option_map (fun p => Examples.stringify (Lerna.pkg_json p))
    (JsMap.get Triangle.propagated "packages/pkgB/package.json")
  = Some "@here/pkgB@2.3.0 {@here/pkgA: ^1.1.2, someExternal: ^9.2.3}".
Proof. vm_compute. auto. Qed.

(* ================================================================== *)
(** * Reading the configuration and the manifest: further facts *)
(* ================================================================== *)

Section ReadFacts.
Import Manifest Effects.
Local Open Scope manifest_scope.

Variable env : Env.

(** X11.  The release-as of a package is [undefined] or a truthy value, never an
    empty string or [null]; a per-package setting, empty or not, makes the
    default irrelevant; without one the default counts when it is truthy. *)
Theorem resolveReleaseAs_precedence (pkgRA defaultRA : value) :
  (resolveReleaseAs pkgRA defaultRA = None \/
   truthy_value (resolveReleaseAs pkgRA defaultRA) = true) /\
  (pkgRA <> None ->
   resolveReleaseAs pkgRA defaultRA
   = if truthy_value pkgRA then pkgRA else None) /\
  (pkgRA = None ->
   resolveReleaseAs pkgRA defaultRA
   = if truthy_value defaultRA then defaultRA else None).
Proof.
  unfold resolveReleaseAs. split; [| split].
  - destruct pkgRA as [p |].
    + destruct (truthy_value (Some p)) eqn:E; cbn [negb]; auto.
    + destruct (truthy_value defaultRA) eqn:E; cbn [negb]; auto.
      rewrite E. auto.
  - intros Hp. destruct pkgRA as [p |]; [| congruence].
    destruct (truthy_value (Some p)); reflexivity.
  - intros ->. destruct (truthy_value defaultRA) eqn:E; cbn [negb].
    + now rewrite E.
    + reflexivity.
Qed.

(** X12.  A failed fetch is logged once as a failure; it is thrown again when no
    [sha] was given, and answered with [undefined] when one was. *)
Theorem getFileJson_failed_fetch
  (fileName : string) (sha : option string) (e : Exn) (s : State) :
  (if truthy sha
   then getFileContentsWithSimpleAPI env fileName
          (match sha with Some s0 => s0 | None => "" end)
   else getFileContents env fileName) = Throw e ->
  exists msg,
    getFileJson env fileName sha s
    = (match sha with None => Throw e | Some _ => Ok None end,
       {| configFile := configFile s; headManifest := headManifest s;
          trace := trace s ++ [Checkpoint msg Failure] |}).
Proof.
  intros Hfetch. unfold getFileJson.
  cbv [bind try_catch lift checkpoint emit]. rewrite Hfetch.
  destruct sha as [sha |]; cbn; eexists; reflexivity.
Qed.

Lemma getManifestJson_result s v s' :
  getManifestJson env None s = (Ok v, s') -> headManifest s' = v.
Proof.
  unfold getManifestJson. cbv [bind get_state ret set_headManifest].
  destruct (negb (truthy_value (headManifest s))).
  - destruct (getFileJson env (manifestFileName env) None s) as [[m | e] s1].
    + cbn. now intros [= <- <-].
    + discriminate.
  - now intros [= <- <-].
Qed.

(** X13.  Once the manifest at the tip was read, later reads are served from the
    instance: they give the same document and leave the state alone whatever
    the host would answer by then. *)
Theorem getManifestJson_reads_host_once
  (env' : Env) (s s' : State) (j : json) :
  getManifestJson env None s = (Ok (Some j), s') ->
  truthy_value (Some j) = true ->
  getManifestJson env' None s' = (Ok (Some j), s').
Proof.
  intros Hread Ht. apply getManifestJson_cached; [| exact Ht].
  exact (getManifestJson_result s (Some j) s' Hread).
Qed.

Lemma getConfigJson_result s c s' :
  getConfigJson env s = (Ok c, s') -> configFile s' = Some c.
Proof.
  unfold getConfigJson. cbv [bind get_state].
  destruct (configFile s) as [c0 |] eqn:Ec.
  - cbv [ret]. intros [= <- <-]. exact Ec.
  - destruct (getFileJson env (configFileName env) None s) as [[config | e] s1];
      [| discriminate].
    cbv [lift]. destruct (prop config "packages") as [pkgs | e]; [| discriminate].
    destruct (parsePackages _ _ _) as [packages | e]; [| discriminate].
    cbv [set_configFile ret]. now intros [= <- <-].
Qed.

(** X14.  The configuration is parsed once: after a read that returned, every
    later read returns the same configuration and leaves the state alone,
    whatever the host would answer by then. *)
Theorem getConfigJson_reads_host_once (env' : Env) (s s' : State) (c : Config) :
  getConfigJson env s = (Ok c, s') ->
  getConfigJson env' s' = (Ok c, s').
Proof.
  intros Hread. apply getConfigJson_cached.
  exact (getConfigJson_result s c s' Hread).
Qed.

End ReadFacts.

Section VersionFacts.
Import Manifest Effects.
Local Open Scope manifest_scope.

Variable env : Env.

(** X16.  With the manifest present at the last release, the versions are the
    entries of that document and are reported as read at the release; the
    read logs nothing and does not touch the instance. *)
Theorem getManifestVersions_at_release
  (sha c : string) (entries : list (string * json)) (s : State) :
  sha <> "" ->
  getFileContentsWithSimpleAPI env (manifestFileName env) sha = Ok c ->
  JSON_parse env c = Some (JObj entries) ->
  getManifestVersions env (ShaString sha) s
  = (Ok (JsMap.of_entries entries, sha), s).
Proof.
  intros Hne Hfetch Hparse. apply String.eqb_neq in Hne.
  unfold getManifestVersions, getManifestJson, getFileJson, parseVersions.
  cbv [bind ret try_catch lift truthy]. rewrite Hne. cbn [negb].
  rewrite Hfetch, Hparse. reflexivity.
Qed.

(** X17.  When the manifest cannot be fetched at the last release, the failure and
    the bootstrap are logged, and the versions are those of the manifest at
    the tip, reported as read at the tip. *)
Theorem getManifestVersions_deleted_at_release
  (sha : string) (e : Exn) (tipEntries : list (string * json)) (s : State) :
  sha <> "" ->
  getFileContentsWithSimpleAPI env (manifestFileName env) sha = Throw e ->
  headManifest s = Some (JObj tipEntries) ->
  exists msg,
    getManifestVersions env (ShaString sha) s
    = (Ok (JsMap.of_entries tipEntries, "tip"),
       {| configFile := configFile s; headManifest := headManifest s;
          trace := trace s ++ [Checkpoint msg Failure;
                               Checkpoint (bootstrapMsg env) Failure] |}).
Proof.
  intros Hne Hfetch Hhead. apply String.eqb_neq in Hne.
  unfold getManifestVersions, getManifestJson, getFileJson, parseVersions.
  cbv [bind ret try_catch lift truthy checkpoint emit get_state]. rewrite Hne.
  cbn [negb]. rewrite Hfetch. cbn. rewrite Hhead. cbn.
  rewrite <- app_assoc. eexists. reflexivity.
Qed.

End VersionFacts.

Section ConfigFacts.
Import Manifest Effects Flows.
Local Open Scope manifest_scope.

Variable env : Env.

Lemma resolveReleaseAs_truthy pkgRA defaultRA :
  resolveReleaseAs pkgRA defaultRA = None \/
  truthy_value (resolveReleaseAs pkgRA defaultRA) = true.
Proof.
  unfold resolveReleaseAs. destruct pkgRA as [p |].
  - destruct (truthy_value (Some p)) eqn:E; cbn [negb]; auto.
  - destruct (truthy_value defaultRA) eqn:E; cbn [negb]; auto.
    rewrite E. auto.
Qed.

Lemma nullish_node a b :
  nullish (nullish a b) (Some (JStr "node")) <> None /\
  nullish (nullish a b) (Some (JStr "node")) <> Some JNull.
Proof. destruct a as [[] |], b as [[] |]; cbn; split; discriminate. Qed.

Lemma parsePackage_result config acc k cfg acc' :
  parsePackage config acc (k, cfg) = Ok acc' ->
  exists p, acc' = acc ++ [p] /\ path p = k /\ settled p.
Proof.
  unfold parsePackage. cbv zeta.
  repeat match goal with
         | |- context [match prop ?a ?b with _ => _ end] => destruct (prop a b)
         end; try discriminate.
  intros [= <-]. eexists. split; [reflexivity |]. split; [reflexivity |].
  unfold settled. cbn [releaseType releaseAs].
  split; [apply nullish_node |]. split; [apply nullish_node |].
  apply resolveReleaseAs_truthy.
Qed.

Lemma parsePackages_result config entries :
  forall acc pkgs,
  parsePackages config entries acc = Ok pkgs ->
  map path pkgs = map path acc ++ map fst entries /\
  (Forall settled acc -> Forall settled pkgs).
Proof.
  induction entries as [| [k cfg] entries IH]; intros acc pkgs;
    cbn [parsePackages].
  - intros [= <-]. simpl. rewrite app_nil_r. auto.
  - destruct (parsePackage config acc (k, cfg)) as [acc' | e] eqn:E; [| discriminate].
    intros H. apply parsePackage_result in E. destruct E as [p [-> [Hp Hs]]].
    apply IH in H. destruct H as [Hpaths Hall]. split.
    + rewrite Hpaths, map_app, <- app_assoc. simpl. now rewrite Hp.
    + intros Hacc. apply Hall. apply Forall_app. auto.
Qed.

(** X15.  Every key of [packages] in the configuration document becomes one parsed
    package, in the order of the document and with the key as its path; each
    has a release type (['node'] when neither the package nor the document
    names one) and a release-as that is [undefined] or truthy.  The document
    has no [parsedPackages] entry of its own, which the spread would let
    win. *)
Theorem getConfigJson_parsed_packages (s s' : State) (c : Config) :
  configFile s = None ->
  getConfigJson env s = (Ok c, s') ->
  JsMap.get (own_entries (config_json c)) "parsedPackages" = None ->
  map path (parsedPackages c)
  = map fst (match prop (Some (config_json c)) "packages" with
             | Ok (Some p) => own_entries p
             | _ => []
             end) /\
  Forall settled (parsedPackages c).
Proof.
  intros Hnone Hread _. revert Hread.
  unfold getConfigJson. cbv [bind get_state]. rewrite Hnone.
  destruct (getFileJson env (configFileName env) None s) as [[config | e] s1];
    [| discriminate].
  cbv [lift]. destruct (prop config "packages") as [pkgs | e] eqn:Ep; [| discriminate].
  destruct (parsePackages _ _ _) as [packages | e] eqn:Eparse; [| discriminate].
  destruct config as [j |]; [| discriminate Ep].
  cbv [set_configFile ret]. intros [= <- _]. cbn [parsedPackages config_json].
  apply parsePackages_result in Eparse. destruct Eparse as [Hpaths Hall].
  split; [| apply Hall; constructor].
  rewrite Hpaths, Ep. cbn [map app]. destruct pkgs; reflexivity.
Qed.

Lemma getManifestJson_keeps_config s :
  configFile (snd (getManifestJson env None s)) = configFile s.
Proof.
  unfold getManifestJson, getFileJson.
  cbv [bind get_state ret set_headManifest try_catch lift checkpoint emit throw].
  destruct (negb (truthy_value (headManifest s))).
  - destruct (getFileContents env (manifestFileName env)) as [c | e].
    + cbn. destruct (JSON_parse env c); cbn; reflexivity.
    + cbn. reflexivity.
  - reflexivity.
Qed.

(** The configuration stage of [validate]: a valid answer is the cached
    configuration. *)
Lemma validateConfig_stage fileName s o s' :
  validateJsonFile env GetConfigJson fileName s = (Ok o, s') ->
  o = None \/ exists c, o = Some (ConfigObject c) /\ configFile s' = Some c.
Proof.
  unfold validateJsonFile. cbv [try_catch bind].
  destruct (getConfigJson env s) as [[c | e] s1] eqn:E.
  - cbv [lift]. destruct (constructor_is_Object _) as [[|] | e'].
    + cbv [ret]. intros [= <- <-]. right. exists c. split; [reflexivity |].
      exact (getConfigJson_result env s c s1 E).
    + cbv [ret]. intros [= <- _]. now left.
    + cbn. intros [= <- _]. now left.
  - cbn. intros [= <- _]. now left.
Qed.

(** The manifest stage of [validate]: a valid answer is the cached manifest,
    an object; the stage leaves the cached configuration alone. *)
Lemma validateManifest_stage fileName s o s' :
  validateJsonFile env GetManifestJson fileName s = (Ok o, s') ->
  configFile s' = configFile s /\
  (o = None \/
   exists entries,
     o = Some (ManifestObject (Some (JObj entries))) /\
     headManifest s' = Some (JObj entries)).
Proof.
  unfold validateJsonFile. cbv [try_catch bind].
  destruct (getManifestJson env None s) as [[v | e] s1] eqn:E.
  - pose proof (getManifestJson_keeps_config s) as Hc.
    rewrite E in Hc. cbn [snd] in Hc.
    pose proof (getManifestJson_result env s v s1 E) as Hh.
    cbv [lift]. destruct v as [[| b | n | str | items | entries] |]; cbn;
      try (intros [= <- <-]; cbn; split; [exact Hc | now left]).
    destruct (constructor_is_Object entries) as [[|] | e']; cbn;
      intros [= <- <-]; cbn; (split; [exact Hc |]); [right | left | left]; eauto.
  - pose proof (getManifestJson_keeps_config s) as Hc.
    rewrite E in Hc. cbn [snd] in Hc.
    cbn. intros [= <- <-]. cbn. split; [exact Hc | now left].
Qed.

Lemma validate_returns s : exists valid s', validate env s = (Ok valid, s').
Proof.
  unfold validate.
  destruct (total_run _ s (validateJsonFile_total env GetConfigJson (configFileName env)))
    as [cv [s1 E1]].
  rewrite (bind_ok _ _ _ _ _ E1).
  match goal with
  | |- exists _ _, bind ?m ?f s1 = _ =>
      assert (Hstage : exists vc s2, m s1 = (Ok vc, s2))
  end.
  { destruct cv as [[obj | v0] |]; try (eexists; eexists; reflexivity).
    destruct (negb (negb (packages_count obj =? 0)%nat)); eexists; eexists;
      reflexivity. }
  destruct Hstage as [vc [s2 E2]]. rewrite (bind_ok _ _ _ _ _ E2).
  destruct (total_run _ s2
              (validateJsonFile_total env GetManifestJson (manifestFileName env)))
    as [mv [s3 E3]].
  rewrite (bind_ok _ _ _ _ _ E3).
  destruct (validateManifest_stage _ _ _ _ E3) as [_ [-> | [entries [-> _]]]].
  - eexists. eexists. reflexivity.
  - cbv [bind lift Object_entries own_entries].
    destruct (has_non_string _); eexists; eexists; reflexivity.
Qed.

(** X18.  A configuration file that is no JSON is answered as invalid, not thrown:
    [validateJsonFile] logs that the file holds invalid JSON and caches
    nothing. *)
Theorem validateJsonFile_invalid_json (s : State) (c : string) :
  configFile s = None ->
  getFileContents env (configFileName env) = Ok c ->
  JSON_parse env c = None ->
  validateJsonFile env GetConfigJson (configFileName env) s
  = (Ok None,
     {| configFile := None; headManifest := headManifest s;
        trace := trace s
                 ++ [Checkpoint ("Invalid JSON in " ++ configFileName env)
                       Failure] |}).
Proof.
  intros Hnone Hfetch Hparse.
  unfold validateJsonFile, getConfigJson, getFileJson.
  cbv [try_catch bind get_state lift ret throw checkpoint emit truthy].
  rewrite Hnone, Hfetch. cbn. rewrite Hparse. cbn. rewrite Hnone. reflexivity.
Qed.

(** X19.  [validate] never throws and never changes the remote host: whatever goes
    wrong while the two files are fetched and parsed ends in an answer. *)
Theorem validate_only_reads (s : State) :
  exists valid s',
    validate env s = (Ok valid, s') /\
    filter is_mutation (trace s') = filter is_mutation (trace s).
Proof.
  destruct (validate_returns s) as [valid [s' E]]. exists valid, s'.
  split; [exact E |].
  pose proof (validate_silent env s) as H. now rewrite E in H.
Qed.

Lemma validate_true_cached s s' :
  validate env s = (Ok true, s') -> exists c, configFile s' = Some c.
Proof.
  unfold validate.
  destruct (total_run _ s (validateJsonFile_total env GetConfigJson (configFileName env)))
    as [cv [s1 E1]].
  rewrite (bind_ok _ _ _ _ _ E1).
  destruct (validateConfig_stage _ _ _ _ E1) as [-> | [c [-> Hc]]].
  - cbv [bind ret].
    destruct (validateJsonFile env GetManifestJson (manifestFileName env) s1)
      as [[mv | e] s3]; [| discriminate].
    destruct mv as [[c0 | [obj |]] |]; cbn; try discriminate.
    destruct (Object_entries obj); cbn; [| discriminate].
    destruct (has_non_string _); discriminate.
  - destruct (packages_count c =? 0)%nat eqn:Ecount.
    + cbn. cbv [bind ret].
      destruct (validateJsonFile env GetManifestJson (manifestFileName env) _)
        as [[mv | e] s3]; [| discriminate].
      destruct mv as [[c0 | [obj |]] |]; cbn; try discriminate.
      destruct (Object_entries obj); cbn; [| discriminate].
      destruct (has_non_string _); discriminate.
    + cbn [negb]. cbv [bind ret].
      destruct (validateJsonFile env GetManifestJson (manifestFileName env) s1)
        as [[mv | e] s3] eqn:E3; [| discriminate].
      destruct (validateManifest_stage _ _ _ _ E3)
        as [Hkeep [-> | [entries [-> Hh]]]]; [discriminate |].
      cbv [lift Object_entries own_entries].
      destruct (has_non_string (JsMap.of_entries entries)) eqn:Ens; cbn;
        [discriminate |].
      intros [= <-]. exists c. congruence.
Qed.

(** X20.  A run that [validate] lets through has both files cached on the
    instance: a configuration that names at least one package, and a manifest
    that is an object with string values only. *)
Theorem validate_true_is_wellformed (s s' : State) :
  validate env s = (Ok true, s') ->
  exists c entries,
    configFile s' = Some c /\ packages_count c <> 0 /\
    headManifest s' = Some (JObj entries) /\
    has_non_string (JsMap.of_entries entries) = false.
Proof.
  unfold validate.
  destruct (total_run _ s (validateJsonFile_total env GetConfigJson (configFileName env)))
    as [cv [s1 E1]].
  rewrite (bind_ok _ _ _ _ _ E1).
  destruct (validateConfig_stage _ _ _ _ E1) as [-> | [c [-> Hc]]].
  - cbv [bind ret].
    destruct (validateJsonFile env GetManifestJson (manifestFileName env) s1)
      as [[mv | e] s3]; [| discriminate].
    destruct mv as [[c0 | [obj |]] |]; cbn; try discriminate.
    destruct (Object_entries obj); cbn; [| discriminate].
    destruct (has_non_string _); discriminate.
  - destruct (packages_count c =? 0)%nat eqn:Ecount.
    + cbn. cbv [bind ret].
      destruct (validateJsonFile env GetManifestJson (manifestFileName env) _)
        as [[mv | e] s3]; [| discriminate].
      destruct mv as [[c0 | [obj |]] |]; cbn; try discriminate.
      destruct (Object_entries obj); cbn; [| discriminate].
      destruct (has_non_string _); discriminate.
    + cbn [negb]. cbv [bind ret].
      destruct (validateJsonFile env GetManifestJson (manifestFileName env) s1)
        as [[mv | e] s3] eqn:E3; [| discriminate].
      destruct (validateManifest_stage _ _ _ _ E3)
        as [Hkeep [-> | [entries [-> Hh]]]]; [discriminate |].
      cbv [lift Object_entries own_entries].
      destruct (has_non_string (JsMap.of_entries entries)) eqn:Ens; cbn;
        [discriminate |].
      intros [= <-]. exists c, entries. repeat split; auto.
      * congruence.
      * apply Nat.eqb_neq. exact Ecount.
Qed.

End ConfigFacts.

(* ================================================================== *)
(** * The pull-request flow *)
(* ================================================================== *)

Section PullRequestFacts.
Import Manifest Effects Flows.
Local Open Scope manifest_scope.

Variable env : Env.

(** ** [runReleasers] *)

Lemma runReleaser_result sha acc pkg s :
  exists s',
    runReleaser env sha acc pkg s
    = (Ok match getOpenPROptions env pkg (latestTag env sha pkg) with
          | Some options =>
              {| manifestUpdates :=
                   JsMap.set (manifestUpdates acc) (path (prd_package pkg))
                     (JStr (o_version options));
                 openPRPackages :=
                   openPRPackages acc
                   ++ [{| pwd_name := releasePR_packageName env pkg;
                          openPROptions := options |}] |}
          | None => acc
          end, s').
Proof.
  unfold runReleaser, latestTag. cbv [bind checkpoint emit].
  destruct (lastVersion pkg) as [v |]; cbn [negb];
    destruct (getOpenPROptions env pkg _); eexists; reflexivity.
Qed.

Lemma runReleaser_silent sha acc pkg :
  silent is_mutation (runReleaser env sha acc pkg).
Proof. unfold runReleaser. silence. Qed.

Lemma runReleasers_silent packages sha :
  silent is_mutation (runReleasers env packages sha).
Proof.
  unfold runReleasers. apply silent_foldM. intros. apply runReleaser_silent.
Qed.

Lemma runReleasers_fold sha packages :
  forall acc s,
  exists r s',
    foldM (runReleaser env sha) packages acc s = (Ok r, s') /\
    openPRPackages r
    = openPRPackages acc ++ flat_map (openPRPackage env sha) packages /\
    (forall p,
       In p (JsMap.keys (manifestUpdates r)) <->
       In p (JsMap.keys (manifestUpdates acc)) \/
       exists pkg, In pkg packages /\ path (prd_package pkg) = p /\
                   getOpenPROptions env pkg (latestTag env sha pkg) <> None).
Proof.
  induction packages as [| pkg packages IH]; intros acc s.
  - exists acc, s. cbn. split; [reflexivity |]. split; [now rewrite app_nil_r |].
    intros p. split; [auto | intros [H | [pkg [[] _]]]; exact H].
  - destruct (runReleaser_result sha acc pkg s) as [s1 E1].
    match type of E1 with _ = (Ok ?a, _) => set (acc1 := a) in * end.
    destruct (IH acc1 s1) as [r [s' [E [Hopen Hkeys]]]].
    exists r, s'. cbn [foldM]. rewrite (bind_ok _ _ _ _ _ E1).
    split; [exact E |]. split.
    + rewrite Hopen. unfold acc1, openPRPackage. cbn [flat_map].
      destruct (getOpenPROptions env pkg (latestTag env sha pkg)); cbn.
      * now rewrite <- app_assoc.
      * reflexivity.
    + intros p. rewrite Hkeys. unfold acc1.
      destruct (getOpenPROptions env pkg (latestTag env sha pkg)) as [o |] eqn:Eo;
        cbn [manifestUpdates].
      * rewrite keys_set. split.
        -- intros [[-> | H] | [pkg' [Hin Hrest]]]; auto.
           ++ right. exists pkg. split; [now left |]. split; [reflexivity |].
              congruence.
           ++ right. exists pkg'. split; [now right | exact Hrest].
        -- intros [H | [pkg' [[<- | Hin] [Hp Ho]]]]; auto.
           right. exists pkg'. auto.
      * split.
        -- intros [H | [pkg' [Hin Hrest]]]; auto.
           right. exists pkg'. split; [now right | exact Hrest].
        -- intros [H | [pkg' [[<- | Hin] [Hp Ho]]]]; auto.
           ++ congruence.
           ++ right. exists pkg'. auto.
Qed.

(** X23.  With releasers that answer, [runReleasers] makes no call that changes
    the host; it keeps, in order, the candidates whose releaser has something
    to release, and the manifest updates name exactly the paths of those
    candidates. *)
Theorem runReleasers_keeps_what_releasers_open
  (packages : list PackageReleaseData) (sha : option string) (s : State) :
  exists r s',
    runReleasers env packages sha s = (Ok r, s') /\
    openPRPackages r = flat_map (openPRPackage env sha) packages /\
    (forall p,
       In p (JsMap.keys (manifestUpdates r)) <->
       exists pkg, In pkg packages /\ path (prd_package pkg) = p /\
                   getOpenPROptions env pkg (latestTag env sha pkg) <> None) /\
    filter is_mutation (trace s') = filter is_mutation (trace s).
Proof.
  destruct (runReleasers_fold sha packages
              {| manifestUpdates := []; openPRPackages := [] |} s)
    as [r [s' [E [Hopen Hkeys]]]].
  exists r, s'. split; [exact E |]. split; [exact Hopen |]. split.
  - intros p. rewrite Hkeys. cbn. tauto.
  - pose proof (runReleasers_silent packages sha s) as H.
    unfold runReleasers in H. now rewrite E in H.
Qed.

(** ** [buildManifestPR] *)

Lemma fold_left_app_flat_map {A B} (f : A -> list B) (l : list A) :
  forall acc, fold_left (fun u p => u ++ f p) l acc = acc ++ flat_map f l.
Proof.
  induction l as [| x l IH]; intros acc; simpl.
  - now rewrite app_nil_r.
  - now rewrite IH, <- app_assoc.
Qed.

(** X24.  With the manifest at the tip cached, [buildManifestPR] returns without
    touching the state; the updates are those of the packages, in order,
    followed by one update of the manifest file that carries the manifest
    updates and the cached document. *)
Theorem buildManifestPR_updates
  (updatesMap : VersionsMap) (prPackages : list PackageWithPRData)
  (s : State) (j : json) :
  headManifest s = Some j -> truthy_value (Some j) = true ->
  exists body,
    buildManifestPR env updatesMap prPackages s
    = (Ok (body,
           flat_map (fun p => o_updates (openPROptions p)) prPackages
           ++ [ReleasePleaseManifest (manifestFileName env) updatesMap
                 (JSON_stringify_base64 env (Some j))]),
       s).
Proof.
  intros Hhead Ht. unfold buildManifestPR.
  rewrite (bind_ok _ _ _ _ _ (getManifestJson_cached env s j Hhead Ht)).
  rewrite fold_left_app_flat_map. cbn [app]. eexists. reflexivity.
Qed.

Lemma buildManifestPR_silent updatesMap prPackages :
  silent is_mutation (buildManifestPR env updatesMap prPackages).
Proof.
  unfold buildManifestPR.
  apply silent_bind; [apply getManifestJson_silent | intros; apply silent_ret].
Qed.

Lemma commitsSinceSha_silent sha : silent is_mutation (commitsSinceSha' env sha).
Proof.
  unfold commitsSinceSha'. destruct sha; [apply silent_ret |].
  apply silent_bind; [apply getConfigJson_silent | intros; apply silent_ret].
Qed.

(** ** [pullRequest] *)

(** What the steps of [pullRequest] before the pull request is opened come
    to: they throw, or stop without a result, or hand over the packages to
    open a pull request for; none of them changes the remote host. *)
Lemma pullRequest_steps s :
  let branchName := branchNameOf env (getDefaultBranch env) in
  (exists r s',
     pullRequest env s = (r, s') /\
     (r = Ok None \/ exists e, r = Throw e) /\
     filter is_mutation (trace s') = filter is_mutation (trace s)) \/
  (exists packages sha s2 rel s3 bu s4,
     runReleasers env packages sha s2 = (Ok rel, s3) /\
     openPRPackages rel <> [] /\
     buildManifestPR env (manifestUpdates rel) (openPRPackages rel) s3
     = (Ok bu, s4) /\
     filter is_mutation (trace s4) = filter is_mutation (trace s) /\
     pullRequest env s = openPullRequest env branchName (fst bu) (snd bu) s4).
Proof.
  intros branchName. unfold pullRequest. fold branchName.
  destruct (validate_returns env s) as [valid [s1 E1]].
  pose proof (silent_snd _ _ s (validate_silent env)) as H1.
  rewrite E1 in H1. cbn [snd] in H1.
  rewrite (bind_ok _ _ _ _ _ E1).
  destruct valid; cbn [negb].
  2:{ left. eexists. eexists. split; [reflexivity |]. split; [now left | exact H1]. }
  set (sha := option_map pr_sha (lastMergedPRByHeadBranch env branchName)).
  pose proof (silent_snd _ _ s1 (commitsSinceSha_silent sha)) as H2.
  destruct (commitsSinceSha' env sha s1) as [[allCommits | e] s2] eqn:E2;
    cbn [snd] in H2.
  2:{ left. rewrite (bind_throw _ _ _ _ _ E2). eexists. eexists.
      split; [reflexivity |]. split; [right; eauto | congruence]. }
  rewrite (bind_ok _ _ _ _ _ E2).
  pose proof (silent_snd _ _ s2 (getPackagesToRelease_silent env allCommits sha)) as H3.
  destruct (getPackagesToRelease env allCommits sha s2) as [[packages | e] s3] eqn:E3;
    cbn [snd] in H3.
  2:{ left. rewrite (bind_throw _ _ _ _ _ E3). eexists. eexists.
      split; [reflexivity |]. split; [right; eauto | congruence]. }
  rewrite (bind_ok _ _ _ _ _ E3).
  destruct (runReleasers_fold sha packages
              {| manifestUpdates := []; openPRPackages := [] |} s3)
    as [rel [s4 [E4 _]]].
  pose proof (silent_snd _ _ s3 (runReleasers_silent packages sha)) as H4.
  unfold runReleasers in H4 |- *. rewrite E4 in H4. cbn [snd] in H4.
  rewrite (bind_ok _ _ _ _ _ E4).
  destruct (openPRPackages rel) as [| p0 ps] eqn:Eopen.
  { left. eexists. eexists. split; [reflexivity |]. split; [now left |].
    cbn. rewrite filter_app. cbn. rewrite app_nil_r. congruence. }
  rewrite <- Eopen.
  pose proof (silent_snd _ _ s4
                (buildManifestPR_silent (manifestUpdates rel) (openPRPackages rel)))
    as H5.
  destruct (buildManifestPR env (manifestUpdates rel) (openPRPackages rel) s4)
    as [[bu | e] s5] eqn:E5; cbn [snd] in H5.
  2:{ left. rewrite (bind_throw _ _ _ _ _ E5). eexists. eexists.
      split; [reflexivity |]. split; [right; eauto | congruence]. }
  right. exists packages, sha, s3, rel, s4, bu, s5.
  split; [exact E4 |]. split; [congruence |]. split; [exact E5 |].
  split; [congruence |].
  rewrite (bind_ok _ _ _ _ _ E5). reflexivity.
Qed.

(** The calls of [openPullRequest] and its result, against the answers of
    the host. *)
Lemma openPullRequest_run branchName body updates s :
  filter is_mutation (trace (snd (openPullRequest env branchName body updates s)))
  = filter is_mutation (trace s)
    ++ OpenPR branchName "chore: release" body updates (DEFAULT_LABELS env)
       :: match openPR_answer env branchName body updates with
          | Ok (Some (S n)) => [AddLabels (DEFAULT_LABELS env) (S n)]
          | _ => []
          end /\
  fst (openPullRequest env branchName body updates s)
  = match openPR_answer env branchName body updates with
    | Ok (Some (S n)) =>
        match addLabels_answer env (DEFAULT_LABELS env) (S n) with
        | Ok _ => Ok (Some (S n))
        | Throw e => Throw e
        end
    | Ok pr => Ok pr
    | Throw e => Throw e
    end.
Proof.
  unfold openPullRequest, call.
  destruct (openPR_answer env branchName body updates) as [[[| n] |] | e];
    cbn;
    [| destruct (addLabels_answer env (DEFAULT_LABELS env) (S n)) as [[] | e]
     | |];
    cbn; rewrite ?filter_app; cbn; rewrite <- ?app_assoc, ?app_nil_r; auto.
Qed.

(** X25.  [pullRequest] changes the remote host in one way only: it opens one
    pull request, and labels it when the host answered with its number.  A
    run that made neither call ends with [undefined] or an error; a run that
    opened the pull request ends with the rejection of one of the two calls
    when the host rejects it, and returns the answer of the host
    otherwise. *)
Theorem pullRequest_mutations (s : State) :
  exists made,
    filter is_mutation (trace (snd (pullRequest env s)))
    = filter is_mutation (trace s) ++ made /\
    ((made = [] /\
      (fst (pullRequest env s) = Ok None \/
       exists e, fst (pullRequest env s) = Throw e)) \/
     exists body updates,
       made
       = OpenPR (branchNameOf env (getDefaultBranch env)) "chore: release"
           body updates (DEFAULT_LABELS env)
         :: match openPR_answer env (branchNameOf env (getDefaultBranch env))
                    body updates with
            | Ok (Some (S n)) => [AddLabels (DEFAULT_LABELS env) (S n)]
            | _ => []
            end /\
       fst (pullRequest env s)
       = match openPR_answer env (branchNameOf env (getDefaultBranch env))
                 body updates with
         | Ok (Some (S n)) =>
             match addLabels_answer env (DEFAULT_LABELS env) (S n) with
             | Ok _ => Ok (Some (S n))
             | Throw e => Throw e
             end
         | Ok pr => Ok pr
         | Throw e => Throw e
         end).
Proof.
  destruct (pullRequest_steps s)
    as [[r [s' [E [Hr Hm]]]]
       | [packages [sha [s2 [rel [s3 [bu [s4 [_ [_ [_ [Hm E]]]]]]]]]]]].
  - exists []. rewrite E. cbn [fst snd]. rewrite app_nil_r. auto.
  - rewrite E. cbv zeta.
    destruct (openPullRequest_run (branchNameOf env (getDefaultBranch env))
                (fst bu) (snd bu) s4) as [Hcalls Hresult].
    eexists. split; [rewrite Hcalls, Hm; reflexivity |].
    right. exists (fst bu), (snd bu). split; [reflexivity | exact Hresult].
Qed.

(** X26.  When no releaser has anything to release, [pullRequest] opens no pull
    request: it changes nothing on the host and returns [undefined], unless
    it throws. *)
Theorem pullRequest_without_changes_opens_nothing (s : State) :
  (forall pkg tag, getOpenPROptions env pkg tag = None) ->
  filter is_mutation (trace (snd (pullRequest env s)))
  = filter is_mutation (trace s) /\
  (fst (pullRequest env s) = Ok None \/
   exists e, fst (pullRequest env s) = Throw e).
Proof.
  intros Hnone.
  destruct (pullRequest_steps s)
    as [[r [s' [E [Hr Hm]]]]
       | [packages [sha [s2 [rel [s3 [bu [s4 [Erel [Hopen _]]]]]]]]]].
  - rewrite E. cbn [fst snd]. auto.
  - exfalso. apply Hopen.
    destruct (runReleasers_fold sha packages
                {| manifestUpdates := []; openPRPackages := [] |} s2)
      as [rel' [s3' [E' [Hflat _]]]].
    unfold runReleasers in Erel. rewrite E' in Erel. injection Erel as <- _.
    rewrite Hflat. cbn [openPRPackages app].
    clear - Hnone. induction packages as [| pkg packages IH]; [reflexivity |].
    cbn [flat_map]. unfold openPRPackage at 1. now rewrite Hnone.
Qed.

End PullRequestFacts.

(* ================================================================== *)
(** * The release candidates *)
(* ================================================================== *)

Section CandidateFacts.
Import Manifest Effects Flows.
Local Open Scope manifest_scope.

Variable env : Env.

Lemma keys_set_existing {V} (m : JsMap.t V) k v d :
  JsMap.get m k = Some d -> JsMap.keys (JsMap.set m k v) = JsMap.keys m.
Proof.
  induction m as [| [k0 v0] m IH]; simpl; [discriminate |].
  destruct (String.eqb k k0) eqn:E; simpl.
  - apply String.eqb_eq in E. now subst.
  - intros H. now rewrite IH.
Qed.

Lemma resolved_filed cpp mv all acc pkg c0 cs :
  filed cpp mv all acc -> In pkg all ->
  JsMap.get cpp (path pkg) = Some (c0 :: cs) ->
  filed cpp mv all (resolved mv acc pkg (c0 :: cs)).
Proof.
  intros [Hnd [Hentries Hmissing]] Hin Hc. unfold resolved.
  split; [| split]; cbn [packagesToRelease missingVersionPaths].
  - now apply set_keys_NoDup.
  - intros p d. destruct (String.eqb_spec p (path pkg)) as [-> | Hne].
    + rewrite get_set_same. intros [= <-]. cbn.
      repeat split; auto. discriminate.
    + rewrite get_set_other by assumption. apply Hentries.
  - intros p Hp.
    assert (Hcases : In p (missingVersionPaths acc) \/
                     (truthy_value (JsMap.get mv (path pkg)) = false /\
                      p = path pkg)).
    { destruct (truthy_value (JsMap.get mv (path pkg))); [now left |].
      apply in_app_iff in Hp. destruct Hp as [Hp | [<- | []]]; auto. }
    destruct Hcases as [Hold | [Hv ->]].
    + destruct (Hmissing p Hold) as [Hv [d Hd]]. split; [exact Hv |].
      destruct (String.eqb_spec p (path pkg)) as [-> | Hne].
      * rewrite get_set_same. eauto.
      * rewrite get_set_other by assumption. eauto.
    + split; [exact Hv |]. rewrite get_set_same. eauto.
Qed.

(** The main pass keeps its entries well filed, never drops one, and files
    every package that has commits. *)
Lemma main_pass_filed cpp mv atSha all pkgs :
  forall acc s c s',
  incl pkgs all ->
  foldM (resolvePackage env cpp mv atSha) pkgs acc s = (Ok c, s') ->
  filed cpp mv all acc ->
  filed cpp mv all c /\
  (forall p, In p (JsMap.keys (packagesToRelease acc)) ->
     In p (JsMap.keys (packagesToRelease c))) /\
  (forall pkg c0 cs, In pkg pkgs ->
     JsMap.get cpp (path pkg) = Some (c0 :: cs) ->
     In (path pkg) (JsMap.keys (packagesToRelease c))).
Proof.
  induction pkgs as [| pkg pkgs IH]; intros acc s c s' Hincl.
  - cbn. intros [= <- _] Hacc. split; [exact Hacc |]. split; [auto |].
    intros ? ? ? [].
  - cbn [foldM]. destruct (resolvePackage_result env cpp mv atSha acc pkg s)
      as [s1 E1].
    rewrite (bind_ok _ _ _ _ _ E1).
    set (acc1 := match JsMap.get cpp (path pkg) with
                 | None | Some [] => acc
                 | Some pkgCommits => resolved mv acc pkg pkgCommits
                 end) in *.
    intros E Hacc.
    assert (Hacc1 : filed cpp mv all acc1).
    { unfold acc1. destruct (JsMap.get cpp (path pkg)) as [[| c0 cs] |] eqn:Ec;
        auto.
      apply resolved_filed; auto. apply Hincl. now left. }
    assert (Hkeys1 : forall p, In p (JsMap.keys (packagesToRelease acc)) ->
                       In p (JsMap.keys (packagesToRelease acc1))).
    { unfold acc1. destruct (JsMap.get cpp (path pkg)) as [[| c0 cs] |]; auto.
      intros p Hp. unfold resolved. cbn [packagesToRelease].
      apply keys_set. now right. }
    destruct (IH acc1 s1 c s') as [Hc [Hkeys Hall]]; auto.
    { intros x Hx. apply Hincl. now right. }
    split; [exact Hc |]. split; [auto |].
    intros pkg' c0 cs [<- | Hin] Hcommits.
    + apply Hkeys. unfold acc1. rewrite Hcommits. unfold resolved.
      cbn [packagesToRelease]. apply keys_set. now left.
    + eapply Hall; eassumption.
Qed.

Lemma resolveMissing_step head acc p s acc1 s1 :
  resolveMissing env head acc p s = (Ok acc1, s1) ->
  exists d,
    JsMap.get acc p = Some d /\
    acc1 = JsMap.set acc p (with_lastVersion d (JsMap.get head p)).
Proof.
  unfold resolveMissing. cbv [bind checkpoint emit ret throw].
  destruct (JsMap.get acc p) as [d |].
  - destruct (JsMap.get head p); intros [= <- _]; eauto.
  - destruct (JsMap.get head p); discriminate.
Qed.

(** The fallback pass changes versions only, and only those of the paths it
    is given. *)
Lemma fallback_frame head ms :
  forall acc s acc' s',
  foldM (resolveMissing env head) ms acc s = (Ok acc', s') ->
  JsMap.keys acc' = JsMap.keys acc /\
  forall p d', JsMap.get acc' p = Some d' ->
    exists d,
      JsMap.get acc p = Some d /\
      prd_package d' = prd_package d /\ commits d' = commits d /\
      releaserOptions d' = releaserOptions d /\
      (~ In p ms -> lastVersion d' = lastVersion d).
Proof.
  induction ms as [| p0 ms IH]; intros acc s acc' s'.
  - cbn. intros [= <- _]. split; [reflexivity |]. intros p d' Hd. exists d'. auto.
  - cbn [foldM].
    destruct (resolveMissing env head acc p0 s) as [[acc1 | e] s1] eqn:E1.
    + rewrite (bind_ok _ _ _ _ _ E1). intros E.
      apply resolveMissing_step in E1. destruct E1 as [d0 [Hd0 ->]].
      apply IH in E. destruct E as [Hkeys Hentries].
      split; [rewrite Hkeys; eapply keys_set_existing; eassumption |].
      intros p d' Hd'. destruct (Hentries p d' Hd') as [d1 [Hd1 [Hp [Hc [Ho Hv]]]]].
      destruct (String.eqb_spec p p0) as [-> | Hne].
      * rewrite get_set_same in Hd1. injection Hd1 as <-.
        exists d0. split; [exact Hd0 |]. cbn in *.
        repeat split; auto. intros Hn. exfalso. apply Hn. now left.
      * rewrite get_set_other in Hd1 by assumption.
        exists d1. repeat split; auto.
        intros Hn. apply Hv. intros Hin. apply Hn. now right.
    + unfold bind. rewrite E1. discriminate.
Qed.

(** What the list of released candidates inherits from well-filed entries
    whose versions the fallback pass may have changed. *)
Lemma released_of_filed cpp mv all c acc' :
  filed cpp mv all c ->
  JsMap.keys acc' = JsMap.keys (packagesToRelease c) ->
  (forall p d', JsMap.get acc' p = Some d' ->
     exists d,
       JsMap.get (packagesToRelease c) p = Some d /\
       prd_package d' = prd_package d /\ commits d' = commits d /\
       releaserOptions d' = releaserOptions d /\
       (~ In p (missingVersionPaths c) -> lastVersion d' = lastVersion d)) ->
  NoDup (map (fun d => path (prd_package d)) (map snd acc')) /\
  (forall d, In d (map snd acc') ->
     In (prd_package d) all /\ commits d <> [] /\
     JsMap.get cpp (path (prd_package d)) = Some (commits d) /\
     releaserOptions d
     = {| monorepoTags := true; draft := releaseDraft (prd_package d);
          rest := prd_package d |} /\
     (truthy_value (JsMap.get mv (path (prd_package d))) = true ->
      lastVersion d = JsMap.get mv (path (prd_package d)))) /\
  (forall p, In p (JsMap.keys (packagesToRelease c)) ->
     exists d, In d (map snd acc') /\ path (prd_package d) = p).
Proof.
  intros [Hnd [Hentries Hmissing]] Hkeys Hframe.
  assert (Hnd' : NoDup (JsMap.keys acc')) by now rewrite Hkeys.
  assert (Hentry : forall p d', In (p, d') acc' ->
            exists d, JsMap.get (packagesToRelease c) p = Some d /\
              prd_package d' = prd_package d /\ commits d' = commits d /\
              releaserOptions d' = releaserOptions d /\
              (~ In p (missingVersionPaths c) -> lastVersion d' = lastVersion d)).
  { intros p d' Hin. apply Hframe. now apply get_NoDup. }
  assert (Hpath : forall p d', In (p, d') acc' -> path (prd_package d') = p).
  { intros p d' Hin. destruct (Hentry p d' Hin) as [d [Hd [Hp _]]].
    rewrite Hp. now apply Hentries. }
  split; [| split].
  - rewrite map_map.
    replace (map (fun x => path (prd_package (snd x))) acc') with (JsMap.keys acc');
      [exact Hnd' |].
    unfold JsMap.keys. apply map_ext_in. intros [p d'] Hin. symmetry.
    now apply Hpath.
  - intros d' Hin. apply in_map_iff in Hin. destruct Hin as [[p d0] [<- Hin]].
    cbn [snd]. destruct (Hentry p d0 Hin) as [d [Hd [Hp [Hc [Ho Hv]]]]].
    destruct (Hentries p d Hd) as [H1 [H2 [H3 [H4 [H5 H6]]]]].
    rewrite Hp, Hc, Ho, H2. repeat split; auto.
    intros Ht. rewrite Hv; [exact H5 |].
    intros Hm. apply Hmissing in Hm. destruct Hm as [Hf _]. congruence.
  - intros p Hp. rewrite <- Hkeys in Hp. apply in_map_iff in Hp.
    destruct Hp as [[p' d'] [<- Hin]]. exists d'. split.
    + apply in_map_iff. exists (p', d'). auto.
    + now apply Hpath.
Qed.

(** The candidates of a run and the main pass they come from. *)
Lemma getPackagesToRelease_filed s s' cfg allCommits sha released :
  configFile s = Some cfg ->
  getPackagesToRelease env allCommits sha s = (Ok released, s') ->
  exists mv atSha s1 c acc',
    getManifestVersions env (sha_arg sha) s = (Ok (mv, atSha), s1) /\
    released = map snd acc' /\
    filed (split env (map path (parsedPackages cfg)) allCommits) mv
      (parsedPackages cfg) c /\
    JsMap.keys acc' = JsMap.keys (packagesToRelease c) /\
    (forall p d', JsMap.get acc' p = Some d' ->
       exists d,
         JsMap.get (packagesToRelease c) p = Some d /\
         prd_package d' = prd_package d /\ commits d' = commits d /\
         releaserOptions d' = releaserOptions d /\
         (~ In p (missingVersionPaths c) -> lastVersion d' = lastVersion d)) /\
    (forall pkg c0 cs, In pkg (parsedPackages cfg) ->
       JsMap.get (split env (map path (parsedPackages cfg)) allCommits) (path pkg)
       = Some (c0 :: cs) ->
       In (path pkg) (JsMap.keys (packagesToRelease c))).
Proof.
  intros Hcfg. unfold getPackagesToRelease.
  rewrite (bind_ok _ _ _ _ _ (getConfigJson_cached env s cfg Hcfg)).
  destruct (getManifestVersions env (sha_arg sha) s) as [[[mv atSha] | e] s1] eqn:Emv.
  2:{ unfold bind. rewrite Emv. discriminate. }
  rewrite (bind_ok _ _ _ _ _ Emv). cbn [fst snd].
  set (cpp := split env (map path (parsedPackages cfg)) allCommits).
  set (init := {| packagesToRelease := []; missingVersionPaths := [] |}).
  destruct (main_pass env cpp mv atSha (parsedPackages cfg) init s1)
    as [c [s2 [Emain _]]].
  rewrite (bind_ok _ _ _ _ _ Emain).
  destruct (main_pass_filed cpp mv atSha (parsedPackages cfg) (parsedPackages cfg)
              init s1 c s2 (incl_refl _) Emain) as [Hc [_ Hall]].
  { split; [constructor |]. split; [discriminate | intros ? []]. }
  destruct (missingVersionPaths c) as [| p0 ms] eqn:Ems.
  - cbv [bind ret]. intros [= <- _].
    exists mv, atSha, s1, c, (packagesToRelease c).
    do 4 (split; [auto |]). split; [| exact Hall].
    intros p d' Hd. exists d'. auto.
  - destruct (getManifestVersions env (ShaFalse (p0 :: ms)) s2)
      as [[head | e] s3] eqn:Ehead.
    2:{ cbv [bind]. rewrite Ehead. discriminate. }
    cbv [bind]. rewrite Ehead.
    destruct (foldM (resolveMissing env (fst head)) (p0 :: ms)
                (packagesToRelease c) s3) as [[acc' | e] s4] eqn:Efall;
      [| discriminate].
    cbv [ret]. intros [= <- _].
    destruct (fallback_frame _ _ _ _ _ _ Efall) as [Hkeys Hframe].
    exists mv, atSha, s1, c, acc'.
    do 4 (split; [auto |]). split; [rewrite Ems; exact Hframe | exact Hall].
Qed.

(** X21.  The candidates [getPackagesToRelease] returns are the configured packages
    that have at least one commit: each candidate is a configured package
    with its commits, none of them empty, and the options of its
    configuration; every configured package with a commit has a candidate;
    and no two candidates share a path. *)
Theorem getPackagesToRelease_candidates
  (s s' : State) (cfg : Config) (allCommits : list Commit)
  (sha : option string) (released : list PackageReleaseData) :
  configFile s = Some cfg ->
  getPackagesToRelease env allCommits sha s = (Ok released, s') ->
  NoDup (map (fun d => path (prd_package d)) released) /\
  (forall d, In d released ->
     In (prd_package d) (parsedPackages cfg) /\ commits d <> [] /\
     JsMap.get (split env (map path (parsedPackages cfg)) allCommits)
       (path (prd_package d)) = Some (commits d) /\
     releaserOptions d
     = {| monorepoTags := true; draft := releaseDraft (prd_package d);
          rest := prd_package d |}) /\
  (forall pkg c0 cs, In pkg (parsedPackages cfg) ->
     JsMap.get (split env (map path (parsedPackages cfg)) allCommits) (path pkg)
     = Some (c0 :: cs) ->
     exists d, In d released /\ path (prd_package d) = path pkg).
Proof.
  intros Hcfg Hrun.
  destruct (getPackagesToRelease_filed _ _ _ _ _ _ Hcfg Hrun)
    as [mv [atSha [s1 [c [acc' [_ [-> [Hc [Hkeys [Hframe Hall]]]]]]]]]].
  destruct (released_of_filed _ _ _ _ _ Hc Hkeys Hframe) as [Hnd [Hin Hex]].
  split; [exact Hnd |]. split.
  - intros d Hd. destruct (Hin d Hd) as [H1 [H2 [H3 [H4 _]]]]. auto.
  - intros pkg c0 cs Hpkg Hcommits. apply Hex. eapply Hall; eassumption.
Qed.

(** X22.  A candidate whose path has a truthy version in the manifest read at the
    resolved reference carries that version, whatever the manifest at the
    tip records. *)
Theorem getPackagesToRelease_version_at_release
  (s s1 s' : State) (cfg : Config) (allCommits : list Commit)
  (sha : option string) (mv : VersionsMap) (atSha : string)
  (released : list PackageReleaseData) (d : PackageReleaseData) :
  configFile s = Some cfg ->
  getManifestVersions env (sha_arg sha) s = (Ok (mv, atSha), s1) ->
  getPackagesToRelease env allCommits sha s = (Ok released, s') ->
  In d released ->
  truthy_value (JsMap.get mv (path (prd_package d))) = true ->
  lastVersion d = JsMap.get mv (path (prd_package d)).
Proof.
  intros Hcfg Hmv Hrun Hd Ht.
  destruct (getPackagesToRelease_filed _ _ _ _ _ _ Hcfg Hrun)
    as [mv' [atSha' [s1' [c [acc' [Hmv' [-> [Hc [Hkeys [Hframe _]]]]]]]]]].
  rewrite Hmv in Hmv'. injection Hmv' as <- _ _.
  destruct (released_of_filed _ _ _ _ _ Hc Hkeys Hframe) as [_ [Hin _]].
  destruct (Hin d Hd) as [_ [_ [_ [_ Hv]]]]. auto.
Qed.

End CandidateFacts.

(* ================================================================== *)
(** * The release flow *)
(* ================================================================== *)

Section ReleaseFacts.
Import Manifest Effects Flows.
Local Open Scope manifest_scope.

Variable env : Env.

(** X27.  Unless the last merged pull request exists, is not yet labeled as
    released and carries the pending label, [githubRelease] returns
    [undefined] and changes nothing on the host. *)
Theorem githubRelease_guards (s : State) :
  (forall pr,
     lastMergedPRByHeadBranch env (branchNameOf env (getDefaultBranch env))
     = Some pr ->
     mem (GITHUB_RELEASE_LABEL env) (pr_labels pr) = true \/
     has_pending_label env (pr_labels pr) = false) ->
  exists s',
    githubRelease env s = (Ok None, s') /\
    filter is_mutation (trace s') = filter is_mutation (trace s).
Proof.
  intros Hguard. unfold githubRelease.
  destruct (validate_returns env s) as [valid [s1 E1]].
  pose proof (silent_snd _ _ s (validate_silent env)) as H1.
  rewrite E1 in H1. cbn [snd] in H1.
  rewrite (bind_ok _ _ _ _ _ E1).
  destruct valid; cbn [negb].
  2:{ exists s1. split; [reflexivity | exact H1]. }
  destruct (lastMergedPRByHeadBranch env _) as [pr |] eqn:Epr.
  - destruct (mem (GITHUB_RELEASE_LABEL env) (pr_labels pr)) eqn:Etag.
    + eexists. split; [reflexivity |]. cbn. rewrite filter_app. cbn.
      now rewrite app_nil_r.
    + destruct (Hguard pr eq_refl) as [H | H]; [congruence |].
      rewrite H. cbn [negb]. eexists. split; [reflexivity |].
      cbn. rewrite filter_app. cbn. now rewrite app_nil_r.
  - eexists. split; [reflexivity |]. cbn. rewrite filter_app. cbn.
    now rewrite app_nil_r.
Qed.


(** X29.  The record a run that reaches the loop returns has an entry for each
    candidate but those whose creation call answered without a release: the
    response of the created release, and [undefined] for a candidate without
    a last version or whose creation failed.  It has no other entry. *)
Theorem githubRelease_result
  (s s1 s2 : State) (pr : MergedPR) (packages : list PackageReleaseData) :
  validate env s = (Ok true, s1) ->
  lastMergedPRByHeadBranch env (branchNameOf env (getDefaultBranch env)) = Some pr ->
  mem (GITHUB_RELEASE_LABEL env) (pr_labels pr) = false ->
  has_pending_label env (pr_labels pr) = true ->
  getPackagesToRelease env
    [{| c_sha := pr_sha pr; c_message := ""; c_files := pr_files pr |}]
    (Some (pr_sha pr)) s1 = (Ok packages, s2) ->
  forall result, fst (githubRelease env s) = Ok result ->
  exists r,
    result = Some r /\
    (forall pkg, In pkg packages ->
       JsMap.get r (path (prd_package pkg)) = release_outcome env pr pkg) /\
    (forall p, ~ In p (map (fun d => path (prd_package d)) packages) ->
       JsMap.get r p = None).
Proof.
  intros Hvalid Hpr Hreleased Hpending Hpkgs result.
  rewrite (githubRelease_reaches_loop env s s1 s2 pr packages Hvalid Hpr
             Hreleased Hpending Hpkgs).
  intros Hreturn.
  destruct (createReleases_result env pr packages s2 result Hreturn)
    as [r [-> [Hother Hfiled]]].
  exists r. split; [reflexivity |].
  destruct (validate_true_cached env s s1 Hvalid) as [c Hc].
  destruct (getPackagesToRelease_filed env _ _ _ _ _ _ Hc Hpkgs)
    as [mv [atSha [s1' [cand [acc' [_ [Heq [Hcand [Hkeys [Hframe _]]]]]]]]]].
  destruct (released_of_filed _ _ _ _ _ Hcand Hkeys Hframe) as [Hnd _].
  rewrite <- Heq in Hnd. split; [exact (Hfiled Hnd) | exact Hother].
Qed.

End ReleaseFacts.

(* ================================================================== *)
(** * The propagation pass: further facts *)
(* ================================================================== *)

Section PropagationFacts.
Import Lerna Graph NodeWorkspace Propagation.

Variable semver_inc_patch : option string -> option string.
Variable hosted_toString : Resolved -> string -> string.
Variable runOrder : list Package -> list Package.

Local Abbreviation updateSet rp G := (collectPackages G (isCandidate rp)).
Local Abbreviation run rp G :=
  (runLernaVersion semver_inc_patch hosted_toString runOrder rp G).
Local Abbreviation newVersion := (new_version semver_inc_patch).

(** The runner leaves every dependency that is no local edge as it was. *)
Lemma runner_frame G uv n p :
  wf_graph G = true -> In n G ->
  runner hosted_toString G uv (node_pkg n) = Some p ->
  forall d, ~ In d (JsMap.keys (localDependencies n)) ->
    specs p d = specs (node_pkg n) d.
Proof.
  intros Hwf Hin Hrun d Hd.
  pose proof (wf_graph_node G n Hwf Hin) as Hnode.
  pose proof (wf_node_keys G n Hnode) as Hkeys.
  set (p0 := set_version (node_pkg n) (lookup uv (pkg_name (node_pkg n)))).
  destruct (updateDependencies_spec hosted_toString uv (localDependencies n) p0 Hkeys)
    as [p' [Hp' [_ [_ [_ [F _]]]]]].
  { intros d' r Hd'. destruct (wf_node_edge G n d' r Hnode Hd') as [H1 [_ H3]].
    split; [assumption |].
    rewrite (specs_dep_spec (node_pkg n) p0 d'); [assumption | reflexivity]. }
  revert Hrun. unfold runner. fold p0.
  change (pkg_name p0) with (node_name n).
  rewrite (graph_get_In G n (wf_graph_names G Hwf) Hin). simpl.
  rewrite Hp'. intros [= <-]. rewrite F; [reflexivity |].
  intros r Hr. exfalso. apply Hd. apply (in_map fst) in Hr. exact Hr.
Qed.

(** X3.  A package updated by its releaser is in the output under its location,
    with its name and the version its releaser gave it. *)
Theorem runLernaVersion_keeps_releaser_version
  (rp : PathPkgJson) (G : PackageGraph) (A : PackageGraphNode) :
  (forall l, Permutation (runOrder l) l) ->
  wf_graph G = true -> distinct_locations G = true ->
  In A G -> isCandidate rp A = true ->
  exists out pA,
    run rp G = Some out /\
    JsMap.get out (node_location A) = Some pA /\
    pkg_name pA = node_name A /\
    pkg_version pA = node_version A.
Proof.
  intros Hperm Hwf Hloc HA Hc.
  destruct (runLernaVersion_spec semver_inc_patch hosted_toString runOrder Hperm
              rp G Hwf (distinct_locations_NoDup G Hloc))
    as [out [Hout [_ Hspec]]].
  assert (HAin : In A (updateSet rp G)) by (apply collectPackages_In; auto).
  assert (Hv : newVersion rp A = Some (node_version A)).
  { unfold Propagation.new_version. now rewrite Hc. }
  destruct (processed_node semver_inc_patch hosted_toString rp G A _ Hwf HAin Hv)
    as [pA [Hrun [N [L [V _]]]]].
  exists out, pA. repeat split; auto.
  apply Hspec. exists A. repeat split; auto. congruence.
Qed.

(** X4.  Only local edges are rewritten: in every package of the output, the
    entries of the dependency collections for a name that is no local
    dependency of the package are what they were before the run. *)
Theorem runLernaVersion_leaves_other_dependencies
  (rp : PathPkgJson) (G : PackageGraph) :
  (forall l, Permutation (runOrder l) l) ->
  wf_graph G = true -> distinct_locations G = true ->
  exists out,
    run rp G = Some out /\
    forall loc p, JsMap.get out loc = Some p ->
      exists n,
        In n G /\ node_location n = loc /\
        forall d, JsMap.has (localDependencies n) d = false ->
          specs p d = specs (node_pkg n) d /\
          dep_spec p d = dep_spec (node_pkg n) d.
Proof.
  intros Hperm Hwf Hloc.
  destruct (runLernaVersion_spec semver_inc_patch hosted_toString runOrder Hperm
              rp G Hwf (distinct_locations_NoDup G Hloc))
    as [out [Hout [_ Hspec]]].
  exists out. split; [exact Hout |].
  intros loc p Hget. apply Hspec in Hget.
  destruct Hget as [n [Hn [_ [Hl Hrun]]]].
  assert (HG : In n G) by (apply collectPackages_In in Hn; tauto).
  exists n. split; [exact HG |]. split; [exact Hl |].
  intros d Hd.
  assert (Hspecs : specs p d = specs (node_pkg n) d).
  { eapply runner_frame; eauto.
    intros Hin. apply has_In in Hin. congruence. }
  split; [exact Hspecs | now apply specs_dep_spec].
Qed.

Lemma filter_none {A} (f : A -> bool) (l : list A) :
  (forall x, In x l -> f x = false) -> filter f l = [].
Proof.
  induction l as [| x l IH]; intros H; simpl; [reflexivity |].
  rewrite (H x (or_introl eq_refl)). apply IH. intros y Hy. apply H. now right.
Qed.

Lemma runLernaVersion_no_candidate rp G :
  (forall l, Permutation (runOrder l) l) ->
  (forall n, In n G -> isCandidate rp n = false) ->
  run rp G = Some [].
Proof.
  intros Hperm Hnone. unfold runLernaVersion.
  assert (Hset : updateSet rp G = []).
  { unfold collectPackages. rewrite (filter_none _ G Hnone).
    apply filter_none. intros n Hn. rewrite (Hnone n Hn). reflexivity. }
  rewrite Hset. cbn. unfold runTopologically.
  rewrite (Permutation_nil (Permutation_sym (Hperm []))). reflexivity.
Qed.

(** X5.  When release-please updated none of the packages of the workspace, the
    pass returns the empty map: nothing is bumped and nothing rewritten. *)
Theorem runLernaVersion_without_updates_is_empty
  (rp : PathPkgJson) (G : PackageGraph) :
  (forall l, Permutation (runOrder l) l) ->
  (forall n, In n G -> isCandidate rp n = false) ->
  run rp G = Some [].
Proof. exact (runLernaVersion_no_candidate rp G). Qed.

(** X6.  In an acyclic workspace graph the output holds exactly the packages that
    release-please updated and the packages that depend on one of them and
    have a patch increment. *)
Theorem runLernaVersion_output_set (rp : PathPkgJson) (G : PackageGraph) :
  (forall l, Permutation (runOrder l) l) ->
  wf_graph G = true -> distinct_locations G = true -> acyclic G ->
  exists out,
    run rp G = Some out /\
    forall n, In n G ->
      (JsMap.has out (node_location n) = true <->
       isCandidate rp n = true \/
       ((exists a, In a G /\ isCandidate rp a = true /\
                   depends_trans G (node_name n) (node_name a)) /\
        semver_inc_patch (node_version n) <> None)).
Proof.
  intros Hperm Hwf Hloc Hacyclic.
  pose proof (distinct_locations_NoDup G Hloc) as Hlocs.
  destruct (runLernaVersion_spec semver_inc_patch hosted_toString runOrder Hperm
              rp G Hwf Hlocs) as [out [Hout [_ Hspec]]].
  exists out. split; [exact Hout |].
  intros n Hn. split.
  - intros Hhas. unfold JsMap.has in Hhas.
    destruct (JsMap.get out (node_location n)) as [p |] eqn:Eget; [| discriminate].
    apply Hspec in Eget. destruct Eget as [m [Hm [Hv [Hl _]]]].
    assert (m = n).
    { apply (NoDup_map_eq node_location G); auto.
      apply collectPackages_In in Hm. tauto. }
    subst m. destruct (isCandidate rp n) eqn:Ec; [now left | right].
    split.
    + destruct (updateSet_reaches rp G n Hm) as [H | H]; [congruence | exact H].
    + unfold Propagation.new_version in Hv. rewrite Ec in Hv.
      destruct (semver_inc_patch (node_version n)); congruence.
  - intros Hcases.
    assert (Hin : In n (updateSet rp G)).
    { destruct Hcases as [Hc | [[a [Ha [Hca Hdep]]] _]].
      - apply collectPackages_In. auto.
      - apply (dependents_in_updateSet rp G a n); assumption. }
    assert (Hv : newVersion rp n <> None).
    { unfold Propagation.new_version.
      destruct (isCandidate rp n) eqn:Ec; [discriminate |].
      destruct Hcases as [Hc | [_ Hinc]]; [discriminate |].
      destruct (semver_inc_patch (node_version n)); [discriminate | congruence]. }
    destruct (runner_spec hosted_toString G
                (updatesVersions
                   (computeVersions semver_inc_patch rp (updateSet rp G)))
                n Hwf Hn) as [p [Hp _]].
    unfold JsMap.has.
    replace (JsMap.get out (node_location n)) with (Some p); [reflexivity |].
    symmetry. apply Hspec. exists n. auto.
Qed.

End PropagationFacts.

(* ================================================================== *)
(** * Merging the propagation: further facts *)
(* ================================================================== *)

Section StripFacts.
Import NodeWorkspace.

Lemma substring_prefix (p s : string) :
  substring 0 (String.length p) (p ++ s) = p.
Proof.
  induction p as [| c p IH]; simpl.
  - destruct s; reflexivity.
  - now rewrite IH.
Qed.

Lemma substring_all (s : string) : substring 0 (String.length s) s = s.
Proof. induction s as [| c s IH]; simpl; [reflexivity | now rewrite IH]. Qed.

Lemma substring_suffix (p s : string) :
  substring (String.length p) (String.length s) (p ++ s) = s.
Proof.
  induction p as [| c p IH]; simpl; [apply substring_all | exact IH].
Qed.

Lemma length_append (p s : string) :
  String.length (p ++ s) = (String.length p + String.length s)%nat.
Proof. induction p as [| c p IH]; simpl; [reflexivity | now rewrite IH]. Qed.

(** The manifest key of a package.json path is the directory it lies in. *)
Lemma strip_package_json_of_path (dir : string) :
  strip_package_json (dir ++ "/package.json") = dir.
Proof.
  unfold strip_package_json. rewrite length_append.
  change (String.length "/package.json") with 13%nat.
  replace (String.length dir + 13 <? 13)%nat with false
    by (symmetry; apply Nat.ltb_ge; lia).
  replace (String.length dir + 13 - 13)%nat with (String.length dir) by lia.
  cbv zeta.
  rewrite !(substring_suffix dir "/package.json" : substring _ 13 _ = _).
  cbn. apply substring_prefix.
Qed.

Lemma package_json_path_inj (a b : string) :
  (a ++ "/package.json")%string = (b ++ "/package.json")%string -> a = b.
Proof.
  intros H. rewrite <- (strip_package_json_of_path a), H.
  apply strip_package_json_of_path.
Qed.

End StripFacts.

Section MergeFurther.
Import Lerna NodeWorkspace Merge.

Variable packageJsonStringify : PackageJson -> string.

Local Abbreviation mergeExisting := (NodeWorkspace.mergeExisting packageJsonStringify).
Local Abbreviation appendNew := (NodeWorkspace.appendNew packageJsonStringify).
Local Abbreviation merge :=
  (NodeWorkspace.updatePkgsWithPRData packageJsonStringify).

Lemma kept_refl pkg : kept pkg pkg.
Proof. unfold kept. repeat split; auto. Qed.

Lemma get_delete_other {V} (m : JsMap.t V) k k' :
  k' <> k -> JsMap.get (JsMap.delete m k) k' = JsMap.get m k'.
Proof.
  intros Hne. unfold JsMap.delete.
  induction m as [| [k0 v0] m IH]; simpl; [reflexivity |].
  destruct (String.eqb k k0) eqn:E; simpl.
  - apply String.eqb_eq in E. subst k0.
    apply String.eqb_neq in Hne. now rewrite Hne.
  - now rewrite IH.
Qed.

(** ** The first loop *)

Lemma mergeExisting_step st pkg :
  exists pkg',
    pkgsWithPRData (mergeExisting st pkg) = pkgsWithPRData st ++ [pkg'] /\
    kept pkg pkg' /\
    parsedPackages (mergeExisting st pkg) = parsedPackages st /\
    (allUpdated (mergeExisting st pkg) = allUpdated st \/
     releaseType (config pkg) = "node" /\
     allUpdated (mergeExisting st pkg)
     = JsMap.delete (allUpdated st) (path (config pkg) ++ "/package.json")%string).
Proof.
  unfold NodeWorkspace.mergeExisting.
  destruct (String.eqb (releaseType (config pkg)) "node") eqn:Etype; cbn [negb].
  - apply String.eqb_eq in Etype.
    destruct (JsMap.get (allUpdated st) _) as [updated |] eqn:Eupd.
    + eexists. cbn. split; [reflexivity |]. split; [| auto].
      unfold kept, with_changes. cbn. repeat split.
      * congruence.
      * intros k fd Hk.
        destruct (String.eqb_spec k (path (config pkg) ++ "/package.json")%string)
          as [-> | Hne].
        -- rewrite get_set_same, Hk. reflexivity.
        -- now rewrite get_set_other.
      * intros k Hk. apply keys_set in Hk. tauto.
    + exists pkg. cbn. split; [reflexivity |]. split; [apply kept_refl | auto].
  - exists pkg. cbn. split; [reflexivity |]. split; [apply kept_refl | auto].
Qed.

Lemma first_loop pkgs :
  forall st,
  exists keptPkgs,
    pkgsWithPRData (fold_left mergeExisting pkgs st)
    = pkgsWithPRData st ++ keptPkgs /\
    Forall2 kept pkgs keptPkgs /\
    parsedPackages (fold_left mergeExisting pkgs st) = parsedPackages st.
Proof.
  induction pkgs as [| pkg pkgs IH]; intros st.
  - exists []. simpl. rewrite app_nil_r. auto.
  - destruct (mergeExisting_step st pkg) as [pkg' [Hp [Hk [Hc _]]]].
    destruct (IH (mergeExisting st pkg)) as [rest [Hrest [Hall Hcfg]]].
    exists (pkg' :: rest). cbn [fold_left]. rewrite Hrest, Hp, <- app_assoc.
    split; [reflexivity |]. split; [now constructor | congruence].
Qed.

(** ** The second loop *)

Lemma find_is_package_json filePath l pkg :
  find (is_package_json_of filePath) l = Some pkg ->
  In pkg l /\ (path pkg ++ "/package.json")%string = filePath.
Proof.
  intros H. apply find_some in H. destruct H as [Hin Heq].
  split; [exact Hin |]. now apply String.eqb_eq.
Qed.

Lemma set_packageName_paths filePath name l :
  map path (set_packageName filePath name l) = map path l.
Proof.
  induction l as [| p l IH]; simpl; [reflexivity |].
  destruct (is_package_json_of filePath p); simpl; [reflexivity | now rewrite IH].
Qed.

Lemma appendNew_step configured st entry :
  map path (parsedPackages st) = map path configured ->
  exists news,
    pkgsWithPRData (appendNew st entry) = pkgsWithPRData st ++ news /\
    Forall (appended configured) news /\
    map path (parsedPackages (appendNew st entry)) = map path configured.
Proof.
  intros Hpaths. destruct entry as [filePath update].
  unfold NodeWorkspace.appendNew.
  destruct (find (is_package_json_of filePath) (parsedPackages st)) as [pkg |] eqn:Ef.
  - apply find_is_package_json in Ef. destruct Ef as [Hin Heq].
    eexists. cbn. split; [reflexivity |]. split.
    + constructor; [| constructor]. unfold appended. cbn. split.
      * rewrite <- Hpaths. now apply in_map.
      * rewrite Heq. eauto.
    + now rewrite set_packageName_paths.
  - exists []. rewrite app_nil_r. auto.
Qed.

Lemma second_loop configured l :
  forall st,
  map path (parsedPackages st) = map path configured ->
  exists news,
    pkgsWithPRData (fold_left appendNew l st) = pkgsWithPRData st ++ news /\
    Forall (appended configured) news.
Proof.
  induction l as [| entry l IH]; intros st Hpaths.
  - exists []. simpl. rewrite app_nil_r. auto.
  - destruct (appendNew_step configured st entry Hpaths) as [n1 [H1 [F1 P1]]].
    destruct (IH (appendNew st entry) P1) as [n2 [H2 F2]].
    exists (n1 ++ n2). cbn [fold_left]. rewrite H2, H1, <- app_assoc.
    split; [reflexivity | now apply Forall_app].
Qed.

(** X7.  [updatePkgsWithPRData] never drops or reorders a package of the pull
    request: the result lists them first and in order, each with its
    configuration, its version and every pending file change as it was, and
    packages that are no node packages untouched; what follows are appended
    entries for configured packages, each with the one change of its
    package.json.  The second loop renames the configured package it appends
    in place, and an entry of the pull request may hold that very object as
    its configuration: an entry that is no node package is therefore required
    not to sit at the path of an updated package, which keeps the loop away
    from the configurations of the pull request. *)
Theorem updatePkgsWithPRData_keeps_packages
  (pkgs : list ManifestPackageWithPRData) (versions : VersionsMap)
  (updated : JsMap.t Package) (configured : list ManifestPackage) :
  (forall p, In p pkgs -> releaseType (config p) <> "node" ->
     JsMap.has updated (path (config p) ++ "/package.json")%string = false) ->
  exists keptPkgs news,
    pkgsWithPRData (merge pkgs versions updated configured) = keptPkgs ++ news /\
    Forall2 kept pkgs keptPkgs /\
    Forall (appended configured) news.
Proof.
  intros _. unfold updatePkgsWithPRData.
  set (st0 := {| pkgsWithPRData := []; newManifestVersions := versions;
                 allUpdated := updated; parsedPackages := configured |}).
  destruct (first_loop pkgs st0) as [keptPkgs [H1 [Hkept Hcfg]]].
  destruct (second_loop configured (allUpdated (fold_left mergeExisting pkgs st0))
              (fold_left mergeExisting pkgs st0)) as [news [H2 Hnews]].
  { now rewrite Hcfg. }
  exists keptPkgs, news. rewrite H2, H1. auto.
Qed.

(** Without an updated package the merge is the identity. *)
Lemma merge_nothing pkgs versions configured :
  merge pkgs versions [] configured
  = {| pkgsWithPRData := pkgs; newManifestVersions := versions;
       allUpdated := []; parsedPackages := configured |}.
Proof.
  unfold updatePkgsWithPRData.
  assert (H : forall acc,
    fold_left mergeExisting pkgs
      {| pkgsWithPRData := acc; newManifestVersions := versions;
         allUpdated := []; parsedPackages := configured |}
    = {| pkgsWithPRData := acc ++ pkgs; newManifestVersions := versions;
         allUpdated := []; parsedPackages := configured |}).
  { induction pkgs as [| pkg pkgs IH]; intros acc; simpl.
    - now rewrite app_nil_r.
    - unfold NodeWorkspace.mergeExisting at 2.
      destruct (negb _); cbn; rewrite IH, <- app_assoc; reflexivity. }
  rewrite H. reflexivity.
Qed.

(** ** A package updated by the propagation only *)

Lemma first_loop_survivor filePath update pkgs :
  forall st,
  JsMap.get (allUpdated st) filePath = Some update ->
  NoDup (JsMap.keys (allUpdated st)) ->
  (forall p, In p pkgs -> releaseType (config p) = "node" ->
     (path (config p) ++ "/package.json")%string <> filePath) ->
  JsMap.get (allUpdated (fold_left mergeExisting pkgs st)) filePath = Some update /\
  NoDup (JsMap.keys (allUpdated (fold_left mergeExisting pkgs st))).
Proof.
  induction pkgs as [| pkg pkgs IH]; intros st Hget Hnd Hother; [auto |].
  cbn [fold_left]. apply IH.
  - destruct (mergeExisting_step st pkg) as [_ [_ [_ [_ [-> | [Hnode ->]]]]]];
      [exact Hget |].
    rewrite get_delete_other; [exact Hget |].
    intros ->. now apply (Hother pkg (or_introl eq_refl) Hnode).
  - destruct (mergeExisting_step st pkg) as [_ [_ [_ [_ [-> | [Hnode ->]]]]]];
      [exact Hnd |].
    unfold JsMap.keys, JsMap.delete. now apply NoDup_map_filter.
  - intros p Hp. apply Hother. now right.
Qed.

Lemma find_set_packageName_other filePath filePath' name l :
  filePath' <> filePath ->
  find (is_package_json_of filePath) (set_packageName filePath' name l)
  = find (is_package_json_of filePath) l.
Proof.
  intros Hne. induction l as [| p l IH]; simpl; [reflexivity |].
  destruct (is_package_json_of filePath' p) eqn:E'; simpl.
  - unfold is_package_json_of in *. cbn [path].
    apply String.eqb_eq in E'.
    replace (String.eqb (path p ++ "/package.json") filePath) with false;
      [reflexivity |].
    symmetry. apply String.eqb_neq. congruence.
  - now rewrite IH.
Qed.

Lemma second_loop_before filePath pkg l :
  forall st,
  ~ In filePath (JsMap.keys l) ->
  find (is_package_json_of filePath) (parsedPackages st) = Some pkg ->
  find (is_package_json_of filePath) (parsedPackages (fold_left appendNew l st))
  = Some pkg.
Proof.
  induction l as [| [filePath' update'] l IH]; intros st Hnotin Hfind; [exact Hfind |].
  cbn [fold_left]. apply IH.
  - intros H. apply Hnotin. now right.
  - unfold NodeWorkspace.appendNew.
    destruct (find (is_package_json_of filePath') (parsedPackages st)); [| exact Hfind].
    cbn [parsedPackages]. rewrite find_set_packageName_other; [exact Hfind |].
    intros ->. apply Hnotin. now left.
Qed.

Lemma second_loop_after pkg entry v l :
  forall st,
  ~ In (path pkg ++ "/package.json")%string (JsMap.keys l) ->
  In entry (pkgsWithPRData st) ->
  JsMap.get (newManifestVersions st) (path pkg) = Some v ->
  In entry (pkgsWithPRData (fold_left appendNew l st)) /\
  JsMap.get (newManifestVersions (fold_left appendNew l st)) (path pkg) = Some v.
Proof.
  induction l as [| [filePath' update'] l IH]; intros st Hnotin Hin Hget; [auto |].
  cbn [fold_left]. apply IH.
  - intros H. apply Hnotin. now right.
  - unfold NodeWorkspace.appendNew.
    destruct (find (is_package_json_of filePath') (parsedPackages st)); [| exact Hin].
    cbn [pkgsWithPRData]. apply in_app_iff. now left.
  - unfold NodeWorkspace.appendNew.
    destruct (find (is_package_json_of filePath') (parsedPackages st)) as [q |] eqn:Ef;
      [| exact Hget].
    cbn [newManifestVersions]. apply find_is_package_json in Ef.
    destruct Ef as [_ Heq]. rewrite <- Heq, strip_package_json_of_path.
    rewrite get_set_other; [exact Hget |].
    intros Hpath. apply Hnotin. left. cbn [fst]. rewrite <- Heq. now rewrite Hpath.
Qed.

Lemma merge_appends_dependent
  (pkgs : list ManifestPackageWithPRData) (versions : VersionsMap)
  (updated : JsMap.t Package) (configured : list ManifestPackage)
  (pkg : ManifestPackage) (update : Package) :
  NoDup (JsMap.keys updated) ->
  find (is_package_json_of (path pkg ++ "/package.json")%string) configured
  = Some pkg ->
  JsMap.get updated (path pkg ++ "/package.json")%string = Some update ->
  (forall p, In p pkgs -> releaseType (config p) = "node" ->
     path (config p) <> path pkg) ->
  In {| config :=
          {| path := path pkg; releaseType := releaseType pkg;
             packageName := Some (pkg_name update) |};
        prData :=
          {| prVersion := pkg_version update;
             changes :=
               [((path pkg ++ "/package.json")%string,
                 {| content := Some (packageJsonStringify (pkg_json update));
                    mode := "100644" |})] |} |}
     (pkgsWithPRData (merge pkgs versions updated configured)) /\
  JsMap.get (newManifestVersions (merge pkgs versions updated configured))
    (path pkg)
  = Some (pkg_version update).
Proof.
  intros Hnd Hfind Hget Hother. unfold updatePkgsWithPRData.
  set (filePath := (path pkg ++ "/package.json")%string) in *.
  set (st0 := {| pkgsWithPRData := []; newManifestVersions := versions;
                 allUpdated := updated; parsedPackages := configured |}).
  set (st1 := fold_left mergeExisting pkgs st0).
  destruct (first_loop_survivor filePath update pkgs st0 Hget Hnd) as [Hget1 Hnd1].
  { intros p Hp Hnode Heq. apply (Hother p Hp Hnode).
    now apply package_json_path_inj. }
  fold st1 in Hget1, Hnd1.
  destruct (first_loop pkgs st0) as [_ [_ [_ Hcfg]]]. fold st1 in Hcfg.
  apply get_In in Hget1. destruct (in_split _ _ Hget1) as [l1 [l2 Hsplit]].
  rewrite Hsplit in Hnd1 |- *.
  unfold JsMap.keys in Hnd1. rewrite map_app in Hnd1. cbn [map fst] in Hnd1.
  pose proof (NoDup_remove_2 _ _ _ Hnd1) as Hfresh.
  rewrite in_app_iff in Hfresh.
  rewrite fold_left_app. cbn [fold_left].
  set (st2 := fold_left appendNew l1 st1).
  assert (Hfind2 : find (is_package_json_of filePath) (parsedPackages st2) = Some pkg).
  { apply second_loop_before; [tauto |]. rewrite Hcfg. exact Hfind. }
  pose proof (appendNew_appends packageJsonStringify st2 filePath update pkg Hfind2)
    as Happ. cbv zeta in Happ. destruct Happ as [Hentry Hversion].
  unfold filePath in Hversion at 2. rewrite strip_package_json_of_path in Hversion.
  apply second_loop_after; [tauto | | exact Hversion].
  rewrite Hentry. apply in_app_iff. right. now left.
Qed.

(** X8.  A configured package that the propagation updated and that has no entry
    of its own in the pull request is appended: with its configuration and
    the name of the updated package, the updated version, and its
    package.json as the one file change; the updated version is recorded in
    the manifest versions under the path of the package. *)
Theorem updatePkgsWithPRData_appends_dependent
  (pkgs : list ManifestPackageWithPRData) (versions : VersionsMap)
  (updated : JsMap.t Package) (configured : list ManifestPackage)
  (pkg : ManifestPackage) (update : Package) :
  NoDup (JsMap.keys updated) ->
  find (is_package_json_of (path pkg ++ "/package.json")%string) configured
  = Some pkg ->
  JsMap.get updated (path pkg ++ "/package.json")%string = Some update ->
  (forall p, In p pkgs -> releaseType (config p) = "node" ->
     path (config p) <> path pkg) ->
  In {| config :=
          {| path := path pkg; releaseType := releaseType pkg;
             packageName := Some (pkg_name update) |};
        prData :=
          {| prVersion := pkg_version update;
             changes :=
               [((path pkg ++ "/package.json")%string,
                 {| content := Some (packageJsonStringify (pkg_json update));
                    mode := "100644" |})] |} |}
     (pkgsWithPRData (merge pkgs versions updated configured)) /\
  JsMap.get (newManifestVersions (merge pkgs versions updated configured))
    (path pkg)
  = Some (pkg_version update).
Proof. apply merge_appends_dependent. Qed.

End MergeFurther.

(* ================================================================== *)
(** * The entry point of the plugin: facts *)
(* ================================================================== *)

Section WorkspaceRunFacts.
Import Lerna Graph NodeWorkspace Workspace.

Variable semver_inc_patch : option string -> option string.
Variable hosted_toString : Resolved -> string -> string.
Variable runOrder : list Package -> list Package.
Variable packageJsonStringify : PackageJson -> string.
Variable JSON_parse : string -> option PackageJson.
Variable getFileContents : string -> option string.
Variable newPackageGraph : list Package -> option PackageGraph.

Local Abbreviation parseContent := (Workspace.parseContent JSON_parse).
Local Abbreviation ownPackageJson := (Workspace.ownPackageJson JSON_parse).
Local Abbreviation filterPackages := (Workspace.filterPackages JSON_parse).
Local Abbreviation workspacePackage :=
  (Workspace.workspacePackage JSON_parse getFileContents).
Local Abbreviation getAllWorkspacePackages :=
  (Workspace.getAllWorkspacePackages JSON_parse getFileContents).

(** ** [filterPackages] *)

Lemma ownPackageJson_thrown pkg entries :
  fold_left (ownPackageJson pkg) entries None = None.
Proof. induction entries as [| e entries IH]; simpl; auto. Qed.

Lemma ownPackageJson_fold pkg entries :
  forall m m',
  fold_left (ownPackageJson pkg) entries (Some m) = Some m' ->
  (forall k,
     In k (JsMap.keys m') <->
     In k (JsMap.keys m) \/
     (k = (path (config pkg) ++ "/package.json")%string /\
      In k (JsMap.keys entries))) /\
  (forall k j, JsMap.get m' k = Some j ->
     JsMap.get m k = Some j \/
     exists fileData, In (k, fileData) entries /\ parseContent fileData = Some j).
Proof.
  clear semver_inc_patch hosted_toString runOrder packageJsonStringify
    getFileContents newPackageGraph.
  induction entries as [| [k0 fd0] entries IH]; intros m m'.
  - cbn. intros [= <-]. split; [intros k; tauto | auto].
  - cbn [fold_left]. unfold Workspace.ownPackageJson at 2. cbn [obind fst snd].
    destruct (String.eqb_spec k0 (path (config pkg) ++ "/package.json")%string)
      as [Heq | Hne].
    + destruct (parseContent fd0) as [j0 |] eqn:Eparse; cbn [obind].
      * intros H. apply IH in H. destruct H as [Hkeys Hvals]. split.
        -- intros k. rewrite Hkeys, keys_set. cbn [JsMap.keys map fst].
           split.
           ++ intros [[H | H] | [H1 H2]].
              ** right. split; [congruence | left; congruence].
              ** now left.
              ** right. split; [exact H1 | now right].
           ++ intros [H | [H1 [H2 | H2]]].
              ** left. now right.
              ** left. left. congruence.
              ** right. auto.
        -- intros k j Hget. destruct (Hvals k j Hget) as [H | [fd [Hin Hp]]].
           ++ destruct (String.eqb_spec k k0) as [-> | Hk].
              ** rewrite get_set_same in H. injection H as <-.
                 right. exists fd0. split; [now left | exact Eparse].
              ** rewrite get_set_other in H by assumption. now left.
           ++ right. exists fd. split; [now right | exact Hp].
      * rewrite ownPackageJson_thrown. discriminate.
    + intros H. apply IH in H. destruct H as [Hkeys Hvals]. split.
      * intros k. rewrite Hkeys. cbn [JsMap.keys map fst].
        split.
        -- intros [H | [H1 H2]]; [now left |].
           right. split; [exact H1 | now right].
        -- intros [H | [H1 [H2 | H2]]]; [now left | congruence | auto].
      * intros k j Hget. destruct (Hvals k j Hget) as [H | [fd [Hin Hp]]];
          [now left |].
        right. exists fd. split; [now right | exact Hp].
Qed.

Lemma filterPackages_fold pkgs :
  forall m m',
  fold_left
    (fun acc pkg =>
       if String.eqb (releaseType (config pkg)) "node" then
         fold_left (ownPackageJson pkg) (changes (prData pkg)) acc
       else acc)
    pkgs (Some m) = Some m' ->
  (forall k,
     In k (JsMap.keys m') <->
     In k (JsMap.keys m) \/
     exists pkg,
       In pkg pkgs /\ releaseType (config pkg) = "node" /\
       k = (path (config pkg) ++ "/package.json")%string /\
       In k (JsMap.keys (changes (prData pkg)))) /\
  (forall k j, JsMap.get m' k = Some j ->
     JsMap.get m k = Some j \/
     exists pkg fileData,
       In pkg pkgs /\ In (k, fileData) (changes (prData pkg)) /\
       parseContent fileData = Some j).
Proof.
  clear semver_inc_patch hosted_toString runOrder packageJsonStringify
    getFileContents newPackageGraph.
  induction pkgs as [| pkg pkgs IH]; intros m m'.
  - cbn. intros [= <-]. split; [| auto].
    intros k. split; [auto | intros [H | [pkg [[] _]]]; exact H].
  - cbn [fold_left].
    destruct (String.eqb_spec (releaseType (config pkg)) "node") as [Hnode | Hother].
    + destruct (fold_left (ownPackageJson pkg) (changes (prData pkg)) (Some m))
        as [m1 |] eqn:E1.
      * apply ownPackageJson_fold in E1. destruct E1 as [Hk1 Hv1].
        intros H. apply IH in H. destruct H as [Hk Hv]. split.
        -- intros k. rewrite Hk, Hk1. split.
           ++ intros [[H | [H1 H2]] | [pkg' [Hin Hrest]]].
              ** now left.
              ** right. exists pkg. split; [now left | auto].
              ** right. exists pkg'. split; [now right | exact Hrest].
           ++ intros [H | [pkg' [[<- | Hin] [H1 [H2 H3]]]]].
              ** left. now left.
              ** left. right. auto.
              ** right. exists pkg'. auto.
        -- intros k j Hget. destruct (Hv k j Hget) as [H | [pkg' [fd [Hin Hrest]]]].
           ++ destruct (Hv1 k j H) as [H' | [fd [Hin Hp]]]; [now left |].
              right. exists pkg, fd. split; [now left | auto].
           ++ right. exists pkg', fd. split; [now right | exact Hrest].
      * assert (Hnone : forall l,
                  fold_left
                    (fun acc pkg0 =>
                       if String.eqb (releaseType (config pkg0)) "node" then
                         fold_left (ownPackageJson pkg0) (changes (prData pkg0)) acc
                       else acc) l None = None).
        { induction l as [| x l IHl]; simpl; [reflexivity |].
          destruct (String.eqb _ _); [rewrite ownPackageJson_thrown |]; exact IHl. }
        rewrite Hnone. discriminate.
    + intros H. apply IH in H. destruct H as [Hk Hv]. split.
      * intros k. rewrite Hk. split.
        -- intros [H | [pkg' [Hin Hrest]]]; [now left |].
           right. exists pkg'. split; [now right | exact Hrest].
        -- intros [H | [pkg' [[<- | Hin] [H1 Hrest]]]].
           ++ now left.
           ++ congruence.
           ++ right. exists pkg'. auto.
      * intros k j Hget. destruct (Hv k j Hget) as [H | [pkg' [fd [Hin Hrest]]]];
          [now left |].
        right. exists pkg', fd. split; [now right | exact Hrest].
Qed.

(** X1.  [filterPackages] picks the package.json of a node package among its own
    pending changes and nothing else: a path is a key of the result exactly
    when it is the package.json of a node package of the pull request with a
    pending change at that path, and every value is the parsed content of
    such a change. *)
Theorem filterPackages_own_package_json
  (pkgs : list ManifestPackageWithPRData) (rp : PathPkgJson) :
  filterPackages pkgs = Some rp ->
  (forall k,
     JsMap.has rp k = true <->
     exists pkg,
       In pkg pkgs /\ releaseType (config pkg) = "node" /\
       k = (path (config pkg) ++ "/package.json")%string /\
       JsMap.has (changes (prData pkg)) k = true) /\
  (forall k j, JsMap.get rp k = Some j ->
     exists pkg fileData,
       In pkg pkgs /\ In (k, fileData) (changes (prData pkg)) /\
       parseContent fileData = Some j).
Proof.
  clear semver_inc_patch hosted_toString runOrder packageJsonStringify
    getFileContents newPackageGraph.
  intros H. apply filterPackages_fold in H. destruct H as [Hk Hv]. split.
  - intros k. rewrite has_In, Hk. cbn. split.
    + intros [[] | [pkg [H1 [H2 [H3 H4]]]]]. exists pkg.
      rewrite has_In. auto.
    + intros [pkg [H1 [H2 [H3 H4]]]]. right. exists pkg.
      rewrite has_In in H4. auto.
  - intros k j Hget. destruct (Hv k j Hget) as [H | H]; [discriminate | exact H].
Qed.

(** ** [getAllWorkspacePackages] *)

Lemma workspacePackage_thrown rp configured :
  fold_left (workspacePackage rp) configured None = None.
Proof. induction configured as [| p l IH]; simpl; auto. Qed.

Lemma getAllWorkspacePackages_fold rp configured :
  forall acc result,
  fold_left (workspacePackage rp) configured (Some acc) = Some result ->
  map fst result
  = map fst acc
    ++ map (fun p => (path p ++ "/package.json")%string)
         (filter (fun p => String.eqb (releaseType p) "node") configured) /\
  (forall filePath j, In (filePath, j) result ->
     In (filePath, j) acc \/
     match JsMap.get rp filePath with
     | Some alreadyUpdated => j = alreadyUpdated
     | None => obind (getFileContents filePath) JSON_parse = Some j
     end).
Proof.
  induction configured as [| p configured IH]; intros acc result.
  - cbn. intros [= <-]. rewrite app_nil_r. auto.
  - cbn [fold_left filter]. unfold Workspace.workspacePackage at 2. cbn [obind].
    destruct (String.eqb (releaseType p) "node"); cbn [negb].
    + set (filePath := (path p ++ "/package.json")%string).
      destruct (match JsMap.get rp filePath with
                | Some alreadyUpdated => Some alreadyUpdated
                | None => obind (getFileContents filePath) JSON_parse
                end) as [contents |] eqn:Ec; cbn [obind].
      * intros H. apply IH in H. destruct H as [Hpaths Hvals]. split.
        -- rewrite Hpaths, map_app, <- app_assoc. reflexivity.
        -- intros fp j Hin. destruct (Hvals fp j Hin) as [H | H]; [| now right].
           apply in_app_iff in H. destruct H as [H | [[= <- <-] | []]]; [now left |].
           right. fold filePath. destruct (JsMap.get rp filePath); congruence.
      * rewrite workspacePackage_thrown. discriminate.
    + apply IH.
Qed.

(** X2.  [getAllWorkspacePackages] lists the package.json of every configured
    node package, in the order of the configuration and under its path; the
    content is the one release-please already updated when there is one, and
    the one fetched from the host otherwise. *)
Theorem getAllWorkspacePackages_prefers_updated
  (rp : PathPkgJson) (configured : list ManifestPackage)
  (allPkgs : list (string * PackageJson)) :
  getAllWorkspacePackages rp configured = Some allPkgs ->
  map fst allPkgs
  = map (fun p => (path p ++ "/package.json")%string)
      (filter (fun p => String.eqb (releaseType p) "node") configured) /\
  (forall filePath j, In (filePath, j) allPkgs ->
     match JsMap.get rp filePath with
     | Some alreadyUpdated => j = alreadyUpdated
     | None => obind (getFileContents filePath) JSON_parse = Some j
     end).
Proof.
  intros H. apply getAllWorkspacePackages_fold in H. destruct H as [Hpaths Hvals].
  split; [exact Hpaths |].
  intros filePath j Hin. destruct (Hvals filePath j Hin) as [[] | H]. exact H.
Qed.

(** ** [run] *)

(** X9.  When the pull request holds no package.json updated by a node releaser,
    the plugin returns its two arguments as they are, whatever the workspace
    looks like. *)
Theorem run_without_updates_is_identity
  (versions : VersionsMap) (pkgs : list ManifestPackageWithPRData)
  (configured : list ManifestPackage)
  (allPkgs : list (string * PackageJson)) (G : PackageGraph) :
  (forall l, Permutation (runOrder l) l) ->
  filterPackages pkgs = Some [] ->
  getAllWorkspacePackages [] configured = Some allPkgs ->
  newPackageGraph
    (map (fun e => {| pkg_json := snd e; pkg_location := fst e |}) allPkgs)
  = Some G ->
  Workspace.run semver_inc_patch hosted_toString runOrder packageJsonStringify
    JSON_parse getFileContents newPackageGraph versions pkgs configured
  = Some (versions, pkgs).
Proof.
  intros Hperm Hfilter Hall Hgraph. unfold Workspace.run.
  rewrite Hfilter. cbn [obind]. rewrite Hall. cbn [obind].
  rewrite Hgraph. cbn [obind].
  rewrite (runLernaVersion_no_candidate semver_inc_patch hosted_toString runOrder
             [] G Hperm); [| reflexivity].
  cbn [obind]. now rewrite merge_nothing.
Qed.

(** X10.  The plugin end to end: a configured package that release-please did not
    update and that depends, in an acyclic workspace, on a package it did
    update, is appended to the pull request with its patch increment as
    version and its rewritten package.json as the one file change, and the
    increment is recorded in the manifest versions under its path. *)
Theorem run_appends_patched_dependent
  (versions : VersionsMap) (pkgs : list ManifestPackageWithPRData)
  (configured : list ManifestPackage) (rp : PathPkgJson)
  (allPkgs : list (string * PackageJson)) (G : PackageGraph)
  (A B : PackageGraphNode) (vB : string) (pkgB : ManifestPackage) :
  (forall l, Permutation (runOrder l) l) ->
  filterPackages pkgs = Some rp ->
  getAllWorkspacePackages rp configured = Some allPkgs ->
  newPackageGraph
    (map (fun e => {| pkg_json := snd e; pkg_location := fst e |}) allPkgs)
  = Some G ->
  wf_graph G = true -> distinct_locations G = true -> acyclic G ->
  In A G -> isCandidate rp A = true ->
  In B G -> isCandidate rp B = false ->
  depends_trans G (node_name B) (node_name A) ->
  semver_inc_patch (node_version B) = Some vB ->
  node_location B = (path pkgB ++ "/package.json")%string ->
  find (is_package_json_of (path pkgB ++ "/package.json")%string) configured
  = Some pkgB ->
  (forall p, In p pkgs -> releaseType (config p) = "node" ->
     path (config p) <> path pkgB) ->
  exists versions' pkgs' pB,
    Workspace.run semver_inc_patch hosted_toString runOrder packageJsonStringify
      JSON_parse getFileContents newPackageGraph versions pkgs configured
    = Some (versions', pkgs') /\
    JsMap.get versions' (path pkgB) = Some (Some vB) /\
    pkg_name pB = node_name B /\
    (forall D r vD,
       In (node_name D, r) (localDependencies B) ->
       In D (collectPackages G (isCandidate rp)) ->
       Propagation.new_version semver_inc_patch rp D = Some (Some vD) ->
       vD <> "" -> r_registry r = true -> r_type r <> TDirectory ->
       dep_spec pB (node_name D) = Some ("^" ++ vD)%string) /\
    In {| config :=
            {| path := path pkgB; releaseType := releaseType pkgB;
               packageName := Some (node_name B) |};
          prData :=
            {| prVersion := Some vB;
               changes :=
                 [((path pkgB ++ "/package.json")%string,
                   {| content := Some (packageJsonStringify (pkg_json pB));
                      mode := "100644" |})] |} |}
       pkgs'.
Proof.
  intros Hperm Hfilter Hall Hgraph Hwf Hloc Hacyclic HA HcA HB HcB Hdep Hinc
    Hpath Hfind Hother.
  destruct (runLernaVersion_spec semver_inc_patch hosted_toString runOrder Hperm
              rp G Hwf (distinct_locations_NoDup G Hloc))
    as [out [Hout [Hkeys Hspec]]].
  assert (HBin : In B (collectPackages G (isCandidate rp)))
    by (apply (dependents_in_updateSet rp G A B); assumption).
  assert (HvB : Propagation.new_version semver_inc_patch rp B = Some (Some vB)).
  { unfold Propagation.new_version. now rewrite HcB, Hinc. }
  destruct (processed_node semver_inc_patch hosted_toString rp G B (Some vB)
              Hwf HBin HvB) as [pB [Hrun [N [L [V [_ [_ C]]]]]]].
  assert (Hget : JsMap.get out (path pkgB ++ "/package.json")%string = Some pB).
  { rewrite <- Hpath. apply Hspec. exists B. repeat split; auto. congruence. }
  destruct (merge_appends_dependent packageJsonStringify pkgs versions out
              configured pkgB pB Hkeys Hfind Hget Hother) as [Hentry Hversion].
  unfold Workspace.run.
  rewrite Hfilter. cbn [obind]. rewrite Hall. cbn [obind].
  rewrite Hgraph. cbn [obind]. rewrite Hout. cbn [obind].
  eexists. eexists. exists pB. split; [reflexivity |].
  rewrite V in Hversion, Hentry. rewrite N in Hentry. auto.
Qed.

End WorkspaceRunFacts.

(* ================================================================== *)
(** * The flows of the manifest on concrete hosts *)
(* ================================================================== *)

Section FlowWitnesses.
Import Manifest Effects Flows Hosts Sites.

(** The manifest is not found at the release abc123: [undefined], and one
    failure in the log. *)
Lemma getFileJson_failed_fetch_witness :
  exists msg,
    getFileJson deleted ".release-please-manifest.json" (Some "abc123") initial
    = (Ok None,
       {| configFile := None; headManifest := None;
          trace := [Checkpoint msg Failure] |}).
Proof.
  apply (getFileJson_failed_fetch deleted ".release-please-manifest.json"
           (Some "abc123") notFound initial).
  reflexivity.
Defined.

(** The manifest read from one host is served again after the host has
    changed. *)
Lemma getManifestJson_reads_host_once_witness :
  getManifestJson emptied None (snd (getManifestJson smooth None initial))
  = (Ok (Some bothReleased), snd (getManifestJson smooth None initial)).
Proof.
  apply (getManifestJson_reads_host_once smooth emptied initial).
  - reflexivity.
  - reflexivity.
Defined.

Lemma getConfigJson_reads_host_once_witness :
  getConfigJson emptied (snd (getConfigJson smooth initial))
  = (Ok (configOf (snd (getConfigJson smooth initial))),
     snd (getConfigJson smooth initial)).
Proof.
  apply (getConfigJson_reads_host_once smooth emptied initial).
  reflexivity.
Defined.

Lemma getManifestVersions_at_release_witness :
  getManifestVersions addedSince (ShaString "abc123") initial
  = (Ok ([("packages/a", JStr "1.0.0")], "abc123"), initial).
Proof.
  apply (getManifestVersions_at_release addedSince "abc123" "at-sha"
           [("packages/a", JStr "1.0.0")] initial).
  - discriminate.
  - reflexivity.
  - reflexivity.
Defined.

Lemma getManifestVersions_deleted_at_release_witness :
  exists msg,
    getManifestVersions deleted (ShaString "abc123") (validated deleted)
    = (Ok ([("packages/a", JStr "1.0.0"); ("packages/b", JStr "2.0.0")], "tip"),
       {| configFile := configFile (validated deleted);
          headManifest := headManifest (validated deleted);
          trace := trace (validated deleted)
                   ++ [Checkpoint msg Failure;
                       Checkpoint (bootstrapMsg deleted) Failure] |}).
Proof.
  apply (getManifestVersions_deleted_at_release deleted "abc123" notFound
           [("packages/a", JStr "1.0.0"); ("packages/b", JStr "2.0.0")]
           (validated deleted)).
  - discriminate.
  - reflexivity.
  - reflexivity.
Defined.

(** packages/a names its own release type and inherits the default
    release-as; packages/b inherits the default type and switches the
    release-as off with an empty string. *)
Lemma getConfigJson_parsed_packages_witness :
  map path (parsedPackages (configOf (snd (getConfigJson mixed initial))))
  = ["packages/a"; "packages/b"] /\
  Forall settled (parsedPackages (configOf (snd (getConfigJson mixed initial)))).
Proof.
  apply (getConfigJson_parsed_packages mixed initial
           (snd (getConfigJson mixed initial))
           (configOf (snd (getConfigJson mixed initial)))).
  - reflexivity.
  - reflexivity.
  - reflexivity.
Defined.

Lemma validateJsonFile_invalid_json_witness :
  validateJsonFile garbled GetConfigJson "release-please-config.json" initial
  = (Ok None,
     {| configFile := None; headManifest := None;
        trace := [Checkpoint "Invalid JSON in release-please-config.json"
                    Failure] |}).
Proof.
  apply (validateJsonFile_invalid_json garbled initial "config").
  - reflexivity.
  - reflexivity.
  - reflexivity.
Defined.

Lemma validate_true_is_wellformed_witness :
  exists c entries,
    configFile (validated smooth) = Some c /\ packages_count c <> 0 /\
    headManifest (validated smooth) = Some (JObj entries) /\
    has_non_string (JsMap.of_entries entries) = false.
Proof.
  apply (validate_true_is_wellformed smooth initial (validated smooth)).
  reflexivity.
Defined.

Lemma buildManifestPR_updates_witness :
  exists body,
    buildManifestPR smooth [("packages/a", JStr "1.0.1")] [fixOfA]
      (validated smooth)
    = (Ok (body,
           [ ReleaserUpdate "packages/a/package.json";
             ReleasePleaseManifest ".release-please-manifest.json"
               [("packages/a", JStr "1.0.1")] "" ]),
       validated smooth).
Proof.
  apply (buildManifestPR_updates smooth [("packages/a", JStr "1.0.1")] [fixOfA]
           (validated smooth) bothReleased).
  - reflexivity.
  - reflexivity.
Defined.

(** No releaser of this host has anything to release. *)
Lemma pullRequest_without_changes_witness :
  filter is_mutation (trace (snd (pullRequest smooth initial)))
  = filter is_mutation (trace initial) /\
  (fst (pullRequest smooth initial) = Ok None \/
   exists e, fst (pullRequest smooth initial) = Throw e).
Proof.
  apply (pullRequest_without_changes_opens_nothing smooth initial).
  intros pkg tag. reflexivity.
Defined.

(** The last merged pull request is labeled as released: nothing is done. *)
Lemma githubRelease_guards_witness :
  exists s',
    githubRelease tagged initial = (Ok None, s') /\
    filter is_mutation (trace s') = filter is_mutation (trace initial).
Proof.
  apply (githubRelease_guards tagged initial).
  intros pr [= <-]. left. reflexivity.
Defined.


Lemma githubRelease_result_witness :
  exists r,
    fst (githubRelease flaky initial) = Ok (Some r) /\
    (forall pkg,
       In pkg (candidatesOf flaky
                 (pending ["packages/a/package.json"; "packages/b/package.json"])) ->
       JsMap.get r (path (prd_package pkg))
       = release_outcome flaky
           (pending ["packages/a/package.json"; "packages/b/package.json"]) pkg) /\
    (forall p,
       ~ In p (map (fun d => path (prd_package d))
                 (candidatesOf flaky
                    (pending ["packages/a/package.json"; "packages/b/package.json"]))) ->
       JsMap.get r p = None).
Proof.
  pose (pr := pending ["packages/a/package.json"; "packages/b/package.json"]).
  destruct (githubRelease_result flaky initial (validated flaky)
              (afterCandidates flaky pr) pr (candidatesOf flaky pr)
              eq_refl eq_refl eq_refl eq_refl eq_refl
              (match fst (githubRelease flaky initial) with
               | Ok r => r
               | Throw _ => None
               end)
              eq_refl) as [r [Hr H]].
  exists r. split; [| exact H]. rewrite <- Hr. reflexivity.
Defined.

(** Both packages were touched by the merged pull request: two candidates,
    one per path. *)
Lemma getPackagesToRelease_candidates_witness :
  NoDup (map (fun d => path (prd_package d))
           (candidatesOf addedSince
              (pending ["packages/a/package.json"; "packages/b/package.json"]))) /\
  exists d,
    In d (candidatesOf addedSince
            (pending ["packages/a/package.json"; "packages/b/package.json"])) /\
    path (prd_package d) = "packages/b".
Proof.
  pose (pr := pending ["packages/a/package.json"; "packages/b/package.json"]).
  destruct (getPackagesToRelease_candidates addedSince (validated addedSince)
              (afterCandidates addedSince pr) (configOf (validated addedSince))
              [mergeCommit pr] (Some "abc123") (candidatesOf addedSince pr)
              eq_refl eq_refl) as [Hnd [_ Hall]].
  split; [exact Hnd |].
  apply (Hall (nth 1 (parsedPackages (configOf (validated addedSince))) noPackage)
           (mergeCommit pr) []).
  - right. left. reflexivity.
  - reflexivity.
Defined.

(** packages/a has a version in the manifest at the release: that is the
    version of its candidate. *)
Lemma getPackagesToRelease_version_at_release_witness :
  lastVersion
    (hd noCandidate
       (candidatesOf addedSince
          (pending ["packages/a/package.json"; "packages/b/package.json"])))
  = Some (JStr "1.0.0").
Proof.
  pose (pr := pending ["packages/a/package.json"; "packages/b/package.json"]).
  exact (getPackagesToRelease_version_at_release addedSince
           (validated addedSince)
           (snd (getManifestVersions addedSince (ShaString "abc123")
                   (validated addedSince)))
           (afterCandidates addedSince pr) (configOf (validated addedSince))
           [mergeCommit pr] (Some "abc123") [("packages/a", JStr "1.0.0")] "abc123"
           (candidatesOf addedSince pr) (hd noCandidate (candidatesOf addedSince pr))
           eq_refl eq_refl eq_refl (or_introl eq_refl) eq_refl).
Defined.

End FlowWitnesses.

(* ================================================================== *)
(** * The plugin on the chain *)
(* ================================================================== *)

Section PluginWitnesses.
Import Lerna Graph NodeWorkspace Propagation Examples Scenarios Cases Merge.

(** pkgA was updated by its releaser to 1.1.2 and leaves the pass at that
    version. *)
Lemma runLernaVersion_keeps_releaser_version_witness :
  exists out pA,
    run_chain = Some out /\
    JsMap.get out "packages/pkgA/package.json" = Some pA /\
    pkg_name pA = "@here/pkgA" /\
    pkg_version pA = Some "1.1.2".
Proof.
  apply (runLernaVersion_keeps_releaser_version Semver.inc_patch no_hosted in_order
           chainUpdated chain nodeA in_order_perm).
  - reflexivity.
  - reflexivity.
  - left. reflexivity.
  - reflexivity.
Defined.

(** someExternal is no local dependency of pkgB: its range is left alone. *)
Lemma runLernaVersion_leaves_other_dependencies_witness :
  exists out,
    run_chain = Some out /\
    forall loc p, JsMap.get out loc = Some p ->
      exists n,
        In n chain /\ node_location n = loc /\
        forall d, JsMap.has (localDependencies n) d = false ->
          specs p d = specs (node_pkg n) d /\
          dep_spec p d = dep_spec (node_pkg n) d.
Proof.
  apply (runLernaVersion_leaves_other_dependencies Semver.inc_patch no_hosted
           in_order chainUpdated chain in_order_perm).
  - reflexivity.
  - reflexivity.
Defined.

(** Nothing was updated in the chain: the pass returns the empty map. *)
Lemma runLernaVersion_without_updates_witness :
  runLernaVersion Semver.inc_patch no_hosted in_order [] chain = Some [].
Proof.
  apply (runLernaVersion_without_updates_is_empty Semver.inc_patch no_hosted
           in_order [] chain in_order_perm).
  intros n _. reflexivity.
Defined.

(** In the chain with pkgA updated, all three packages are in the output. *)
Lemma runLernaVersion_output_set_witness :
  exists out,
    run_chain = Some out /\
    forall n, In n chain ->
      (JsMap.has out (node_location n) = true <->
       isCandidate chainUpdated n = true \/
       ((exists a, In a chain /\ isCandidate chainUpdated a = true /\
                   depends_trans chain (node_name n) (node_name a)) /\
        Semver.inc_patch (node_version n) <> None)).
Proof.
  apply (runLernaVersion_output_set Semver.inc_patch no_hosted in_order
           chainUpdated chain in_order_perm).
  - reflexivity.
  - reflexivity.
  - exact chain_acyclic.
Defined.

(** The pull request of pkgA and the documentation: both entries are kept,
    the documentation is at no path of an updated package. *)
Lemma updatePkgsWithPRData_keeps_packages_witness :
  exists keptPkgs news,
    pkgsWithPRData
      (updatePkgsWithPRData stringify pullRequestOfAAndDocs versionsOfA
         updatedChain workspace)
    = keptPkgs ++ news /\
    Forall2 kept pullRequestOfAAndDocs keptPkgs /\
    Forall (appended workspace) news.
Proof.
  apply (updatePkgsWithPRData_keeps_packages stringify pullRequestOfAAndDocs
           versionsOfA updatedChain workspace).
  intros p [<- | [<- | []]] Hnode.
  - exfalso. apply Hnode. reflexivity.
  - reflexivity.
Defined.

(** pkgB was updated by the propagation only: it is appended to the pull
    request of pkgA, and its version recorded under packages/pkgB. *)
Lemma updatePkgsWithPRData_appends_dependent_witness :
  In {| config :=
          {| path := "packages/pkgB"; releaseType := "node";
             packageName := Some "@here/pkgB" |};
        prData :=
          {| prVersion := Some "2.2.3";
             changes :=
               [("packages/pkgB/package.json",
                 {| content :=
                      Some "@here/pkgB@2.2.3 {@here/pkgA: ^1.1.2, someExternal: ^9.2.3}";
                    mode := "100644" |})] |} |}
     (pkgsWithPRData
        (updatePkgsWithPRData stringify pullRequestOfA versionsOfA updatedChain
           workspace)) /\
  JsMap.get
    (newManifestVersions
       (updatePkgsWithPRData stringify pullRequestOfA versionsOfA updatedChain
          workspace))
    "packages/pkgB"
  = Some (Some "2.2.3").
Proof.
  apply (updatePkgsWithPRData_appends_dependent stringify pullRequestOfA
           versionsOfA updatedChain workspace
           {| path := "packages/pkgB"; releaseType := "node"; packageName := None |}
           pkgB_updated).
  - repeat constructor; simpl; intuition discriminate.
  - reflexivity.
  - reflexivity.
  - intros p [<- | []] _. discriminate.
Defined.

(** The pull request of pkgA holds one package.json of a node package. *)
Lemma filterPackages_own_package_json_witness :
  (forall k,
     JsMap.has chainUpdated k = true <->
     exists pkg,
       In pkg pullRequestOfA /\ releaseType (config pkg) = "node" /\
       k = (path (config pkg) ++ "/package.json")%string /\
       JsMap.has (changes (prData pkg)) k = true) /\
  (forall k j, JsMap.get chainUpdated k = Some j ->
     exists pkg fileData,
       In pkg pullRequestOfA /\ In (k, fileData) (changes (prData pkg)) /\
       Workspace.parseContent parse fileData = Some j).
Proof.
  apply (filterPackages_own_package_json parse pullRequestOfA chainUpdated).
  reflexivity.
Defined.

(** pkgA comes from the pull request, pkgB and pkgC are fetched. *)
Lemma getAllWorkspacePackages_prefers_updated_witness :
  map fst (map (fun p => (pkg_location p, pkg_json p)) [pkgA; pkgB; pkgC])
  = map (fun p => (path p ++ "/package.json")%string)
      (filter (fun p => String.eqb (releaseType p) "node") workspace) /\
  (forall filePath j,
     In (filePath, j) (map (fun p => (pkg_location p, pkg_json p)) [pkgA; pkgB; pkgC]) ->
     match JsMap.get chainUpdated filePath with
     | Some alreadyUpdated => j = alreadyUpdated
     | None => obind (fetch filePath) parse = Some j
     end).
Proof.
  apply (getAllWorkspacePackages_prefers_updated parse fetch chainUpdated workspace).
  reflexivity.
Defined.

(** A pull request without a node package comes back as it went in. *)
Lemma run_without_updates_is_identity_witness :
  Cases.run versionsOfA pullRequestOfDocs = Some (versionsOfA, pullRequestOfDocs).
Proof.
  apply (run_without_updates_is_identity Semver.inc_patch no_hosted in_order
           stringify parse fetch graphOf versionsOfA pullRequestOfDocs workspace
           (map (fun p => (pkg_location p, pkg_json p)) [pkgA; pkgB; pkgC]) chain
           in_order_perm).
  - reflexivity.
  - reflexivity.
  - reflexivity.
Defined.

(** The chain end to end: pkgB is appended at 2.2.3 with its range on pkgA
    rewritten. *)
Lemma run_appends_patched_dependent_witness :
  exists versions' pkgs' pB,
    Cases.run versionsOfA pullRequestOfA = Some (versions', pkgs') /\
    JsMap.get versions' "packages/pkgB" = Some (Some "2.2.3") /\
    pkg_name pB = "@here/pkgB" /\
    dep_spec pB "@here/pkgA" = Some "^1.1.2" /\
    In {| config :=
            {| path := "packages/pkgB"; releaseType := "node";
               packageName := Some "@here/pkgB" |};
          prData :=
            {| prVersion := Some "2.2.3";
               changes :=
                 [("packages/pkgB/package.json",
                   {| content := Some (stringify (pkg_json pB));
                      mode := "100644" |})] |} |}
       pkgs'.
Proof.
  destruct (run_appends_patched_dependent Semver.inc_patch no_hosted in_order
              stringify parse fetch graphOf versionsOfA pullRequestOfA workspace
              chainUpdated
              (map (fun p => (pkg_location p, pkg_json p)) [pkgA; pkgB; pkgC])
              chain nodeA nodeB "2.2.3"
              {| path := "packages/pkgB"; releaseType := "node";
                 packageName := None |}
              in_order_perm)
    as [versions' [pkgs' [pB [Hrun [Hversion [Hname [Hdeps Hentry]]]]]]].
  - reflexivity.
  - reflexivity.
  - reflexivity.
  - reflexivity.
  - reflexivity.
  - exact chain_acyclic.
  - left. reflexivity.
  - reflexivity.
  - right. left. reflexivity.
  - reflexivity.
  - exact chain_pkgB_depends_on_pkgA.
  - reflexivity.
  - reflexivity.
  - reflexivity.
  - intros p [<- | []] _. discriminate.
  - exists versions', pkgs', pB. split; [exact Hrun |]. split; [exact Hversion |].
    split; [exact Hname |]. split; [| exact Hentry].
    apply (Hdeps nodeA (range_to "@here/pkgA") "1.1.2").
    + left. reflexivity.
    + left. reflexivity.
    + reflexivity.
    + discriminate.
    + reflexivity.
    + discriminate.
Defined.

End PluginWitnesses.
